(** * jellyfin-library-poster: the poster compositor [gen_poster.py]

    A shallow embedding of [src/gen_poster.py] and the properties of its
    specification.  The module assembles a "poster wall": it samples two
    colours from a reference cover, draws a horizontal gradient, stacks
    resized and shadowed covers into columns, rotates and places the
    columns, and overlays title text.

    Modelling conventions.
    - Python [int] is [Z]; [//] is [Z.div] (both floor).  Expressions the
      source evaluates in double precision are given their exact value in
      [Q] (gradient, brightness) or [R] (square root, power); next to each
      such definition stands an executable integer function, proved equal
      to it, which the workflow uses.  For the magnitudes that occur
      (image sides, channel values) the exact value and the rounded double
      have the same integer part; the comments say why at each place.
    - [str] is [string], one 8-bit character per element.
    - Exceptions are a [result]; code that touches the file system, the
      random generator or the logger runs in a state-and-exception monad
      [M] over an abstract world.
    - The imaging library (Pillow) is outside the repository.  Its
      pixel-exact geometry ([Image.new], [paste], [getpixel], vertical
      [line]) is written out; resampling, blurring, rotation and glyph
      rendering are operations of the interface [Imaging]; the two
      documented end points of mask blending and of alpha compositing are
      the laws [ImagingLaws]. *)

From Stdlib Require Import ZArith QArith Qround Reals Lra Lia String Ascii List.
From stdpp Require Import base list strings gmap pretty sorting.

Open Scope Z_scope.

(** ** Exceptions and results *)

(** The exception classes that the modelled code can meet.  All of them
    derive from Python's [Exception], which is what both [except] clauses
    of the source catch. *)
Inductive exn : Set :=
| ValueError
| IndexError
| KeyError
| TypeError
| OSError.

Inductive result (A : Type) : Type :=
| Ret (a : A)
| Raise (e : exn).
Arguments Ret {A} a.
Arguments Raise {A} e.

Global Instance result_ret : MRet result := λ A a, Ret a.
Global Instance result_bind : MBind result := λ A B f m,
  match m with
  | Ret a => f a
  | Raise e => Raise e
  end.
Global Instance result_fmap : FMap result := λ A B f m,
  match m with
  | Ret a => Ret (f a)
  | Raise e => Raise e
  end.

(** ** Python built-ins *)

(** [int(q)] for a float of exact value [q]: truncation toward zero. *)
Definition py_int (q : Q) : Z :=
  if Qle_bool 0 q then Qfloor q else Qceiling q.

(** [max(xs)] of a list; [ValueError] on the empty list. *)
Definition py_max (xs : list Z) : result Z :=
  match xs with
  | [] => Raise ValueError
  | x :: xs' => Ret (foldl Z.max x xs')
  end.

(** Slice bounds are clamped the way Python does: a negative bound counts
    from the end, and everything is cut to [0..len]. *)
Definition py_norm_index (len i : Z) : Z :=
  Z.max 0 (Z.min len (if i <? 0 then i + len else i)).

(** [l[start:stop]] *)
Definition py_slice {A} (l : list A) (start stop : Z) : list A :=
  let n := Z.of_nat (length l) in
  let a := py_norm_index n start in
  let b := py_norm_index n stop in
  take (Z.to_nat (b - a)) (drop (Z.to_nat a) l).

(** [list(range(start, stop, step))] *)
Definition py_range (start stop step : Z) : result (list Z) :=
  if step =? 0 then Raise ValueError
  else if 0 <? step then
    Ret ((λ k, start + k * step) <$> seqZ 0 ((stop - start + step - 1) / step))
  else
    Ret ((λ k, start + k * step) <$> seqZ 0 ((start - stop - step - 1) / (- step))).

(** [list(enumerate(l))] *)
Definition enumerate {A} (l : list A) : list (Z * A) :=
  zip (seqZ 0 (Z.of_nat (length l))) l.

(** [t[i]] on a tuple or list, for [0 <= i]. *)
Definition py_index {A} (l : list A) (i : Z) : result A :=
  match (if i <? 0 then None else l !! Z.to_nat i) with
  | Some x => Ret x
  | None => Raise IndexError
  end.

(** A stable sort by an integer key: [sorted(l, key=key)].  Insertion
    from the right keeps equal keys in their input order, as Python's
    sort does. *)
Fixpoint insert_by {A} (key : A → Z) (x : A) (l : list A) : list A :=
  match l with
  | [] => [x]
  | y :: l' => if key x <=? key y then x :: l else y :: insert_by key x l'
  end.

Definition sort_by {A} (key : A → Z) (l : list A) : list A :=
  foldr (insert_by key) [] l.

(** ** Strings *)

Definition str_len (s : string) : Z := Z.of_nat (String.length s).

Definition ascii_lower (c : ascii) : ascii :=
  let n := nat_of_ascii c in
  if ((65 <=? n) && (n <=? 90))%nat then ascii_of_nat (n + 32) else c.

(** [s.lower()] *)
Fixpoint str_lower (s : string) : string :=
  match s with
  | EmptyString => EmptyString
  | String c s' => String (ascii_lower c) (str_lower s')
  end.

(** [s.endswith(suffix)] *)
Fixpoint str_endswith (s suffix : string) : bool :=
  String.eqb s suffix ||
  match s with
  | EmptyString => false
  | String _ s' => str_endswith s' suffix
  end.

(** [str.isspace] on one character (code points below 256). *)
Definition is_space (c : ascii) : bool :=
  let n := nat_of_ascii c in
  (((9 <=? n) && (n <=? 13)) || ((28 <=? n) && (n <=? 32))
   || (n =? 133) || (n =? 160))%nat.

(** Cut at every character that satisfies [sep], keeping empty pieces;
    the result is never empty. *)
Fixpoint split_on (sep : ascii → bool) (s : string) : list string :=
  match s with
  | EmptyString => [EmptyString]
  | String c s' =>
      if sep c then EmptyString :: split_on sep s'
      else match split_on sep s' with
           | w :: ws => String c w :: ws
           | [] => [String c EmptyString]
           end
  end.

(** [s.split(" ")] *)
Definition str_split_space (s : string) : list string :=
  split_on (Ascii.eqb " ") s.

(** [s.split()]: the maximal runs of non-whitespace characters. *)
Definition str_split (s : string) : list string :=
  filter (λ w, w ≠ EmptyString) (split_on is_space s).

(** [s.rpartition(c)], without the separator: the text before and after
    the last [c], or [None] when [c] does not occur. *)
Fixpoint rpartition (c : ascii) (s : string) : option (string * string) :=
  match s with
  | EmptyString => None
  | String a s' =>
      match rpartition c s' with
      | Some (pre, post) => Some (String a pre, post)
      | None => if Ascii.eqb a c then Some (EmptyString, s') else None
      end
  end.

Fixpoint all_chars (p : ascii → bool) (s : string) : bool :=
  match s with
  | EmptyString => true
  | String a s' => p a && all_chars p s'
  end.

Fixpoint rstrip (c : ascii) (s : string) : string :=
  match s with
  | EmptyString => EmptyString
  | String a s' =>
      match rstrip c s' with
      | EmptyString => if Ascii.eqb a c then EmptyString else String a EmptyString
      | t => String a t
      end
  end.

(** ** Paths ([posixpath]) *)

Module path.

(** [os.path.join(a, b)] *)
Definition join (a b : string) : string :=
  match b with
  | String "/" _ => b
  | _ => if (String.eqb a "" || str_endswith a "/")%bool then a +:+ b
         else a +:+ "/" +:+ b
  end.

(** [os.path.basename(p)] *)
Definition basename (p : string) : string :=
  match rpartition "/" p with
  | Some (_, post) => post
  | None => p
  end.

(** [os.path.dirname(p)] *)
Definition dirname (p : string) : string :=
  match rpartition "/" p with
  | Some (pre, _) =>
      let head := pre +:+ "/" in
      if all_chars (Ascii.eqb "/") head then head else rstrip "/" head
  | None => EmptyString
  end.

(** [os.path.splitext(p)]: the extension starts at the last dot of the
    last component, unless only dots precede it there. *)
Definition splitext (p : string) : string * string :=
  let '(head, tail) :=
    match rpartition "/" p with
    | Some (pre, post) => (pre +:+ "/", post)
    | None => (EmptyString, p)
    end in
  match rpartition "." tail with
  | Some (pre, post) =>
      if all_chars (Ascii.eqb ".") pre then (p, EmptyString)
      else (head +:+ pre, String "." post)
  | None => (p, EmptyString)
  end.

End path.

(** ** Images *)

Inductive Mode : Set :=
| RGBA
| RGB
| ModeL
| OtherMode (name : string).

Global Instance Mode_eq_dec : EqDecision Mode.
Proof. solve_decision. Defined.

(** One pixel, four 8-bit bands. *)
Record rgba : Set := Px { red : Z; green : Z; blue : Z; alpha : Z }.

Global Instance rgba_eq_dec : EqDecision rgba.
Proof. solve_decision. Defined.

(** A decoded image: its mode, its size and the stored bands of each
    pixel.  An [RGB] image uses the first three bands, an [L] image the
    first; for any other mode the stored bands are those of its
    conversion to RGBA, the only way the source reads such an image. *)
Record Image : Type := mkImage {
  im_mode : Mode;
  im_width : Z;
  im_height : Z;
  im_px : Z → Z → rgba
}.

(** A colour argument: a tuple of integers; a bare integer is written as
    the one-element tuple, which the library unwraps. *)
Definition color : Set := list Z.

Definition tuple4 (p : rgba) : color := [red p; green p; blue p; alpha p].

Definition clip8 (v : Z) : Z := Z.max 0 (Z.min 255 v).

(** The ink that a colour argument denotes in an image of mode [m]. *)
Definition ink_of (m : Mode) (c : color) : result rgba :=
  match m, c with
  | (RGBA | RGB), [r; g; b] => Ret (Px (clip8 r) (clip8 g) (clip8 b) 255)
  | (RGBA | RGB), [r; g; b; a] => Ret (Px (clip8 r) (clip8 g) (clip8 b) (clip8 a))
  | (RGBA | RGB), [v] =>
      Ret (Px (Z.land v 255) (Z.land (Z.shiftr v 8) 255)
              (Z.land (Z.shiftr v 16) 255) (Z.land (Z.shiftr v 24) 255))
  | ModeL, [v] => Ret (Px (clip8 v) 0 0 0)
  | _, _ => Raise TypeError
  end.

(** The pixel as RGBA, what [convert("RGBA")] yields. *)
Definition view (img : Image) (x y : Z) : rgba :=
  let p := im_px img x y in
  match im_mode img with
  | RGB => Px (red p) (green p) (blue p) 255
  | ModeL => Px (red p) (red p) (red p) 255
  | _ => p
  end.

Definition inside (img : Image) (x y : Z) : bool :=
  (0 <=? x) && (x <? im_width img) && (0 <=? y) && (y <? im_height img).

(** [Image.new(mode, (w, h), c)] *)
Definition Image_new (m : Mode) (w h : Z) (c : color) : result Image :=
  if (w <? 0) || (h <? 0) then Raise ValueError
  else ink ← ink_of m c;
       Ret {| im_mode := m; im_width := w; im_height := h; im_px := λ _ _, ink |}.

(** [img.convert("RGBA")] *)
Definition convert_RGBA (img : Image) : Image :=
  {| im_mode := RGBA; im_width := im_width img; im_height := im_height img;
     im_px := view img |}.

(** [img.getpixel((x, y))]: the bands of the mode, as a tuple; negative
    coordinates count from the far edge. *)
Definition getpixel (img : Image) (x y : Z) : result (list Z) :=
  let x' := if x <? 0 then im_width img + x else x in
  let y' := if y <? 0 then im_height img + y else y in
  if inside img x' y' then
    let p := im_px img x' y' in
    Ret match im_mode img with
        | RGB => [red p; green p; blue p]
        | ModeL => [red p]
        | _ => tuple4 p
        end
  else Raise IndexError.

(** [list(img.getdata())] of an RGBA image: the pixels row by row. *)
Definition getdata (img : Image) : list rgba :=
  y ← seqZ 0 (im_height img); (λ x, im_px img x y) <$> seqZ 0 (im_width img).

(** [draw.line([(x, y0), (x, y1)], fill=ink)] with [y0 <= y1]: every
    pixel of column [x] between the end points, cut to the image. *)
Definition draw_line_vertical (img : Image) (x y0 y1 : Z) (ink : rgba) : Image :=
  {| im_mode := im_mode img; im_width := im_width img; im_height := im_height img;
     im_px := λ x' y', if (x' =? x) && (y0 <=? y') && (y' <=? y1) then ink
                       else im_px img x' y' |}.

(** The operations of the imaging library that are not written out. *)
Class Imaging : Type := {
  (** a loaded font face at a size *)
  Font : Type;
  (** mixing one band under a mask value: mask, destination, source *)
  blend8 : Z → Z → Z → Z;
  (** [alpha_composite] of one pixel: destination, source *)
  composite_px : rgba → rgba → rgba;
  (** the pixels of [img.filter(GaussianBlur(radius))] *)
  gaussian_blur_px : Z → Image → Z → Z → rgba;
  (** the pixels of [img.resize((w, h), LANCZOS)] *)
  lanczos_px : Image → Z → Z → Z → Z → rgba;
  (** size and pixels of [img.rotate(angle, BICUBIC, expand=True)] *)
  rotate_bicubic : Q → Image → Z * Z * (Z → Z → rgba);
  (** the pixels after [draw.rounded_rectangle([(0, 0), (w, h)], radius, fill)] *)
  rounded_rectangle_px : Image → Z → Z → Z → rgba → Z → Z → rgba;
  (** the pixels after [draw.text(position, text, font, fill)] *)
  text_px : Image → Q * Q → string → Font → rgba → Z → Z → rgba;
  (** the pixels after [draw.rectangle([position, corner], fill)] *)
  rectangle_px : Image → Q * Q → Q * Q → rgba → Z → Z → rgba
}.

(** The documented end points: a mask of 255 copies the source, a mask
    of 0 keeps the destination; an opaque source pixel covers what is
    below it and a fully transparent one leaves it. *)
Class ImagingLaws (K : Imaging) : Prop := {
  blend8_opaque : ∀ d s, blend8 255 d s = s;
  blend8_clear : ∀ d s, blend8 0 d s = d;
  composite_px_opaque : ∀ d s, alpha s = 255 → composite_px d s = s;
  composite_px_clear : ∀ d s, alpha s = 0 → composite_px d s = d
}.

Section ImageOps.
Context {K : Imaging}.

Definition blend_px (a : Z) (d s : rgba) : rgba :=
  Px (blend8 a (red d) (red s)) (blend8 a (green d) (green s))
     (blend8 a (blue d) (blue s)) (blend8 a (alpha d) (alpha s)).

(** The band of a mask image that [paste] reads. *)
Definition mask_band (m : Image) : result (Z → Z → Z) :=
  match im_mode m with
  | RGBA => Ret (λ x y, alpha (im_px m x y))
  | ModeL => Ret (λ x y, red (im_px m x y))
  | _ => Raise ValueError
  end.

(** [dst.paste(src, (x0, y0), mask)] for an RGBA destination.  The box
    has the size of [src] and is cut to the destination; a mask must
    have the size of [src]. *)
Definition paste (dst src : Image) (box : Z * Z) (mask : option Image)
  : result Image :=
  let '(x0, y0) := box in
  band ← match mask with
         | None => Ret None
         | Some m =>
             if (im_width m =? im_width src) && (im_height m =? im_height src)
             then Some <$> mask_band m
             else Raise ValueError
         end;
  Ret {| im_mode := im_mode dst; im_width := im_width dst;
         im_height := im_height dst;
         im_px := λ x y,
           if inside src (x - x0) (y - y0) then
             match band with
             | None => view src (x - x0) (y - y0)
             | Some a => blend_px (a (x - x0) (y - y0)) (im_px dst x y)
                                  (view src (x - x0) (y - y0))
             end
           else im_px dst x y |}.

(** [Image.alpha_composite(im1, im2)] *)
Definition alpha_composite (im1 im2 : Image) : result Image :=
  if negb (bool_decide (im_mode im1 = RGBA) && bool_decide (im_mode im2 = RGBA))
  then Raise ValueError
  else if negb ((im_width im1 =? im_width im2) && (im_height im1 =? im_height im2))
  then Raise ValueError
  else Ret {| im_mode := RGBA; im_width := im_width im1; im_height := im_height im1;
              im_px := λ x y, composite_px (im_px im1 x y) (im_px im2 x y) |}.

(** [img.filter(ImageFilter.GaussianBlur(radius))] *)
Definition gaussian_blur (radius : Z) (img : Image) : Image :=
  {| im_mode := im_mode img; im_width := im_width img; im_height := im_height img;
     im_px := gaussian_blur_px radius img |}.

(** [img.resize((w, h), Image.LANCZOS)] *)
Definition resize (img : Image) (w h : Z) : result Image :=
  if (w <? 1) || (h <? 1) then Raise ValueError
  else Ret {| im_mode := im_mode img; im_width := w; im_height := h;
              im_px := lanczos_px img w h |}.

(** [img.rotate(angle, Image.BICUBIC, expand=True)] *)
Definition rotate (img : Image) (angle : Q) : Image :=
  let '(w, h, p) := rotate_bicubic angle img in
  {| im_mode := im_mode img; im_width := w; im_height := h; im_px := p |}.

Definition with_pixels (img : Image) (p : Z → Z → rgba) : Image :=
  {| im_mode := im_mode img; im_width := im_width img; im_height := im_height img;
     im_px := p |}.

End ImageOps.

(** ** Configuration

    Modelled from the spec: the module [config] is not among the sources;
    section 6 of the specification lists what the configuration
    collaborator supplies, and the fields below are the names under which
    [gen_poster.py] reads them. *)
Class Config : Type := {
  SERVER_NAME : string;
  CURRENT_DIR : string;
  POSTER_FOLDER : string;
  OUTPUT_FOLDER : string;
  ROWS : Z;
  COLS : Z;
  MARGIN : Z;
  CORNER_RADIUS : Z;
  ROTATION_ANGLE : Q;
  START_X : Z;
  START_Y : Z;
  COLUMN_SPACING : Z;
  SAVE_COLUMNS : bool;
  CELL_WIDTH : Z;
  CELL_HEIGHT : Z;
  TEMPLATE_MAPPING : list (gmap string string)
}.

(** ** Logging *)

Inductive Level : Set := INFO | DEBUG | ERROR.

(** The value of the variable [font_size] of the workflow: the base size,
    or [max(50 * (10 / m) ** 0.8, 30)] for a divisor [m]. *)
Inductive font_size_value : Set :=
| BaseSize
| Shrunk (m : Z).

(** One constructor per log statement of the source, with the values
    that its format string interpolates. *)
Inductive LogMsg : Set :=
| MsgGenerating (server name : string)
| MsgRule
| MsgNoImages (server name folder : string)
| MsgImageFailed (server name file : string) (e : exn)
| MsgColumnSaved (server name file : string)
| MsgRotatedSaved (server name file : string)
| MsgTitleStats (server name title : string) (word_count max_chars : Z)
| MsgFontSize (server name : string) (font_size : font_size_value)
| MsgBlockHeight (server name : string) (height line_count : Z)
| MsgSaved (server name file : string)
| MsgWorkflowFailed (server name : string) (e : exn)
| MsgRandomColorFailed (e : exn)
| MsgPrimaryColorFailed (e : exn).

(** ** The world and the monad of effects *)

(** What the program asks of its surroundings.  Each operation may change
    the world.  [Image_open] returns the decoded image: the library
    decodes lazily, at first pixel access, and every caller in the source
    has the opening and the first access inside one [try]. *)
Class OS (World : Type) `{Imaging} : Type := {
  os_listdir : string → World → result (list string) * World;
  os_path_isfile : string → World → bool * World;
  os_path_exists : string → World → bool * World;
  os_makedirs : string → World → result unit * World;
  Image_open : string → World → result Image * World;
  Image_save : Image → string → World → result unit * World;
  ImageFont_truetype : string → Z → World → result Font * World;
  (** the next draw of the pseudo-random generator *)
  random_draw : World → Z * World
}.

Record State (World : Type) : Type := mkState {
  world : World;
  log : list (Level * LogMsg)
}.
Arguments mkState {World} world log.
Arguments world {World} s.
Arguments log {World} s.

Definition M (World A : Type) : Type := State World → result A * State World.

Global Instance M_ret {World} : MRet (M World) := λ A a s, (Ret a, s).
Global Instance M_bind {World} : MBind (M World) := λ A B f m s,
  match m s with
  | (Ret a, s') => f a s'
  | (Raise e, s') => (Raise e, s')
  end.

Section Effects.
Context {World : Type}.

Definition raise {A} (e : exn) : M World A := λ s, (Raise e, s).

(** A pure computation that may raise. *)
Definition lift {A} (r : result A) : M World A := λ s, (r, s).

(** An operation of the world that may raise. *)
Definition call {A} (op : World → result A * World) : M World A := λ s,
  let '(r, w) := op (world s) in (r, mkState w (log s)).

(** An operation of the world that cannot raise. *)
Definition ask {A} (op : World → A * World) : M World A := λ s,
  let '(a, w) := op (world s) in (Ret a, mkState w (log s)).

(** [try: body  except Exception as e: handler(e)] *)
Definition try_except {A} (body : M World A) (handler : exn → M World A)
  : M World A := λ s,
  match body s with
  | (Ret a, s') => (Ret a, s')
  | (Raise e, s') => handler e s'
  end.

(** [logger.info], [logger.debug], [logger.error] *)
Definition logger (lvl : Level) (msg : LogMsg) : M World unit := λ s,
  (Ret (), mkState (world s) (log s ++ [(lvl, msg)])).

(** [for x in xs: acc = body(x, acc)] *)
Fixpoint for_each {A B} (xs : list A) (acc : B) (body : A → B → M World B)
  : M World B :=
  match xs with
  | [] => mret acc
  | x :: xs' => acc' ← body x acc; for_each xs' acc' body
  end.

(** [[x for x in xs if test(x)]] with a test that consults the world. *)
Fixpoint filter_M {A} (test : A → M World bool) (xs : list A)
  : M World (list A) :=
  match xs with
  | [] => mret []
  | x :: xs' =>
      b ← test x;
      rest ← filter_M test xs';
      mret (if b : bool then x :: rest else rest)
  end.

End Effects.

(** [random.randint(a, b)]: [ValueError] on an empty range, else a value
    of [a..b] fixed by the generator's next draw. *)
Definition randint {World} `{OS World} (a b : Z) : M World Z :=
  if b <? a then raise ValueError
  else n ← ask random_draw; mret (a + n `mod` (b - a + 1)).

(** Tuple unpacking: [a, b = t], [a, b, c = t], [a, b, c, d = t]. *)
Definition unpack2 {A} (t : list A) : result (A * A) :=
  match t with
  | [a; b] => Ret (a, b)
  | _ => Raise ValueError
  end.

Definition unpack3 {A} (t : list A) : result (A * A * A) :=
  match t with
  | [a; b; c] => Ret (a, b, c)
  | _ => Raise ValueError
  end.

Definition unpack4 {A} (t : list A) : result (A * A * A * A) :=
  match t with
  | [a; b; c; d] => Ret (a, b, c, d)
  | _ => Raise ValueError
  end.

(** ** The functions of [gen_poster.py] *)

Section Shadow.
Context {K : Imaging}.

(** Lines 26-35 of [add_shadow]: the transparent canvas with the shadow
    layer pasted at the offset, before it is blurred. *)
Definition shadow_canvas (img : Image) (offset : Z * Z) (shadow_color : color)
    (blur_radius : Z) : result Image :=
  let shadow_width := im_width img + offset.1 + blur_radius * 2 in
  let shadow_height := im_height img + offset.2 + blur_radius * 2 in
  shadow ← Image_new RGBA shadow_width shadow_height [0; 0; 0; 0];
  shadow_layer ← Image_new RGBA (im_width img) (im_height img) shadow_color;
  paste shadow shadow_layer (blur_radius + offset.1, blur_radius + offset.2) None.

Definition add_shadow (img : Image) (offset : Z * Z) (shadow_color : color)
    (blur_radius : Z) : result Image :=
  shadow ← shadow_canvas img offset shadow_color blur_radius;
  let shadow := gaussian_blur blur_radius shadow in
  result ← Image_new RGBA (im_width shadow) (im_height shadow) [0; 0; 0; 0];
  result ← paste result img (blur_radius, blur_radius)
             (if decide (im_mode img = RGBA) then Some img else None);
  alpha_composite shadow result.

(** [draw.rectangle] takes the ink first and then refuses, with
    [ValueError], a second corner left of or above the first. *)
Definition draw_color_block (image : Image) (position size : Q * Q)
    (color : color) : result Image :=
  let img_copy := image in
  ink ← ink_of (im_mode img_copy) color;
  let corner := ((position.1 + size.1)%Q, (position.2 + size.2)%Q) in
  if Qle_bool position.1 corner.1 && Qle_bool position.2 corner.2 then
    Ret (with_pixels img_copy (rectangle_px img_copy position corner ink))
  else Raise ValueError.

End Shadow.

Section Text.
Context {K : Imaging} {World : Type} {os : OS World} {config : Config}.

Definition draw_text_on_image (image : Image) (text : string) (position : Q * Q)
    (font_path : string) (font_size : Z) (fill_color : color)
  : M World Image :=
  let img_copy := image in
  let font_path := path.join CURRENT_DIR font_path in
  font ← call (ImageFont_truetype font_path font_size);
  ink ← lift (ink_of (im_mode img_copy) fill_color);
  mret (with_pixels img_copy (text_px img_copy position text font ink)).

Definition draw_multiline_text_on_image (image : Image) (text : string)
    (position : Q * Q) (font_path : string) (font_size line_spacing : Z)
    (fill_color : color) : M World (Image * Z) :=
  let img_copy := image in
  let font_path := path.join CURRENT_DIR font_path in
  font ← call (ImageFont_truetype font_path font_size);
  let lines := str_split_space text in
  if Z.of_nat (length lines) <=? 1 then
    ink ← lift (ink_of (im_mode img_copy) fill_color);
    mret (with_pixels img_copy (text_px img_copy position text font ink), 1)
  else
    let '(x, y) := position in
    img_copy ← for_each (enumerate lines) img_copy (λ '(i, line) img_copy,
      let current_y := (y + inject_Z (i * (font_size + line_spacing)))%Q in
      ink ← lift (ink_of (im_mode img_copy) fill_color);
      mret (with_pixels img_copy (text_px img_copy (x, current_y) line font ink)));
    mret (img_copy, Z.of_nat (length lines)).

Definition get_random_color (image_path : string) : M World color :=
  try_except
    (img ← call (Image_open image_path);
     let width := im_width img in
     let height := im_height img in
     (* int(width * 0.5) and int(width * 0.8): the double 0.8 lies just
        above 4/5, and a product within 2^-40 of an integer is that
        integer, so the truncations are those of the exact products *)
     random_x ← randint (py_int (inject_Z width * (1 # 2)))
                        (py_int (inject_Z width * (4 # 5)));
     random_y ← randint (py_int (inject_Z height * (1 # 2)))
                        (py_int (inject_Z height * (4 # 5)));
     if decide (im_mode img = RGBA) then
       t ← lift (getpixel img random_x random_y);
       '(r, g, b, a) ← lift (unpack4 t);
       mret [r; g; b; a]
     else if decide (im_mode img = RGB) then
       t ← lift (getpixel img random_x random_y);
       '(r, g, b) ← lift (unpack3 t);
       mret [r + 100; g + 50; b; 255]
     else
       let img := convert_RGBA img in
       t ← lift (getpixel img random_x random_y);
       '(r, g, b, a) ← lift (unpack4 t);
       mret [r; g; b; a])
    (λ e,
     logger ERROR (MsgRandomColorFailed e);;
     r ← randint 50 200;
     g ← randint 50 200;
     b ← randint 50 200;
     mret [r; g; b; 255]).

End Text.

(** *** The random colour tables of [create_gradient_background] *)

(** How one of the 26 colour types draws its colour. *)
Inductive bucket : Set :=
| Ranges (r g b : Z * Z)
| Gray (v : Z * Z)
| WarmGray (v : Z * Z)
| CoolGray (v : Z * Z).

(** The types of the left (dark) colour, [color_type] 0 to 25. *)
Definition dark_buckets : list bucket := [
  Ranges (80, 150) (20, 70) (20, 70);
  Ranges (80, 150) (50, 100) (20, 50);
  Ranges (80, 150) (70, 140) (20, 50);
  Ranges (20, 70) (80, 150) (40, 90);
  Ranges (20, 70) (50, 100) (80, 150);
  Ranges (60, 120) (20, 80) (80, 150);
  Ranges (60, 100) (10, 30) (10, 30);
  Ranges (70, 120) (10, 40) (30, 70);
  Ranges (70, 120) (30, 70) (10, 40);
  Ranges (70, 130) (40, 80) (0, 30);
  Ranges (70, 130) (60, 110) (0, 30);
  Ranges (50, 100) (60, 110) (0, 40);
  Ranges (0, 50) (60, 110) (0, 50);
  Ranges (20, 60) (50, 100) (30, 80);
  Ranges (0, 50) (60, 110) (60, 110);
  Ranges (0, 50) (50, 100) (70, 120);
  Ranges (0, 40) (0, 50) (70, 120);
  Ranges (20, 60) (0, 40) (70, 130);
  Ranges (40, 90) (0, 40) (70, 130);
  Ranges (70, 120) (0, 40) (70, 120);
  Gray (40, 80);
  WarmGray (40, 80);
  CoolGray (40, 80);
  Ranges (60, 100) (40, 80) (20, 50);
  Ranges (80, 120) (60, 100) (10, 40);
  Ranges (50, 90) (60, 100) (30, 70)
].

(** The types of the right (light) colour. *)
Definition light_buckets : list bucket := [
  Ranges (180, 255) (100, 180) (100, 180);
  Ranges (200, 255) (150, 220) (70, 150);
  Ranges (200, 255) (180, 255) (70, 150);
  Ranges (100, 180) (180, 255) (120, 200);
  Ranges (100, 180) (150, 220) (180, 255);
  Ranges (150, 220) (100, 170) (180, 255);
  Ranges (220, 255) (50, 100) (50, 100);
  Ranges (220, 255) (100, 160) (130, 190);
  Ranges (230, 255) (130, 200) (30, 90);
  Ranges (230, 255) (110, 170) (100, 160);
  Ranges (230, 255) (200, 255) (100, 160);
  Ranges (200, 255) (230, 255) (50, 130);
  Ranges (130, 190) (230, 255) (100, 160);
  Ranges (50, 110) (220, 255) (50, 130);
  Ranges (50, 110) (200, 255) (200, 255);
  Ranges (100, 160) (180, 230) (230, 255);
  Ranges (50, 130) (130, 190) (230, 255);
  Ranges (150, 210) (100, 160) (230, 255);
  Ranges (180, 230) (130, 190) (220, 255);
  Ranges (230, 255) (130, 190) (200, 255);
  Gray (200, 240);
  Ranges (220, 255) (180, 230) (80, 140);
  Ranges (220, 255) (210, 245) (170, 220);
  Ranges (180, 230) (140, 190) (100, 160);
  Ranges (150, 200) (220, 255) (180, 230);
  Ranges (220, 255) (220, 255) (220, 255)
].

(** [int(c1 + (c2 - c1) * x / width)], the channel of column [x].  The
    quotient is exact in [Q]; the double has the same integer part,
    because a value that is not an integer is at least [1 / width] away
    from one. *)
Definition gradient_channel (c1 c2 x width : Z) : Z :=
  py_int (inject_Z c1 + inject_Z ((c2 - c1) * x) / inject_Z width)%Q.

(** The chain [if color_type == 0: ... elif color_type == 1: ... else: ...]
    over a table of 26 types: types 0 to 24 are tested, the last entry
    is the [else]. *)
Definition bucket_of (buckets : list bucket) (color_type : Z) : bucket :=
  let tested := if (0 <=? color_type) && (color_type <? 25)
                then buckets !! Z.to_nat color_type else None in
  default (default (Gray (0, 0)) (last buckets)) tested.

(** The fill of the line that the loop draws in column [x], for two
    colours that start with the channels [c1] and [c2]. *)
Definition column_ink (width : Z) (c1 c2 : Z * Z * Z) (x : Z) : rgba :=
  let '(r1, g1, b1) := c1 in
  let '(r2, g2, b2) := c2 in
  Px (clip8 (gradient_channel r1 r2 x width))
     (clip8 (gradient_channel g1 g2 x width))
     (clip8 (gradient_channel b1 b2 x width)) 255.

Section Gradient.
Context {K : Imaging} {World : Type} {os : OS World}.

Definition draw_bucket (bk : bucket) : M World color :=
  match bk with
  | Ranges r g b =>
      r ← randint r.1 r.2;
      g ← randint g.1 g.2;
      b ← randint b.1 b.2;
      mret [r; g; b]
  | Gray v =>
      gray ← randint v.1 v.2;
      mret [gray; gray; gray]
  | WarmGray v =>
      gray ← randint v.1 v.2;
      up ← randint 10 30;
      down ← randint 5 15;
      mret [gray + up; gray; gray - down]
  | CoolGray v =>
      gray ← randint v.1 v.2;
      down ← randint 5 15;
      up ← randint 10 30;
      mret [gray - down; gray; gray + up]
  end.

Definition random_color_of (buckets : list bucket) : M World color :=
  color_type ← randint 0 25;
  draw_bucket (bucket_of buckets color_type).

(** Lines 533-539: the body of the loop over the columns. *)
Definition gradient_step (width height : Z) (color1 color2 : color)
    (x : Z) (gradient : Image) : M World Image :=
  '(r, g, b) ← lift (
    a0 ← py_index color1 0; b0 ← py_index color2 0;
    a1 ← py_index color1 1; b1 ← py_index color2 1;
    a2 ← py_index color1 2; b2 ← py_index color2 2;
    Ret (gradient_channel a0 b0 x width, gradient_channel a1 b1 x width,
         gradient_channel a2 b2 x width));
  ink ← lift (ink_of (im_mode gradient) [r; g; b; 255]);
  mret (draw_line_vertical gradient x 0 height ink).

Definition create_gradient_background (width height : Z)
    (color1 color2 : option color) : M World Image :=
  color1 ← match color1 with
           | None => random_color_of dark_buckets
           | Some c => mret c
           end;
  color2 ← match color2 with
           | None => random_color_of light_buckets
           | Some c => mret c
           end;
  gradient ← lift (Image_new RGBA width height color1);
  for_each (seqZ 0 width) gradient (gradient_step width height color1 color2).

End Gradient.

(** *** The colour sampler *)

(** A Python value as far as the return value of the sampler needs it:
    integers and tuples. *)
#[warnings="-register-all"]
Inductive pyval : Set :=
| PyInt (n : Z)
| PyTuple (items : list pyval).

Definition py_tuple_of_color (c : color) : pyval := PyTuple (PyInt <$> c).

(** [a, b = v] *)
Definition unpack_pair (v : pyval) : result (pyval * pyval) :=
  match v with
  | PyTuple items => unpack2 items
  | PyInt _ => Raise TypeError
  end.

Fixpoint map_result {A B} (f : A → result B) (l : list A) : result (list B) :=
  match l with
  | [] => Ret []
  | x :: l' => y ← f x; ys ← map_result f l'; Ret (y :: ys)
  end.

(** A value used where a colour tuple of integers is expected. *)
Definition as_color (v : pyval) : result color :=
  match v with
  | PyTuple items =>
      map_result (λ i, match i with PyInt n => Ret n | _ => Raise TypeError end) items
  | PyInt _ => Raise TypeError
  end.

(** [(r + g + b) / 3]; the comparisons with 30 and 220 come out the same
    on the double, since a sum that is not a multiple of 3 is a third
    away from them. *)
Definition brightness (r g b : Z) : Q := (inject_Z (r + g + b) / 3)%Q.

(** The loop of lines 580-596. *)
Fixpoint filter_pixels (pixels : list rgba) : list rgba :=
  match pixels with
  | [] => []
  | pixel :: rest =>
      let '(Px r g b a) := pixel in
      if a <? 200 then filter_pixels rest
      else if (negb (Qle_bool 30 (brightness r g b))
               || negb (Qle_bool (brightness r g b) 220))%bool
      then filter_pixels rest
      else Px r g b 255 :: filter_pixels rest
  end.

(** [collections.Counter]: the distinct elements in order of first
    occurrence, each with its number of occurrences. *)
Fixpoint counter_add (c : rgba) (cnt : list (rgba * Z)) : list (rgba * Z) :=
  match cnt with
  | [] => [(c, 1)]
  | (c', n) :: rest =>
      if decide (c' = c) then (c', n + 1) :: rest else (c', n) :: counter_add c rest
  end.

Definition Counter (l : list rgba) : list (rgba * Z) :=
  foldl (λ cnt c, counter_add c cnt) [] l.

(** [counter.most_common(n)]: by falling count, equal counts in order of
    first occurrence. *)
Definition most_common (n : nat) (cnt : list (rgba * Z)) : list (rgba * Z) :=
  take n (sort_by (λ e, - e.2) cnt).

Definition default_color : pyval := py_tuple_of_color [150; 100; 50; 255].

(** Lines 579-600: the pixels that are counted, after the brightness
    and alpha filter or, when that leaves none, after the alpha filter
    alone. *)
Definition population (pixels : list rgba) : list rgba :=
  let filtered_pixels := filter_pixels pixels in
  match filtered_pixels with
  | [] => (λ p, Px (red p) (green p) (blue p) 255)
            <$> filter (λ p, 100 < alpha p) pixels
  | _ => filtered_pixels
  end.

(** Lines 602-622: the value returned for a population. *)
Definition dominant_colors (filtered_pixels : list rgba) : result pyval :=
  match filtered_pixels with
  | [] => Ret default_color
  | _ =>
      let color_counter := Counter filtered_pixels in
      let common_colors := most_common 5 color_counter in
      match common_colors with
      | _ :: _ =>
          first ← py_index common_colors 0;
          second ← py_index common_colors 1;
          Ret (PyTuple [py_tuple_of_color (tuple4 first.1);
                        py_tuple_of_color (tuple4 second.1)])
      | [] =>
          let n := Z.of_nat (length filtered_pixels) in
          let r_avg := foldr Z.add 0 (red <$> filtered_pixels) / n in
          let g_avg := foldr Z.add 0 (green <$> filtered_pixels) / n in
          let b_avg := foldr Z.add 0 (blue <$> filtered_pixels) / n in
          Ret (py_tuple_of_color [r_avg; g_avg; b_avg; 255])
      end
  end.

(** The count that a counter holds for a colour, 0 when it has none. *)
Fixpoint held (d : rgba) (cnt : list (rgba * Z)) : Z :=
  match cnt with
  | [] => 0
  | e :: rest => if decide (e.1 = d) then e.2 + held d rest else held d rest
  end.

(** How often a colour occurs in a population. *)
Definition occurrences (c : rgba) (l : list rgba) : Z :=
  Z.of_nat (length (filter (λ p, p = c) l)).

Section Sampler.
Context {K : Imaging} {World : Type} {os : OS World}.

Definition get_poster_primary_color (image_path : string) : M World pyval :=
  try_except
    (img ← call (Image_open image_path);
     img ← lift (resize img 100 150);
     let img := if decide (im_mode img ≠ RGBA) then convert_RGBA img else img in
     let pixels := getdata img in
     lift (dominant_colors (population pixels)))
    (λ e,
     logger ERROR (MsgPrimaryColorFailed e);;
     mret default_color).

End Sampler.

(** *** The workflow *)

Definition supported_formats : list string :=
  [".jpg"; ".jpeg"; ".png"; ".bmp"; ".gif"; ".webp"].

Definition custom_order : string := "315426987".

(** [{num: index for index, num in enumerate(custom_order)}] *)
Definition order_map : gmap string Z :=
  foldl (λ m '(index, num), <[String num EmptyString := index]> m) ∅
        (enumerate (list_ascii_of_string custom_order)).

(** [d[k]] *)
Definition dict_get (d : gmap string Z) (k : string) : result Z :=
  match d !! k with
  | Some v => Ret v
  | None => Raise KeyError
  end.

(** The filter of the list comprehension of lines 680-687, after the
    [isfile] test. *)
Definition is_poster_name (f : string) : bool :=
  existsb (str_endswith (str_lower f)) supported_formats
  && bool_decide (is_Some (order_map !! (path.splitext f).1)).

(** The sort key of line 688. *)
Definition poster_key (x : string) : result Z :=
  dict_get order_map (path.splitext (path.basename x)).1.

(** [sorted(l, key=key)] with a key that may raise: the keys are taken
    first, one per element. *)
Definition sorted_by_key {A} (key : A → result Z) (l : list A) : result (list A) :=
  keyed ← map_result (λ x, k ← key x; Ret (k, x)) l;
  Ret (snd <$> sort_by fst keyed).

(** Line 707: [[poster_files[i : i + rows] for i in range(0, len(poster_files), rows)]] *)
Definition group_posters (poster_files : list string) (rows : Z)
  : result (list (list string)) :=
  starts ← py_range 0 (Z.of_nat (length poster_files)) rows;
  Ret ((λ i, py_slice poster_files i (i + rows)) <$> (starts : list Z)).

(** The value of [font_size] as a real number. *)
Definition font_size_R (f : font_size_value) : R :=
  match f with
  | BaseSize => 50
  | Shrunk m => Rmax (50 * Rpower (10 / IZR m) (8 / 10)) 30
  end.

(** [int(x)] on a real. *)
Definition R_int (x : R) : Z :=
  if Rle_dec 0 x then Int_part x else (- Int_part (- x)).

(** The largest [k] of [lo+1 .. hi] with [P k], or [lo]. *)
Definition largest_with (P : Z → bool) (lo hi : Z) : Z :=
  foldl (λ best k, if P k then k else best) lo (seqZ (lo + 1) (hi - lo)).

(** [int(font_size)], computed on integers: [k <= 50 * (10/m)^(4/5)]
    says [k^5 * m^4 <= 50^5 * 10^4]. *)
Definition int_font_size (f : font_size_value) : Z :=
  match f with
  | BaseSize => 50
  | Shrunk m => largest_with (λ k, k ^ 5 * m ^ 4 <=? 50 ^ 5 * 10 ^ 4) 30 316
  end.

(** Lines 903-916: the font size chosen for a secondary title. *)
Definition choose_font_size (library_eng_name : string) : result font_size_value :=
  let base_font_size := BaseSize in
  let word_count := Z.of_nat (length (str_split library_eng_name)) in
  max_chars_per_line ← py_max (str_len <$> str_split library_eng_name);
  if (10 <? max_chars_per_line) || (3 <? word_count) then
    Ret (Shrunk (Z.max max_chars_per_line (word_count * 3)))
  else Ret base_font_size.

(** [math.sqrt(w ** 2 + h ** 2) * 1.5] as a real number. *)
Definition rotation_diagonal_R (w h : Z) : R :=
  (sqrt (IZR (w ^ 2 + h ^ 2)) * (3 / 2))%R.

(** Lines 810-816: [int(math.sqrt(w ** 2 + h ** 2) * 1.5)], computed on
    integers.  The double has the same integer part: when the exact
    value is not an integer it is more than [1 / (8 * value)] away from
    one. *)
Definition rotation_canvas_size (w h : Z) : Z :=
  Z.sqrt (9 * (w ^ 2 + h ^ 2)) / 2.

(** The sizes that every column of one run shares (lines 722-726 and
    810-823): the height of the stacked covers, the room added for the
    shadows, the side of the square canvas in which the column is
    rotated, and where the column canvas is pasted in it. *)
Section Geometry.
Context {config : Config}.

Definition column_height : Z := ROWS * CELL_HEIGHT + (ROWS - 1) * MARGIN.
Definition shadow_extra_width : Z := 20 + 20 * 2.
Definition shadow_extra_height : Z := 20 + 20 * 2.

(** [rotation_canvas_size] of line 810 *)
Definition staging_size : Z :=
  rotation_canvas_size (CELL_WIDTH + shadow_extra_width)
                       (column_height + shadow_extra_height).

Definition paste_x : Z := (staging_size - CELL_WIDTH) / 2.
Definition paste_y : Z := (staging_size - column_height) / 2.

End Geometry.

Section Workflow.
Context {K : Imaging} {World : Type} {os : OS World} {config : Config}.

(** Lines 679-689. *)
Definition list_poster_files (poster_folder : string) : M World (list string) :=
  entries ← call (os_listdir poster_folder);
  names ← filter_M (λ f,
             is_file ← ask (os_path_isfile (path.join poster_folder f));
             mret (is_file && is_poster_name f)) entries;
  lift (sorted_by_key poster_key (path.join poster_folder <$> names)).

(** [for i, x in enumerate(xs): if stop(i): break; acc = body(i, x, acc)] *)
Fixpoint for_each_until {A B} (stop : Z → bool) (xs : list (Z * A)) (acc : B)
    (body : Z → A → B → M World B) : M World B :=
  match xs with
  | [] => mret acc
  | (i, x) :: xs' =>
      if stop i then mret acc
      else acc' ← body i x acc; for_each_until stop xs' acc' body
  end.

(** Lines 739-790: one cover into the column canvas. *)
Definition place_poster (column_image : Image) (row_index : Z)
    (poster_path : string) : M World Image :=
  let cell_width := CELL_WIDTH in
  let cell_height := CELL_HEIGHT in
  poster ← call (Image_open poster_path);
  resized_poster ← lift (resize poster cell_width cell_height);
  resized_poster ←
    (if 0 <? CORNER_RADIUS then
       mask ← lift (Image_new ModeL cell_width cell_height [0]);
       ink ← lift (ink_of ModeL [255]);
       let mask := with_pixels mask
                     (rounded_rectangle_px mask cell_width cell_height
                        CORNER_RADIUS ink) in
       poster_with_corners ←
         lift (Image_new RGBA (im_width resized_poster)
                 (im_height resized_poster) [0; 0; 0; 0]);
       lift (paste poster_with_corners resized_poster (0, 0) (Some mask))
     else mret resized_poster);
  resized_poster_with_shadow ←
    lift (add_shadow resized_poster (20, 20) [0; 0; 0; 255] 20);
  let y_position := row_index * (cell_height + MARGIN) in
  lift (paste column_image resized_poster_with_shadow (0, y_position)
          (Some resized_poster_with_shadow)).

(** Lines 718-857: one column onto the result. *)
Definition place_column (name columns_dir : string) (col_index : Z)
    (column_posters : list string) (result : Image) : M World Image :=
  let cell_width := CELL_WIDTH in
  let column_x := START_X + col_index * COLUMN_SPACING in
  column_image ← lift (Image_new RGBA (cell_width + shadow_extra_width)
                         (column_height + shadow_extra_height) [0; 0; 0; 0]);
  column_image ←
    for_each (enumerate column_posters) column_image
      (λ '(row_index, poster_path) column_image,
         try_except (place_poster column_image row_index poster_path)
           (λ e,
            logger ERROR (MsgImageFailed SERVER_NAME name
                            (path.basename poster_path) e);;
            mret column_image));
  (if SAVE_COLUMNS then
     let column_orig_path :=
       path.join columns_dir
         (name +:+ "_column_" +:+ pretty (col_index + 1) +:+ "_original.png") in
     call (Image_save column_image column_orig_path);;
     logger DEBUG (MsgColumnSaved SERVER_NAME name column_orig_path)
   else mret ());;
  rotation_canvas ← lift (Image_new RGBA staging_size staging_size [0; 0; 0; 0]);
  rotation_canvas ← lift (paste rotation_canvas column_image (paste_x, paste_y)
                            (Some column_image));
  let rotated_column := rotate rotation_canvas ROTATION_ANGLE in
  (if SAVE_COLUMNS then
     let column_rotated_path :=
       path.join columns_dir
         ("column_" +:+ pretty (col_index + 1) +:+ "_rotated.png") in
     call (Image_save rotated_column column_rotated_path);;
     logger DEBUG (MsgRotatedSaved SERVER_NAME name column_rotated_path)
   else mret ());;
  let column_center_y := START_Y + column_height / 2 in
  let column_center_x := column_x in
  let '(column_center_x, column_center_y) :=
    if col_index =? 1 then (column_center_x + (cell_width - 50), column_center_y)
    else if col_index =? 2 then
      (column_center_x + (cell_width * 2 - 40), column_center_y + -155)
    else (column_center_x, column_center_y) in
  let final_x := column_center_x - im_width rotated_column / 2 + cell_width / 2 in
  let final_y := column_center_y - im_height rotated_column / 2 in
  lift (paste result rotated_column (final_x, final_y) (Some rotated_column)).

(** Lines 876-888: the localized titles of a library. *)
Definition library_titles (name : string) : string * string :=
  let library_ch_name := name in
  let library_eng_name := EmptyString in
  let matched_template :=
    snd <$> list_find (λ template, template !! "library_name" = Some name)
                      TEMPLATE_MAPPING in
  match matched_template with
  | Some template =>
      if decide (template = ∅) then (library_ch_name, library_eng_name)
      else (default library_ch_name (template !! "library_ch_name"),
            default library_eng_name (template !! "library_eng_name"))
  | None => (library_ch_name, library_eng_name)
  end.

(** Lines 637-955, the body of the [try]. *)
Definition workflow_body (name : string) : M World bool :=
  logger INFO (MsgGenerating SERVER_NAME name);;
  logger INFO MsgRule;;
  let poster_folder := path.join POSTER_FOLDER name in
  let first_image_path := path.join poster_folder "2.jpg" in
  let output_path := path.join OUTPUT_FOLDER (name +:+ ".png") in
  let rows := ROWS in
  let cols := COLS in
  let template_width := 1920 in
  let template_height := 1080 in
  sampled ← get_poster_primary_color first_image_path;
  '(color1, color2) ← lift (unpack_pair sampled);
  color1 ← lift (as_color color1);
  color2 ← lift (as_color color2);
  gradient_bg ← create_gradient_background template_width template_height
                  (Some color1) (Some color2);
  let output_dir := path.dirname output_path in
  there ← ask (os_path_exists output_dir);
  (if negb there then call (os_makedirs output_dir) else mret ());;
  let columns_dir := path.join output_dir "columns" in
  (if SAVE_COLUMNS then
     there ← ask (os_path_exists columns_dir);
     if negb there then call (os_makedirs columns_dir) else mret ()
   else mret ());;
  poster_files ← list_poster_files poster_folder;
  match poster_files with
  | [] =>
      logger ERROR (MsgNoImages SERVER_NAME name poster_folder);;
      mret false
  | _ =>
      let max_posters := rows * cols in
      let poster_files := py_slice poster_files 0 max_posters in
      grouped_posters ← lift (group_posters poster_files rows);
      let result := gradient_bg in
      result ← for_each_until (λ col_index, cols <=? col_index)
                 (enumerate grouped_posters) result
                 (place_column name columns_dir);
      random_color ←
        match poster_files with
        | first_image_path :: _ => get_random_color first_image_path
        | [] =>
            r ← randint 50 200;
            g ← randint 50 200;
            b ← randint 50 200;
            mret [r; g; b; 255]
        end;
      let '(library_ch_name, library_eng_name) := library_titles name in
      let fangzheng_font_path := path.join "font" "ch.ttf" in
      result ← draw_text_on_image result library_ch_name
                 (7332 # 100, 42734 # 100)%Q fangzheng_font_path 163
                 [255; 255; 255; 255];
      result ←
        (if decide (library_eng_name ≠ EmptyString) then
           let line_spacing := 5 in
           let word_count := Z.of_nat (length (str_split library_eng_name)) in
           font_size ← lift (choose_font_size library_eng_name);
           max_chars_per_line ← lift (py_max (str_len <$> str_split library_eng_name));
           logger DEBUG (MsgTitleStats SERVER_NAME name library_eng_name
                           word_count max_chars_per_line);;
           logger DEBUG (MsgFontSize SERVER_NAME name font_size);;
           let melete_font_path := path.join "font" "en.otf" in
           '(result, line_count) ←
             draw_multiline_text_on_image result library_eng_name
               (12468 # 100, 62455 # 100)%Q melete_font_path
               (int_font_size font_size) line_spacing [255; 255; 255; 255];
           let color_block_position := (8438 # 100, 62006 # 100)%Q in
           let color_block_height :=
             55 + (line_count - 1) * (int_font_size font_size + line_spacing) in
           let color_block_size := (2151 # 100, inject_Z color_block_height)%Q in
           logger DEBUG (MsgBlockHeight SERVER_NAME name color_block_height
                           line_count);;
           lift (draw_color_block result color_block_position color_block_size
                   random_color)
         else mret result);
      call (Image_save result output_path);;
      logger INFO (MsgSaved SERVER_NAME name output_path);;
      mret true
  end.

Definition gen_poster_workflow (name : string) : M World bool :=
  try_except (workflow_body name)
    (λ e,
     logger ERROR (MsgWorkflowFailed SERVER_NAME name e);;
     mret false).

(** Two stretches of the body on their own, for what is said about the
    state between them: lines 637-670, up to the listing of the covers,
    and lines 859-955, from the accent colour to the saved poster.  The
    body is the first, then the selection and the columns, then the
    second. *)
Definition workflow_prepare (name : string) : M World Image :=
  logger INFO (MsgGenerating SERVER_NAME name);;
  logger INFO MsgRule;;
  let poster_folder := path.join POSTER_FOLDER name in
  let first_image_path := path.join poster_folder "2.jpg" in
  let output_path := path.join OUTPUT_FOLDER (name +:+ ".png") in
  let template_width := 1920 in
  let template_height := 1080 in
  sampled ← get_poster_primary_color first_image_path;
  '(color1, color2) ← lift (unpack_pair sampled);
  color1 ← lift (as_color color1);
  color2 ← lift (as_color color2);
  gradient_bg ← create_gradient_background template_width template_height
                  (Some color1) (Some color2);
  let output_dir := path.dirname output_path in
  there ← ask (os_path_exists output_dir);
  (if negb there then call (os_makedirs output_dir) else mret ());;
  let columns_dir := path.join output_dir "columns" in
  (if SAVE_COLUMNS then
     there ← ask (os_path_exists columns_dir);
     if negb there then call (os_makedirs columns_dir) else mret ()
   else mret ());;
  mret gradient_bg.

Definition workflow_finish (name : string) (poster_files : list string)
    (result : Image) : M World bool :=
  let output_path := path.join OUTPUT_FOLDER (name +:+ ".png") in
  random_color ←
    match poster_files with
    | first_image_path :: _ => get_random_color first_image_path
    | [] =>
        r ← randint 50 200;
        g ← randint 50 200;
        b ← randint 50 200;
        mret [r; g; b; 255]
    end;
  let '(library_ch_name, library_eng_name) := library_titles name in
  let fangzheng_font_path := path.join "font" "ch.ttf" in
  result ← draw_text_on_image result library_ch_name
             (7332 # 100, 42734 # 100)%Q fangzheng_font_path 163
             [255; 255; 255; 255];
  result ←
    (if decide (library_eng_name ≠ EmptyString) then
       let line_spacing := 5 in
       let word_count := Z.of_nat (length (str_split library_eng_name)) in
       font_size ← lift (choose_font_size library_eng_name);
       max_chars_per_line ← lift (py_max (str_len <$> str_split library_eng_name));
       logger DEBUG (MsgTitleStats SERVER_NAME name library_eng_name
                       word_count max_chars_per_line);;
       logger DEBUG (MsgFontSize SERVER_NAME name font_size);;
       let melete_font_path := path.join "font" "en.otf" in
       '(result, line_count) ←
         draw_multiline_text_on_image result library_eng_name
           (12468 # 100, 62455 # 100)%Q melete_font_path
           (int_font_size font_size) line_spacing [255; 255; 255; 255];
       let color_block_position := (8438 # 100, 62006 # 100)%Q in
       let color_block_height :=
         55 + (line_count - 1) * (int_font_size font_size + line_spacing) in
       let color_block_size := (2151 # 100, inject_Z color_block_height)%Q in
       logger DEBUG (MsgBlockHeight SERVER_NAME name color_block_height
                       line_count);;
       lift (draw_color_block result color_block_position color_block_size
               random_color)
     else mret result);
  call (Image_save result output_path);;
  logger INFO (MsgSaved SERVER_NAME name output_path);;
  mret true.

(** The directory of the columns, line 668. *)
Definition columns_dir_of (name : string) : string :=
  path.join (path.dirname (path.join OUTPUT_FOLDER (name +:+ ".png"))) "columns".

End Workflow.

(** ** A reference kernel and a reference world

    One implementation of each interface, used to run the functions on
    concrete inputs.  The kernel rounds the mask blend and the
    compositing to the nearest integer, takes the nearest pixel when it
    resizes, and leaves blurring, rotation and text to the identity. *)

Module reference.

Definition div255 (a : Z) : Z := (2 * a + 255) / 510.

Definition mix (m d s : Z) : Z :=
  if m =? 255 then s else if m =? 0 then d
  else div255 (d * (255 - m) + s * m).

Definition over (d s : rgba) : rgba :=
  if alpha s =? 255 then s else if alpha s =? 0 then d
  else
    let under := alpha d * (255 - alpha s) in
    let total := alpha s * 255 + under in
    let band (cd cs : Z) := (2 * (cs * alpha s * 255 + cd * under) + total) / (2 * total) in
    Px (band (red d) (red s)) (band (green d) (green s))
       (band (blue d) (blue s)) (div255 total).

Definition nearest (img : Image) (w h x y : Z) : rgba :=
  view img (x * im_width img / w) (y * im_height img / h).

Definition fill_rectangle (img : Image) (p q : Q * Q) (ink : rgba) (x y : Z) : rgba :=
  if (py_int p.1 <=? x) && (x <=? py_int q.1) && (py_int p.2 <=? y) && (y <=? py_int q.2)
  then ink else im_px img x y.

Definition kernel : Imaging := {|
  Font := unit;
  blend8 := mix;
  composite_px := over;
  gaussian_blur_px := λ _ img, im_px img;
  lanczos_px := nearest;
  rotate_bicubic := λ _ img, (im_width img, im_height img, im_px img);
  rounded_rectangle_px := λ img w h _ ink x y,
    if (0 <=? x) && (x <=? w) && (0 <=? y) && (y <=? h) then ink else im_px img x y;
  text_px := λ img _ _ _ _, im_px img;
  rectangle_px := fill_rectangle
|}.

(** A world: directories with their entries, image files, the state of
    a counting generator, and the paths written so far. *)
Record World : Type := mkWorld {
  dirs : list (string * list string);
  images : list (string * Image);
  seed : Z;
  written : list string
}.

Definition lookup_path {A} (p : string) (table : list (string * A)) : option A :=
  match list_find (λ e, e.1 = p) table with
  | Some (_, (_, a)) => Some a
  | None => None
  end.

Definition system : @OS World kernel := {|
  os_listdir := λ p w,
    (match lookup_path p (dirs w) with
     | Some l => Ret l
     | None => Raise OSError
     end, w);
  os_path_isfile := λ p w, (bool_decide (is_Some (lookup_path p (images w))), w);
  os_path_exists := λ p w,
    (bool_decide (is_Some (lookup_path p (dirs w)))
     || bool_decide (is_Some (lookup_path p (images w))), w);
  os_makedirs := λ p w,
    (Ret (), mkWorld ((p, []) :: dirs w) (images w) (seed w) (written w));
  Image_open := λ p w,
    (match lookup_path p (images w) with
     | Some img => Ret img
     | None => Raise OSError
     end, w);
  Image_save := λ img p w,
    (Ret (), mkWorld (dirs w) ((p, img) :: images w) (seed w) (p :: written w));
  ImageFont_truetype := λ _ _ w, (Ret (tt : @Font kernel), w);
  random_draw := λ w,
    (seed w, mkWorld (dirs w) (images w) (seed w * 75 + 74) (written w))
|}.

Definition settings : Config := {|
  SERVER_NAME := "jellyfin";
  CURRENT_DIR := "/app";
  POSTER_FOLDER := "/app/poster";
  OUTPUT_FOLDER := "/app/output";
  ROWS := 3;
  COLS := 3;
  MARGIN := 22;
  CORNER_RADIUS := 46;
  ROTATION_ANGLE := (-157 # 10)%Q;
  START_X := 835;
  START_Y := -362;
  COLUMN_SPACING := 100;
  SAVE_COLUMNS := false;
  CELL_WIDTH := 410;
  CELL_HEIGHT := 610;
  TEMPLATE_MAPPING := [
    {[ "library_name" := "Movies"; "library_ch_name" := "Films";
       "library_eng_name" := "MOVIE" ]}
  ]
|}.

(** A [w] by [h] image of one colour. *)
Definition solid (m : Mode) (w h : Z) (p : rgba) : Image :=
  {| im_mode := m; im_width := w; im_height := h; im_px := λ _ _, p |}.

(** A two by two RGBA image: an opaque red and a half transparent
    green pixel above a fully transparent and an opaque blue one. *)
Definition quad : Image :=
  {| im_mode := RGBA; im_width := 2; im_height := 2;
     im_px := λ x y,
       if (x =? 0) && (y =? 0) then Px 200 10 10 255
       else if (x =? 1) && (y =? 0) then Px 10 200 10 128
       else if (x =? 0) && (y =? 1) then Px 9 9 9 0
       else Px 10 10 200 255 |}.

(** An image whose left two thirds are one teal and the rest a ramp. *)
Definition two_tone : Image :=
  {| im_mode := RGB; im_width := 3; im_height := 1;
     im_px := λ x _, if x <? 2 then Px 40 120 130 0 else Px 90 60 30 0 |}.

(** The library "Movies" has no cover named by a priority digit, the
    library "Shows" has five, the only cover of "Plain" is of one
    colour, and the directory of "Hidden" does not list the cover that
    can be opened in it. *)
Definition disk : World := {|
  dirs := [("/app/poster/Movies", ["cover.jpg"; "10.jpg"; "3.txt"; "notes"]);
           ("/app/poster/Shows", ["2.jpg"; "9.jpg"; "1.JPG"; "3.jpeg"; "7.webp"; "0.jpg"]);
           ("/app/poster/Plain", ["2.jpg"]);
           ("/app/poster/Hidden", ["readme.txt"]);
           ("/app/output", [])];
  images := [("/app/poster/Movies/cover.jpg", solid RGB 4 6 (Px 90 60 30 0));
             ("/app/poster/Shows/2.jpg", two_tone);
             ("/app/poster/Shows/9.jpg", solid RGB 4 6 (Px 200 180 160 0));
             ("/app/poster/Shows/1.JPG", two_tone);
             ("/app/poster/Shows/3.jpeg", solid RGB 4 6 (Px 10 60 90 0));
             ("/app/poster/Shows/7.webp", quad);
             ("/app/poster/Plain/2.jpg", solid RGB 4 6 (Px 40 120 130 0));
             ("/app/poster/Hidden/2.jpg", two_tone)];
  seed := 7;
  written := []
|}.

Definition start (w : World) : State World := mkState w [].

End reference.

(** ** Wordings of the specification *)

(** "A silhouette of the input image, following the input's own shape":
    where the image is fully transparent, the canvas that carries the
    shadow at the offset is transparent too. *)
Definition silhouette_follows_alpha (img canvas : Image) (offset : Z * Z)
    (blur_radius : Z) : Prop :=
  ∀ x y, inside img x y = true → alpha (view img x y) = 0 →
         alpha (im_px canvas (blur_radius + offset.1 + x)
                             (blur_radius + offset.2 + y)) = 0.

(** "Centered": a box of the given extent at the given offset leaves
    the same room on both sides of a canvas, up to the odd pixel. *)
Definition centered (side offset extent : Z) : Prop :=
  0 ≤ (side - extent) - 2 * offset ≤ 1.

(** "A valid 8-bit RGBA tuple". *)
Definition valid_rgba8 (c : color) : Prop :=
  length c = 4%nat ∧ Forall (λ v, 0 ≤ v ≤ 255) c.

(** The sort key of a path as a total function: the position of its
    stem in the priority string, 0 for a stem that has none. *)
Definition priority (x : string) : Z :=
  default 0 (order_map !! (path.splitext (path.basename x)).1).

(** "Its filename stem is a digit of the priority string". *)
Definition priority_digit (f : string) : Prop :=
  ∃ c, c ∈ list_ascii_of_string custom_order
       ∧ (path.splitext f).1 = String c EmptyString.

(** ** Invariants of the world *)

(** The paths that the workflow of one library writes: the output
    directory and the directory of the columns, made when they are
    missing, the poster, and the two images of each column. *)
Definition workflow_writes {config : Config} (name p : string) : Prop :=
  let output_path := path.join OUTPUT_FOLDER (name +:+ ".png") in
  let output_dir := path.dirname output_path in
  let columns_dir := path.join output_dir "columns" in
  p = output_dir ∨ p = columns_dir ∨ p = output_path
  ∨ ∃ col_index : Z,
      p = path.join columns_dir
            (name +:+ "_column_" +:+ pretty (col_index + 1) +:+ "_original.png")
      ∨ p = path.join columns_dir
              ("column_" +:+ pretty (col_index + 1) +:+ "_rotated.png").

(** A property of the world that the system keeps: no query, no opening
    of an image or a font and no random draw breaks it, and no directory
    made or image saved at a path of [writes].  What is written
    elsewhere may break it. *)
Record stable {K : Imaging} {World : Type} {os : OS World}
    (writes : string → Prop) (Inv : World → Prop) : Prop := {
  stable_listdir : ∀ p w, Inv w → Inv (os_listdir p w).2;
  stable_isfile : ∀ p w, Inv w → Inv (os_path_isfile p w).2;
  stable_exists : ∀ p w, Inv w → Inv (os_path_exists p w).2;
  stable_makedirs : ∀ p w, writes p → Inv w → Inv (os_makedirs p w).2;
  stable_open : ∀ p w, Inv w → Inv (Image_open p w).2;
  stable_save : ∀ img p w, writes p → Inv w → Inv (Image_save img p w).2;
  stable_truetype : ∀ p n w, Inv w → Inv (ImageFont_truetype p n w).2;
  stable_random : ∀ w, Inv w → Inv (random_draw w).2
}.

(** A computation keeps a property of the world. *)
Definition keeps {World A : Type} (Inv : World → Prop) (m : M World A) : Prop :=
  ∀ s, Inv (world s) → Inv (world (m s).2).

(** The outcomes of the body of the workflow that make the workflow
    answer [False] with an error as its last log record: an exception,
    or the answer [False] after an error record. *)
Definition ends_in_failure {World : Type} (out : result bool * State World) : Prop :=
  match out.1 with
  | Raise _ => True
  | Ret b => b = false ∧ ∃ earlier msg, log out.2 = earlier ++ [(ERROR, msg)]
  end.

(** "A token": a run of characters, not empty, without white space. *)
Definition is_word (t : string) : Prop :=
  t ≠ EmptyString ∧ all_chars (λ c, negb (is_space c)) t = true.

(** ** Statements about computations *)

(** A computation that writes no log record. *)
Definition quiet {World A : Type} (m : M World A) : Prop :=
  ∀ s, log (m s).2 = log s.

(** Whatever a computation returns satisfies [Q]. *)
Definition yields {World A : Type} (m : M World A) (Q : A → Prop) : Prop :=
  ∀ s a s', m s = (Ret a, s') → Q a.

(** From every state with the invariant the computation returns, in a
    state with the invariant, a value that satisfies [Q] there. *)
Definition succeeds {World A : Type} (Inv : World → Prop) (m : M World A)
    (Q : A → State World → Prop) : Prop :=
  ∀ s, Inv (world s) → ∃ a s', m s = (Ret a, s') ∧ Inv (world s') ∧ Q a s'.

(** ** Wordings for the gradient *)

(** Every draw of a colour type stays between [lo] and [hi]. *)
Definition bucket_within (lo hi : Z) (bk : bucket) : Prop :=
  match bk with
  | Ranges r g b =>
      (lo ≤ r.1 ∧ r.1 ≤ r.2 ∧ r.2 ≤ hi) ∧ (lo ≤ g.1 ∧ g.1 ≤ g.2 ∧ g.2 ≤ hi)
      ∧ (lo ≤ b.1 ∧ b.1 ≤ b.2 ∧ b.2 ≤ hi)
  | Gray v => lo ≤ v.1 ∧ v.1 ≤ v.2 ∧ v.2 ≤ hi
  | WarmGray v | CoolGray v => lo ≤ v.1 - 15 ∧ v.1 ≤ v.2 ∧ v.2 + 30 ≤ hi
  end.

(** A channel that runs from [c1] toward [c2]: [v] is its value in a
    column and [v'] its value in a column further right.  Rising, it
    stays below [c2]. *)
Definition ramps (c1 c2 v v' : Z) : Prop :=
  (c1 ≤ c2 → c1 ≤ v ∧ v ≤ v' ∧ v' ≤ c2 ∧ (c1 < c2 → v' < c2))
  ∧ (c2 ≤ c1 → c2 ≤ v' ∧ v' ≤ v ∧ v ≤ c1).

(** ** Wordings for the sampler *)

(** A pixel as it is counted: its colour, fully opaque. *)
Definition opaque (p : rgba) : rgba := Px (red p) (green p) (blue p) 255.

(** ** Wordings for the titles *)

(** How many blanks (U+0020) a text holds. *)
Definition blanks (text : string) : Z :=
  Z.of_nat (length (filter (λ c, c = " "%char) (list_ascii_of_string text))).

(** ** Wordings for the columns *)

(** A log record about one cover that could not be placed. *)
Definition cover_error (server name : string) (r : Level * LogMsg) : Prop :=
  ∃ file e, r = (ERROR, MsgImageFailed server name file e).

(** Two images of one mode and one size. *)
Definition same_shape (a b : Image) : Prop :=
  im_mode a = im_mode b ∧ im_width a = im_width b ∧ im_height a = im_height b.

(** ** More worlds and settings

    On the reference disk: the directory of "Shows" lists what it listed
    at the start and its "2.jpg" is the image that it was.  And the
    reference settings with no rows. *)

Definition shows_in_place (w : reference.World) : Prop :=
  reference.lookup_path "/app/poster/Shows" (reference.dirs w)
  = reference.lookup_path "/app/poster/Shows" (reference.dirs reference.disk)
  ∧ reference.lookup_path "/app/poster/Shows/2.jpg" (reference.images w)
    = Some reference.two_tone.

Definition settings_without_rows : Config := {|
  SERVER_NAME := "jellyfin";
  CURRENT_DIR := "/app";
  POSTER_FOLDER := "/app/poster";
  OUTPUT_FOLDER := "/app/output";
  ROWS := 0;
  COLS := 3;
  MARGIN := 22;
  CORNER_RADIUS := 46;
  ROTATION_ANGLE := (-157 # 10)%Q;
  START_X := 835;
  START_Y := -362;
  COLUMN_SPACING := 100;
  SAVE_COLUMNS := false;
  CELL_WIDTH := 410;
  CELL_HEIGHT := 610;
  TEMPLATE_MAPPING := []
|}.

(** The reference system without fonts: no font file can be loaded. *)
Definition fontless : @OS reference.World reference.kernel := {|
  os_listdir := os_listdir (OS := reference.system);
  os_path_isfile := os_path_isfile (OS := reference.system);
  os_path_exists := os_path_exists (OS := reference.system);
  os_makedirs := os_makedirs (OS := reference.system);
  Image_open := Image_open (OS := reference.system);
  Image_save := Image_save (OS := reference.system);
  ImageFont_truetype := λ _ _ w, (Raise OSError, w);
  random_draw := random_draw (OS := reference.system)
|}.

(** * Properties *)

Local Arguments gradient_channel : simpl never.

(** ** Running the monad *)

Lemma run_bind {World A B} (m : M World A) (f : A → M World B) (s : State World) :
  (m ≫= f) s = match m s with
               | (Ret a, s') => f a s'
               | (Raise e, s') => (Raise e, s')
               end.
Proof. reflexivity. Qed.

Section Running.
Context {K : Imaging} {World : Type} {os : OS World}.

Lemma run_ret {A B} (a : A) (f : A → M World B) (s : State World) :
  (mret a ≫= f) s = f a s.
Proof. reflexivity. Qed.

Lemma run_lift_ret {A B} (a : A) (f : A → M World B) (s : State World) :
  (lift (Ret a) ≫= f) s = f a s.
Proof. reflexivity. Qed.

Lemma run_logger {B} (lvl : Level) (msg : LogMsg) (f : () → M World B)
    (s : State World) :
  (logger lvl msg ≫= f) s = f () (mkState (world s) (log s ++ [(lvl, msg)])).
Proof. reflexivity. Qed.

Lemma run_call_ret {A B} (op : World → result A * World) (f : A → M World B)
    (s : State World) (a : A) (w : World) :
  op (world s) = (Ret a, w) → (call op ≫= f) s = f a (mkState w (log s)).
Proof. intros H. rewrite run_bind. unfold call. by rewrite H. Qed.

Lemma run_call_at {A B} (op : World → result A * World) (f : A → M World B)
    (w0 : World) (l : list (Level * LogMsg)) (a : A) (w : World) :
  op w0 = (Ret a, w) → (call op ≫= f) (mkState w0 l) = f a (mkState w l).
Proof. intros H. by rewrite (run_call_ret op f (mkState w0 l) a w H). Qed.

Lemma run_ask {A B} (op : World → A * World) (f : A → M World B) (s : State World) :
  (ask op ≫= f) s = f (op (world s)).1 (mkState (op (world s)).2 (log s)).
Proof. rewrite run_bind. unfold ask. by destruct (op (world s)). Qed.

Lemma run_bind_assoc {A B C} (m : M World A) (f : A → M World B) (g : B → M World C)
    (s : State World) :
  ((m ≫= f) ≫= g) s = (m ≫= (λ a, f a ≫= g)) s.
Proof. rewrite !run_bind. by destruct (m s) as [[a|e] s1]. Qed.

Lemma quiet_ret {A} (a : A) : quiet (mret a : M World A).
Proof. by intros s. Qed.

Lemma quiet_lift {A} (r : result A) : quiet (lift r : M World A).
Proof. by intros s. Qed.

Lemma quiet_raise {A} (e : exn) : quiet (raise e : M World A).
Proof. by intros s. Qed.

Lemma quiet_call {A} (op : World → result A * World) : quiet (call op).
Proof. intros s. unfold call. by destruct (op (world s)). Qed.

Lemma quiet_ask {A} (op : World → A * World) : quiet (ask op).
Proof. intros s. unfold ask. by destruct (op (world s)). Qed.

Lemma quiet_bind {A B} (m : M World A) (f : A → M World B) :
  quiet m → (∀ a, quiet (f a)) → quiet (m ≫= f).
Proof.
  intros Hm Hf s. rewrite run_bind. specialize (Hm s).
  destruct (m s) as [[a|e] s1]; [|done]. cbn in Hm. rewrite <- Hm. apply Hf.
Qed.

Lemma quiet_randint (a b : Z) : quiet (randint a b).
Proof.
  unfold randint. destruct (b <? a); [apply quiet_raise|].
  apply quiet_bind; [apply quiet_ask|]. intros n. apply quiet_ret.
Qed.

Lemma yields_any {A} (m : M World A) : yields m (λ _, True).
Proof. by intros s a s' _. Qed.

Lemma yields_ret {A} (a : A) (Q : A → Prop) : Q a → yields (mret a : M World A) Q.
Proof. intros Ha s b s' E. by injection E as <- _. Qed.

Lemma yields_lift {A} (r : result A) (Q : A → Prop) :
  (∀ a, r = Ret a → Q a) → yields (lift r : M World A) Q.
Proof. intros Hr s a s' E. apply Hr. by injection E as -> _. Qed.

Lemma yields_bind {A B} (m : M World A) (f : A → M World B) (P : A → Prop)
    (Q : B → Prop) :
  yields m P → (∀ a, P a → yields (f a) Q) → yields (m ≫= f) Q.
Proof.
  intros Hm Hf s b s' E. rewrite run_bind in E.
  destruct (m s) as [[a|e] s1] eqn:Em; [|done].
  eapply Hf; [|exact E]. by eapply Hm.
Qed.

Lemma yields_for_each {A B} (xs : list A) (body : A → B → M World B)
    (Q : B → Prop) :
  (∀ x acc, Q acc → yields (body x acc) Q) →
  ∀ acc, Q acc → yields (for_each xs acc body) Q.
Proof.
  intros Hb. induction xs as [|x xs IH]; intros acc Hacc; cbn [for_each].
  - by apply yields_ret.
  - eapply yields_bind; [by apply Hb|]. intros a Ha. by apply IH.
Qed.

End Running.

(** ** The gradient *)

Lemma Qfloor_div (a w : Z) : 0 < w → Qfloor (inject_Z a / inject_Z w) = a / w.
Proof.
  intros Hw.
  destruct w as [|p|p]; try lia.
  assert (E : (inject_Z a / inject_Z (Z.pos p) == a # p)%Q).
  { unfold Qeq, Qdiv, Qmult, Qinv, inject_Z. simpl. lia. }
  rewrite E. reflexivity.
Qed.

(** On a value that is not negative, the truncated interpolation is the
    floor division of the integers. *)
Lemma gradient_channel_floor (c1 c2 x width : Z) :
  0 < width → 0 ≤ c1 + (c2 - c1) * x / width →
  gradient_channel c1 c2 x width = c1 + (c2 - c1) * x / width.
Proof.
  intros Hw Hpos. unfold gradient_channel, py_int.
  set (k := (c2 - c1) * x) in *.
  assert (E : (inject_Z c1 + inject_Z k / inject_Z width
               == inject_Z (c1 * width + k) / inject_Z width)%Q).
  { rewrite inject_Z_plus, inject_Z_mult. field.
    intros H. apply (inject_Z_injective width 0) in H. lia. }
  assert (F : Qfloor (inject_Z c1 + inject_Z k / inject_Z width) = c1 + k / width).
  { rewrite E, Qfloor_div by done. rewrite Z.div_add_l by lia. done. }
  destruct (Qle_bool 0 _) eqn:Hs; [done|].
  exfalso. apply (f_equal negb) in Hs. simpl in Hs.
  assert (Hq : (0 <= inject_Z c1 + inject_Z k / inject_Z width)%Q).
  { apply Qle_trans with (inject_Z (c1 + k / width)).
    - change 0%Q with (inject_Z 0). rewrite <- Zle_Qle. done.
    - rewrite <- F. apply Qfloor_le. }
  apply Qle_bool_iff in Hq. rewrite Hq in Hs. done.
Qed.

Lemma gradient_channel_range (c1 c2 x width : Z) :
  0 < width → 0 ≤ x < width → 0 ≤ c1 ≤ 255 → 0 ≤ c2 ≤ 255 →
  0 ≤ c1 + (c2 - c1) * x / width ≤ 255.
Proof.
  intros Hw Hx H1 H2.
  destruct (Z.le_gt_cases c1 c2) as [Hle|Hgt].
  - assert (0 ≤ (c2 - c1) * x / width) by (apply Z.div_pos; nia).
    assert ((c2 - c1) * x / width ≤ c2 - c1) by (apply Z.div_le_upper_bound; nia).
    lia.
  - assert (c2 - c1 ≤ (c2 - c1) * x / width) by (apply Z.div_le_lower_bound; nia).
    assert ((c2 - c1) * x / width ≤ 0) by (apply Z.div_le_upper_bound; nia).
    lia.
Qed.

Lemma clip8_id (v : Z) : 0 ≤ v ≤ 255 → clip8 v = v.
Proof. unfold clip8. lia. Qed.

Section GradientLoop.
Context {K : Imaging} {World : Type} {os : OS World}.
Variables (width height : Z).
Variables (r1 g1 b1 r2 g2 b2 : Z) (t1 t2 : list Z).

Lemma gradient_step_run (x : Z) (g : Image) (s : State World) :
  im_mode g = RGBA →
  gradient_step width height (r1 :: g1 :: b1 :: t1) (r2 :: g2 :: b2 :: t2) x g s
  = (Ret (draw_line_vertical g x 0 height
            (column_ink width (r1, g1, b1) (r2, g2, b2) x)), s).
Proof.
  intros Hm.
  unfold gradient_step, mbind, M_bind, result_bind, lift, mret, M_ret, py_index.
  simpl. rewrite Hm. reflexivity.
Qed.

(** After the loop over the columns [xs], each of them holds its ink
    on every row down to [height], and the other pixels are as they
    were. *)
Lemma gradient_loop (xs : list Z) :
  ∀ (g : Image) (s : State World),
  im_mode g = RGBA →
  ∃ g',
    for_each xs g
      (gradient_step width height (r1 :: g1 :: b1 :: t1) (r2 :: g2 :: b2 :: t2)) s
    = (Ret g', s)
    ∧ im_mode g' = RGBA ∧ im_width g' = im_width g ∧ im_height g' = im_height g
    ∧ ∀ x y, im_px g' x y =
               if bool_decide (x ∈ xs) && (0 <=? y) && (y <=? height)
               then column_ink width (r1, g1, b1) (r2, g2, b2) x
               else im_px g x y.
Proof.
  induction xs as [|x0 xs IH]; intros g s Hm.
  - exists g. split_and!; done.
  - cbn [for_each]. rewrite run_bind, gradient_step_run by done.
    destruct (IH (draw_line_vertical g x0 0 height
                    (column_ink width (r1, g1, b1) (r2, g2, b2) x0)) s)
      as (g' & Hrun & Hmode & Hw & Hh & Hpx); [done|].
    exists g'. split; [exact Hrun|]. split_and!; try done.
    intros x y. rewrite Hpx. cbn [im_px draw_line_vertical].
    destruct (decide (x = x0)) as [->|Hne].
    + rewrite Z.eqb_refl. rewrite (bool_decide_eq_true_2 (x0 ∈ x0 :: xs)) by left.
      destruct (bool_decide (x0 ∈ xs)), (0 <=? y), (y <=? height); done.
    + assert ((x =? x0) = false) as -> by lia. cbn [andb].
      assert (Hin : bool_decide (x ∈ x0 :: xs) = bool_decide (x ∈ xs)).
      { apply bool_decide_ext. rewrite elem_of_cons.
        split; [intros [E|E]; [by destruct Hne | done] | by right]. }
      rewrite Hin. done.
Qed.
End GradientLoop.

(** C3.  For a positive width and height and two explicit RGB colours,
    [create_gradient_background] returns an RGBA image of that size in
    which every pixel of column [x] is opaque and has the channels
    [int(c1 + (c2 - c1) * x / width)], which is
    [c1 + (c2 - c1) * x // width]; the pixels of one column are equal,
    and column 0 has [color1]. *)
Theorem gradient_interpolates {K : Imaging} {World : Type} {os : OS World}
    (width height r1 g1 b1 r2 g2 b2 : Z) (s : State World) :
  0 < width → 0 < height →
  0 ≤ r1 ≤ 255 → 0 ≤ g1 ≤ 255 → 0 ≤ b1 ≤ 255 →
  0 ≤ r2 ≤ 255 → 0 ≤ g2 ≤ 255 → 0 ≤ b2 ≤ 255 →
  ∃ img,
    create_gradient_background width height (Some [r1; g1; b1]) (Some [r2; g2; b2]) s
      = (Ret img, s)
    ∧ im_mode img = RGBA ∧ im_width img = width ∧ im_height img = height
    ∧ (∀ x y, 0 ≤ x < width → 0 ≤ y < height →
         im_px img x y = Px (gradient_channel r1 r2 x width)
                            (gradient_channel g1 g2 x width)
                            (gradient_channel b1 b2 x width) 255
         ∧ gradient_channel r1 r2 x width = r1 + (r2 - r1) * x / width
         ∧ gradient_channel g1 g2 x width = g1 + (g2 - g1) * x / width
         ∧ gradient_channel b1 b2 x width = b1 + (b2 - b1) * x / width)
    ∧ (∀ y, 0 ≤ y < height → im_px img 0 y = Px r1 g1 b1 255).
Proof.
  intros Hw Hh Hr1 Hg1 Hb1 Hr2 Hg2 Hb2.
  unfold create_gradient_background.
  rewrite run_bind. cbn [mret M_ret]. rewrite run_bind. cbn [mret M_ret].
  rewrite run_bind. unfold lift at 1, Image_new.
  assert ((width <? 0) || (height <? 0) = false) as -> by lia.
  cbn [ink_of mbind result_bind].
  set (g0 := mkImage RGBA width height _).
  destruct (gradient_loop width height r1 g1 b1 r2 g2 b2 [] [] (seqZ 0 width) g0 s)
    as (img & Hrun & Hmode & Hwd & Hht & Hpx); [done|].
  exists img. split; [exact Hrun|].
  assert (Hcol : ∀ x y, 0 ≤ x < width → 0 ≤ y < height →
            im_px img x y = Px (gradient_channel r1 r2 x width)
                            (gradient_channel g1 g2 x width)
                            (gradient_channel b1 b2 x width) 255
         ∧ gradient_channel r1 r2 x width = r1 + (r2 - r1) * x / width
         ∧ gradient_channel g1 g2 x width = g1 + (g2 - g1) * x / width
         ∧ gradient_channel b1 b2 x width = b1 + (b2 - b1) * x / width).
  { intros x y Hx Hy.
    pose proof (gradient_channel_range r1 r2 x width Hw Hx Hr1 Hr2) as Br.
    pose proof (gradient_channel_range g1 g2 x width Hw Hx Hg1 Hg2) as Bg.
    pose proof (gradient_channel_range b1 b2 x width Hw Hx Hb1 Hb2) as Bb.
    assert (Er := gradient_channel_floor r1 r2 x width Hw (proj1 Br)).
    assert (Eg := gradient_channel_floor g1 g2 x width Hw (proj1 Bg)).
    assert (Eb := gradient_channel_floor b1 b2 x width Hw (proj1 Bb)).
    split; [|done].
    rewrite Hpx. rewrite bool_decide_eq_true_2 by (apply elem_of_seqZ; lia).
    assert ((0 <=? y) = true) as -> by lia.
    assert ((y <=? height) = true) as -> by lia.
    cbn [andb]. unfold column_ink.
    rewrite !clip8_id by lia. done. }
  split_and!; try done.
  intros y Hy. destruct (Hcol 0 y) as (E & Er & Eg & Eb); [lia|done|].
  rewrite E, Er, Eg, Eb. rewrite !Z.mul_0_r, !Z.div_0_l by lia.
  f_equal; lia.
Qed.

Lemma gradient_interpolates_witness :
  ∃ img,
    create_gradient_background (K := reference.kernel) (os := reference.system)
      4 2 (Some [10; 20; 30]) (Some [200; 100; 0]) (reference.start reference.disk)
      = (Ret img, reference.start reference.disk)
    ∧ im_mode img = RGBA ∧ im_width img = 4 ∧ im_height img = 2
    ∧ (∀ x y, 0 ≤ x < 4 → 0 ≤ y < 2 →
         im_px img x y = Px (gradient_channel 10 200 x 4) (gradient_channel 20 100 x 4)
                            (gradient_channel 30 0 x 4) 255
         ∧ gradient_channel 10 200 x 4 = 10 + (200 - 10) * x / 4
         ∧ gradient_channel 20 100 x 4 = 20 + (100 - 20) * x / 4
         ∧ gradient_channel 30 0 x 4 = 30 + (0 - 30) * x / 4)
    ∧ (∀ y, 0 ≤ y < 2 → im_px img 0 y = Px 10 20 30 255).
Proof.
  apply (gradient_interpolates 4 2 10 20 30 200 100 0); lia.
Defined.

(** ** The shadow *)

Lemma reference_laws : ImagingLaws reference.kernel.
Proof.
  split; cbn; unfold reference.mix, reference.over; intros.
  - reflexivity.
  - reflexivity.
  - by rewrite H.
  - by rewrite H.
Qed.

Lemma ink_of_tuple4 (p : rgba) :
  ink_of RGBA (tuple4 p)
  = Ret (Px (clip8 (red p)) (clip8 (green p)) (clip8 (blue p)) (clip8 (alpha p))).
Proof. reflexivity. Qed.

(** A transparent canvas. *)
Lemma Image_new_clear (w h : Z) :
  0 ≤ w → 0 ≤ h →
  Image_new RGBA w h [0; 0; 0; 0] = Ret (mkImage RGBA w h (λ _ _, Px 0 0 0 0)).
Proof.
  intros Hw Hh. unfold Image_new.
  assert ((w <? 0) || (h <? 0) = false) as -> by lia. reflexivity.
Qed.

Section ShadowFacts.
Context {K : Imaging}.
Variables (img : Image) (ox oy blur_radius : Z) (shadow_color : rgba).
Hypothesis width_ok : 0 ≤ im_width img.
Hypothesis height_ok : 0 ≤ im_height img.
Hypothesis shadow_width_ok : 0 ≤ im_width img + ox + blur_radius * 2.
Hypothesis shadow_height_ok : 0 ≤ im_height img + oy + blur_radius * 2.

(** The canvas before the blur: transparent, with a full rectangle of
    the shadow colour, as large as the image, at the offset. *)
Lemma shadow_canvas_run :
  shadow_canvas img (ox, oy) (tuple4 shadow_color) blur_radius
  = Ret {| im_mode := RGBA;
           im_width := im_width img + ox + blur_radius * 2;
           im_height := im_height img + oy + blur_radius * 2;
           im_px := λ x y,
             if (0 <=? x - (blur_radius + ox)) && (x - (blur_radius + ox) <? im_width img)
                && (0 <=? y - (blur_radius + oy)) && (y - (blur_radius + oy) <? im_height img)
             then Px (clip8 (red shadow_color)) (clip8 (green shadow_color))
                     (clip8 (blue shadow_color)) (clip8 (alpha shadow_color))
             else Px 0 0 0 0 |}.
Proof.
  unfold shadow_canvas, Image_new. cbn [fst snd].
  assert ((im_width img + ox + blur_radius * 2 <? 0)
          || (im_height img + oy + blur_radius * 2 <? 0) = false) as -> by lia.
  assert ((im_width img <? 0) || (im_height img <? 0) = false) as -> by lia.
  rewrite ink_of_tuple4. reflexivity.
Qed.

Lemma add_shadow_run :
  ∃ out,
    add_shadow img (ox, oy) (tuple4 shadow_color) blur_radius = Ret out
    ∧ im_mode out = RGBA
    ∧ im_width out = im_width img + ox + blur_radius * 2
    ∧ im_height out = im_height img + oy + blur_radius * 2
    ∧ ∀ x y, im_px out x y =
        composite_px
          (gaussian_blur_px blur_radius
             {| im_mode := RGBA;
                im_width := im_width img + ox + blur_radius * 2;
                im_height := im_height img + oy + blur_radius * 2;
                im_px := λ x y,
                  if (0 <=? x - (blur_radius + ox)) && (x - (blur_radius + ox) <? im_width img)
                     && (0 <=? y - (blur_radius + oy)) && (y - (blur_radius + oy) <? im_height img)
                  then Px (clip8 (red shadow_color)) (clip8 (green shadow_color))
                          (clip8 (blue shadow_color)) (clip8 (alpha shadow_color))
                  else Px 0 0 0 0 |} x y)
          (if inside img (x - blur_radius) (y - blur_radius) then
             if decide (im_mode img = RGBA) then
               blend_px (alpha (im_px img (x - blur_radius) (y - blur_radius)))
                        (Px 0 0 0 0) (view img (x - blur_radius) (y - blur_radius))
             else view img (x - blur_radius) (y - blur_radius)
           else Px 0 0 0 0).
Proof.
  unfold add_shadow. rewrite shadow_canvas_run.
  cbn [mbind result_bind gaussian_blur im_width im_height im_mode].
  unfold Image_new.
  assert ((im_width img + ox + blur_radius * 2 <? 0)
          || (im_height img + oy + blur_radius * 2 <? 0) = false) as -> by lia.
  cbn [ink_of mbind result_bind].
  destruct (decide (im_mode img = RGBA)) as [Hm|Hm].
  - unfold paste, mask_band. rewrite !Z.eqb_refl, Hm.
    cbn [andb fmap result_fmap mbind result_bind im_mode im_width im_height im_px].
    unfold alpha_composite. cbn [im_mode im_width im_height im_px].
    rewrite bool_decide_eq_true_2 by done. rewrite !Z.eqb_refl. cbn [andb negb].
    eexists. split; [reflexivity|]. cbn [im_mode im_width im_height im_px].
    split_and!; try done; intros x y; destruct (inside img _ _); reflexivity.
  - unfold paste.
    cbn [mbind result_bind im_mode im_width im_height im_px].
    unfold alpha_composite. cbn [im_mode im_width im_height im_px].
    rewrite bool_decide_eq_true_2 by done. rewrite !Z.eqb_refl. cbn [andb negb].
    eexists. split; [reflexivity|]. cbn [im_mode im_width im_height im_px].
    split_and!; try done; intros x y; destruct (inside img _ _); reflexivity.
Qed.
End ShadowFacts.

(** When the enlarged size would be negative, no canvas can be made. *)
Lemma add_shadow_negative_size {K : Imaging} (img : Image) (ox oy br : Z) (c : color) :
  im_width img + ox + br * 2 < 0 ∨ im_height img + oy + br * 2 < 0 →
  add_shadow img (ox, oy) c br = Raise ValueError.
Proof.
  intros H. unfold add_shadow, shadow_canvas, Image_new. cbn [fst snd].
  assert ((im_width img + ox + br * 2 <? 0) || (im_height img + oy + br * 2 <? 0) = true)
    as -> by lia.
  reflexivity.
Qed.

(** C4.  [add_shadow] returns an image whose width is the width of the
    input plus [offset_x + 2 * blur_radius] and whose height is the
    height of the input plus [offset_y + 2 * blur_radius]; it returns
    whenever these two sizes are not negative, so for every offset and
    radius that are not negative. *)
Theorem add_shadow_size {K : Imaging} (img : Image) (ox oy blur_radius : Z)
    (shadow_color : rgba) :
  0 ≤ im_width img → 0 ≤ im_height img →
  0 ≤ im_width img + ox + blur_radius * 2 →
  0 ≤ im_height img + oy + blur_radius * 2 →
  ∃ out,
    add_shadow img (ox, oy) (tuple4 shadow_color) blur_radius = Ret out
    ∧ im_width out = im_width img + ox + 2 * blur_radius
    ∧ im_height out = im_height img + oy + 2 * blur_radius.
Proof.
  intros Hw Hh Hsw Hsh.
  destruct (add_shadow_run img ox oy blur_radius shadow_color Hw Hh Hsw Hsh)
    as (out & Hrun & _ & Ewidth & Eheight & _).
  exists out. split; [done|]. lia.
Qed.

Lemma add_shadow_size_witness :
  ∃ out,
    add_shadow (K := reference.kernel) reference.quad (5, 5) (tuple4 (Px 0 0 0 100)) 3
      = Ret out
    ∧ im_width out = im_width reference.quad + 5 + 2 * 3
    ∧ im_height out = im_height reference.quad + 5 + 2 * 3.
Proof.
  apply (add_shadow_size reference.quad 5 5 3 (Px 0 0 0 100)); cbn; lia.
Defined.

(** C5, as stated, fails: the shadow is a full rectangle.  Under the
    fully transparent pixel (0, 1) of the image [quad] the canvas holds
    the shadow colour at its full alpha. *)
Lemma shadow_ignores_alpha :
  ∃ canvas,
    shadow_canvas (K := reference.kernel) reference.quad (5, 5) [0; 0; 0; 100] 3
      = Ret canvas
    ∧ im_px canvas (3 + 5 + 0) (3 + 5 + 1) = Px 0 0 0 100
    ∧ ¬ silhouette_follows_alpha reference.quad canvas (5, 5) 3.
Proof.
  eexists. split; [reflexivity|]. split; [reflexivity|].
  intros H. specialize (H 0 1 eq_refl eq_refl). cbn in H. discriminate H.
Qed.

(** C5, amended.  [add_shadow] puts a rectangle of the shadow colour, of
    the size of the image and whatever its alpha, at
    [blur_radius + offset] on a transparent canvas; the output is the
    Gaussian blur of that canvas with, composited over it, a transparent
    layer of the same size that holds the image at
    [(blur_radius, blur_radius)], pasted under its own alpha when its
    mode is RGBA: pixel by pixel, [composite_px] of the blurred canvas
    and the layer.  Every pixel of the image whose alpha is 255 is found
    in the output, at its place, with the same channels. *)
Theorem add_shadow_keeps_opaque {K : Imaging} (laws : ImagingLaws K)
    (img : Image) (ox oy blur_radius : Z) (shadow_color : rgba) :
  0 ≤ im_width img → 0 ≤ im_height img →
  0 ≤ im_width img + ox + blur_radius * 2 →
  0 ≤ im_height img + oy + blur_radius * 2 →
  ∃ canvas layer out,
    shadow_canvas img (ox, oy) (tuple4 shadow_color) blur_radius = Ret canvas
    ∧ same_shape canvas
        (mkImage RGBA (im_width img + ox + blur_radius * 2)
                 (im_height img + oy + blur_radius * 2) (λ _ _, Px 0 0 0 0))
    ∧ (∀ x y, im_px canvas x y =
         if inside img (x - (blur_radius + ox)) (y - (blur_radius + oy))
         then Px (clip8 (red shadow_color)) (clip8 (green shadow_color))
                 (clip8 (blue shadow_color)) (clip8 (alpha shadow_color))
         else Px 0 0 0 0)
    ∧ (clear ← Image_new RGBA (im_width canvas) (im_height canvas) [0; 0; 0; 0];
       paste clear img (blur_radius, blur_radius)
         (if decide (im_mode img = RGBA) then Some img else None)) = Ret layer
    ∧ same_shape layer canvas
    ∧ (∀ x y, im_px layer x y =
         if inside img (x - blur_radius) (y - blur_radius) then
           if decide (im_mode img = RGBA) then
             blend_px (alpha (im_px img (x - blur_radius) (y - blur_radius)))
                      (Px 0 0 0 0) (view img (x - blur_radius) (y - blur_radius))
           else view img (x - blur_radius) (y - blur_radius)
         else Px 0 0 0 0)
    ∧ add_shadow img (ox, oy) (tuple4 shadow_color) blur_radius = Ret out
    ∧ alpha_composite (gaussian_blur blur_radius canvas) layer = Ret out
    ∧ same_shape out canvas
    ∧ (∀ x y, im_px out x y =
         composite_px (im_px (gaussian_blur blur_radius canvas) x y) (im_px layer x y))
    ∧ (∀ x y, inside img x y = true → alpha (view img x y) = 255 →
         im_px out (blur_radius + x) (blur_radius + y) = view img x y
         ∧ (0 ≤ blur_radius → 0 ≤ ox → 0 ≤ oy →
            inside out (blur_radius + x) (blur_radius + y) = true)).
Proof.
  intros Hw Hh Hsw Hsh.
  pose proof (shadow_canvas_run img ox oy blur_radius shadow_color Hw Hh Hsw Hsh) as Hcanvas.
  set (canvas := mkImage RGBA (im_width img + ox + blur_radius * 2)
                   (im_height img + oy + blur_radius * 2) _) in Hcanvas.
  assert (Hadd : add_shadow img (ox, oy) (tuple4 shadow_color) blur_radius
                 = (clear ← Image_new RGBA (im_width canvas) (im_height canvas) [0; 0; 0; 0];
                    layer ← paste clear img (blur_radius, blur_radius)
                              (if decide (im_mode img = RGBA) then Some img else None);
                    alpha_composite (gaussian_blur blur_radius canvas) layer)).
  { unfold add_shadow. rewrite Hcanvas. reflexivity. }
  assert (Hclear : Image_new RGBA (im_width canvas) (im_height canvas) [0; 0; 0; 0]
                   = Ret (mkImage RGBA (im_width canvas) (im_height canvas)
                            (λ _ _, Px 0 0 0 0)))
    by by apply Image_new_clear.
  rewrite Hclear in Hadd. cbn [mbind result_bind] in Hadd.
  set (clear := mkImage RGBA (im_width canvas) (im_height canvas) _) in *.
  assert (Hlayer : ∃ layer,
            paste clear img (blur_radius, blur_radius)
              (if decide (im_mode img = RGBA) then Some img else None) = Ret layer
            ∧ same_shape layer canvas
            ∧ ∀ x y, im_px layer x y =
                if inside img (x - blur_radius) (y - blur_radius) then
                  if decide (im_mode img = RGBA) then
                    blend_px (alpha (im_px img (x - blur_radius) (y - blur_radius)))
                             (Px 0 0 0 0) (view img (x - blur_radius) (y - blur_radius))
                  else view img (x - blur_radius) (y - blur_radius)
                else Px 0 0 0 0).
  { destruct (decide (im_mode img = RGBA)) as [Hm|Hm].
    - unfold paste, mask_band. rewrite !Z.eqb_refl, Hm.
      cbn [andb fmap result_fmap mbind result_bind].
      eexists. split; [reflexivity|]. split; [done|].
      intros x y. cbn [im_px]. by destruct (inside img _ _).
    - unfold paste. cbn [mbind result_bind].
      eexists. split; [reflexivity|]. split; [done|].
      intros x y. cbn [im_px]. by destruct (inside img _ _). }
  destruct Hlayer as (layer & Hpaste & (Lm & Lw & Lh) & Lpx).
  rewrite Hpaste in Hadd. cbn [mbind result_bind] in Hadd.
  assert (Hout : ∃ out,
            alpha_composite (gaussian_blur blur_radius canvas) layer = Ret out
            ∧ same_shape out canvas
            ∧ ∀ x y, im_px out x y =
                composite_px (im_px (gaussian_blur blur_radius canvas) x y)
                             (im_px layer x y)).
  { unfold alpha_composite. cbn [gaussian_blur im_mode im_width im_height].
    rewrite Lm, Lw, Lh. cbn [canvas im_mode im_width im_height].
    rewrite bool_decide_eq_true_2 by done. rewrite !Z.eqb_refl. cbn [andb negb].
    eexists. split; [reflexivity|]. split; [done|]. done. }
  destruct Hout as (out & Hcomp & (Om & Ow & Oh) & Opx).
  exists canvas, layer, out.
  split; [done|]. split; [done|]. split; [intros x y; reflexivity|].
  split; [by rewrite Hclear|]. split; [done|]. split; [done|].
  split; [by rewrite Hadd|]. split; [done|]. split; [done|]. split; [done|].
  intros x y Hin Ha. split.
  - rewrite Opx, Lpx.
    replace (blur_radius + x - blur_radius) with x by lia.
    replace (blur_radius + y - blur_radius) with y by lia.
    rewrite Hin.
    destruct (decide (im_mode img = RGBA)) as [Hm|Hm].
    + assert (Hv : view img x y = im_px img x y) by (unfold view; by rewrite Hm).
      rewrite Hv in Ha |- *. rewrite Ha. unfold blend_px. rewrite !blend8_opaque.
      rewrite composite_px_opaque by done. by destruct (im_px img x y).
    + by rewrite composite_px_opaque.
  - intros Hb Hox Hoy. unfold inside in *. rewrite Ow, Oh.
    cbn [canvas im_width im_height]. lia.
Qed.

Lemma add_shadow_keeps_opaque_witness :
  ∃ canvas layer out,
    shadow_canvas (K := reference.kernel) reference.quad (5, 5) (tuple4 (Px 0 0 0 100)) 3
      = Ret canvas
    ∧ same_shape canvas
        (mkImage RGBA (im_width reference.quad + 5 + 3 * 2)
                 (im_height reference.quad + 5 + 3 * 2) (λ _ _, Px 0 0 0 0))
    ∧ (∀ x y, im_px canvas x y =
         if inside reference.quad (x - (3 + 5)) (y - (3 + 5))
         then Px (clip8 0) (clip8 0) (clip8 0) (clip8 100)
         else Px 0 0 0 0)
    ∧ (clear ← Image_new RGBA (im_width canvas) (im_height canvas) [0; 0; 0; 0];
       paste (K := reference.kernel) clear reference.quad (3, 3)
         (if decide (im_mode reference.quad = RGBA) then Some reference.quad else None))
      = Ret layer
    ∧ same_shape layer canvas
    ∧ (∀ x y, im_px layer x y =
         if inside reference.quad (x - 3) (y - 3) then
           if decide (im_mode reference.quad = RGBA) then
             blend_px (K := reference.kernel)
                      (alpha (im_px reference.quad (x - 3) (y - 3)))
                      (Px 0 0 0 0) (view reference.quad (x - 3) (y - 3))
           else view reference.quad (x - 3) (y - 3)
         else Px 0 0 0 0)
    ∧ add_shadow (K := reference.kernel) reference.quad (5, 5) (tuple4 (Px 0 0 0 100)) 3
      = Ret out
    ∧ alpha_composite (K := reference.kernel)
        (gaussian_blur (K := reference.kernel) 3 canvas) layer = Ret out
    ∧ same_shape out canvas
    ∧ (∀ x y, im_px out x y =
         composite_px (Imaging := reference.kernel)
           (im_px (gaussian_blur (K := reference.kernel) 3 canvas) x y) (im_px layer x y))
    ∧ (∀ x y, inside reference.quad x y = true → alpha (view reference.quad x y) = 255 →
         im_px out (3 + x) (3 + y) = view reference.quad x y
         ∧ (0 ≤ 3 → 0 ≤ 5 → 0 ≤ 5 → inside out (3 + x) (3 + y) = true)).
Proof.
  apply (add_shadow_keeps_opaque reference_laws reference.quad 5 5 3 (Px 0 0 0 100));
    cbn; lia.
Defined.

(** ** The accent colour *)

Lemma py_int_half (w : Z) : 0 ≤ w → py_int (inject_Z w * (1 # 2)) = w / 2.
Proof.
  intros Hw. unfold py_int.
  assert (E : Qfloor (inject_Z w * (1 # 2)) = w / 2).
  { unfold Qfloor, Qmult, inject_Z. cbn. by rewrite Z.mul_1_r. }
  destruct (Qle_bool 0 _) eqn:Hs; [done|].
  exfalso. assert (Hq : (0 <= inject_Z w * (1 # 2))%Q).
  { unfold Qle, Qmult, inject_Z. cbn. lia. }
  apply Qle_bool_iff in Hq. congruence.
Qed.

Lemma py_int_four_fifths (w : Z) : 0 ≤ w → py_int (inject_Z w * (4 # 5)) = w * 4 / 5.
Proof.
  intros Hw. unfold py_int.
  assert (E : Qfloor (inject_Z w * (4 # 5)) = w * 4 / 5).
  { unfold Qfloor, Qmult, inject_Z. cbn. done. }
  destruct (Qle_bool 0 _) eqn:Hs; [done|].
  exfalso. assert (Hq : (0 <= inject_Z w * (4 # 5))%Q).
  { unfold Qle, Qmult, inject_Z. cbn. lia. }
  apply Qle_bool_iff in Hq. congruence.
Qed.

(** [randint] on a range that is not empty returns a value of the range
    and logs nothing. *)
Lemma randint_run {K : Imaging} {World : Type} {os : OS World} (a b : Z)
    (s : State World) :
  a ≤ b →
  ∃ n s', randint a b s = (Ret n, s') ∧ a ≤ n ≤ b ∧ log s' = log s.
Proof.
  intros Hab. unfold randint.
  assert ((b <? a) = false) as -> by lia.
  rewrite run_bind. unfold ask. destruct (random_draw (world s)) as [n w] eqn:Hd.
  eexists _, _. split; [reflexivity|]. split; [|done].
  pose proof (Z.mod_pos_bound n (b - a + 1)). lia.
Qed.

(** C10.  For an image that opens in mode RGB, [get_random_color]
    returns [(r + 100, g + 50, b, 255)] for the pixel [(r, g, b)] that it
    samples, so the red channel exceeds 255 when [r > 155] and the green
    one when [g > 205], and the tuple is then not a valid 8-bit RGBA
    colour; for an image in mode RGBA or in any other mode it returns the
    channels of the sampled pixel, of its conversion to RGBA for the
    other modes, as they are. *)
Theorem random_color_by_mode {K : Imaging} {World : Type} {os : OS World}
    (image_path : string) (s : State World) (img : Image) (w : World) :
  Image_open image_path (world s) = (Ret img, w) →
  0 < im_width img → 0 < im_height img →
  ∃ x y s',
    im_width img / 2 ≤ x ≤ im_width img * 4 / 5
    ∧ im_height img / 2 ≤ y ≤ im_height img * 4 / 5
    ∧ inside img x y = true
    ∧ log s' = log s
    ∧ get_random_color image_path s
      = (Ret (if decide (im_mode img = RGB)
              then [red (im_px img x y) + 100; green (im_px img x y) + 50;
                    blue (im_px img x y); 255]
              else tuple4 (view img x y)), s')
    ∧ (im_mode img = RGB →
       (155 < red (im_px img x y) → 255 < red (im_px img x y) + 100)
       ∧ (205 < green (im_px img x y) → 255 < green (im_px img x y) + 50)
       ∧ (155 < red (im_px img x y) ∨ 205 < green (im_px img x y) →
          ¬ valid_rgba8 [red (im_px img x y) + 100; green (im_px img x y) + 50;
                         blue (im_px img x y); 255])).
Proof.
  intros Hopen Hw Hh.
  unfold get_random_color, try_except.
  rewrite run_bind. unfold call at 1. rewrite Hopen.
  rewrite !py_int_half, !py_int_four_fifths by lia.
  set (s0 := mkState w (log s)).
  destruct (randint_run (im_width img / 2) (im_width img * 4 / 5) s0)
    as (x & s1 & Hx & Bx & L1).
  { apply Z.div_le_lower_bound; [lia|]. pose proof (Z.mul_div_le (im_width img) 2). lia. }
  destruct (randint_run (im_height img / 2) (im_height img * 4 / 5) s1)
    as (y & s2 & Hy & By & L2).
  { apply Z.div_le_lower_bound; [lia|]. pose proof (Z.mul_div_le (im_height img) 2). lia. }
  rewrite run_bind, Hx, run_bind, Hy.
  assert (0 ≤ x ∧ x < im_width img) as [Hx0 Hx1].
  { pose proof (Z.div_pos (im_width img) 2).
    assert (im_width img * 4 / 5 < im_width img) by (apply Z.div_lt_upper_bound; lia).
    lia. }
  assert (0 ≤ y ∧ y < im_height img) as [Hy0 Hy1].
  { pose proof (Z.div_pos (im_height img) 2).
    assert (im_height img * 4 / 5 < im_height img) by (apply Z.div_lt_upper_bound; lia).
    lia. }
  assert (Hin : inside img x y = true) by (unfold inside; lia).
  exists x, y, s2. split; [done|]. split; [done|]. split; [done|].
  split; [by rewrite L2, L1|]. split.
  - destruct (decide (im_mode img = RGBA)) as [Hm|Hm].
    + rewrite decide_False by congruence.
      rewrite run_bind. unfold lift at 1, getpixel.
      assert ((x <? 0) = false) as -> by lia. assert ((y <? 0) = false) as -> by lia.
      rewrite Hin, Hm. unfold view. rewrite Hm. reflexivity.
    + destruct (decide (im_mode img = RGB)) as [Hm'|Hm'].
      * rewrite run_bind. unfold lift at 1, getpixel.
        assert ((x <? 0) = false) as -> by lia. assert ((y <? 0) = false) as -> by lia.
        rewrite Hin, Hm'. reflexivity.
      * rewrite run_bind. unfold lift at 1, getpixel. cbn [convert_RGBA im_width im_height im_mode im_px].
        assert ((x <? 0) = false) as -> by lia. assert ((y <? 0) = false) as -> by lia.
        change (inside (convert_RGBA img) x y) with (inside img x y).
        rewrite Hin. reflexivity.
  - intros Hm. split; [lia|]. split; [lia|].
    intros Hbig [_ Hall]. rewrite !Forall_cons in Hall. lia.
Qed.

Lemma random_color_by_mode_witness :
  ∃ x y s',
    im_width reference.two_tone / 2 ≤ x ≤ im_width reference.two_tone * 4 / 5
    ∧ im_height reference.two_tone / 2 ≤ y ≤ im_height reference.two_tone * 4 / 5
    ∧ inside reference.two_tone x y = true
    ∧ log s' = log (reference.start reference.disk)
    ∧ get_random_color (K := reference.kernel) (os := reference.system)
        "/app/poster/Shows/1.JPG" (reference.start reference.disk)
      = (Ret (if decide (im_mode reference.two_tone = RGB)
              then [red (im_px reference.two_tone x y) + 100;
                    green (im_px reference.two_tone x y) + 50;
                    blue (im_px reference.two_tone x y); 255]
              else tuple4 (view reference.two_tone x y)), s')
    ∧ (im_mode reference.two_tone = RGB →
       (155 < red (im_px reference.two_tone x y)
        → 255 < red (im_px reference.two_tone x y) + 100)
       ∧ (205 < green (im_px reference.two_tone x y)
          → 255 < green (im_px reference.two_tone x y) + 50)
       ∧ (155 < red (im_px reference.two_tone x y)
          ∨ 205 < green (im_px reference.two_tone x y) →
          ¬ valid_rgba8 [red (im_px reference.two_tone x y) + 100;
                         green (im_px reference.two_tone x y) + 50;
                         blue (im_px reference.two_tone x y); 255])).
Proof.
  apply (random_color_by_mode (K := reference.kernel) (os := reference.system)
           "/app/poster/Shows/1.JPG" (reference.start reference.disk)
           reference.two_tone reference.disk); [reflexivity | cbn; lia | cbn; lia].
Defined.

(** On the reference disk: a cover in mode RGB whose pixels are
    (200, 180, 160) yields the accent colour (300, 230, 160, 255), and a
    cover in mode RGBA yields the sampled pixel as it is. *)
Example accent_color_overflows :
  (get_random_color (K := reference.kernel) (os := reference.system)
     "/app/poster/Shows/9.jpg" (reference.start reference.disk)).1
  = Ret [300; 230; 160; 255]
  ∧ ¬ valid_rgba8 [300; 230; 160; 255]
  ∧ (get_random_color (K := reference.kernel) (os := reference.system)
       "/app/poster/Shows/7.webp" (reference.start reference.disk)).1
    = Ret [10; 10; 200; 255].
Proof.
  split; [reflexivity|]. split; [|reflexivity].
  intros [_ H]. apply Forall_cons in H as [H _]. lia.
Qed.

(** ** Sorting *)

Section SortBy.
Context {A : Type} (key : A → Z).

Lemma insert_by_perm (x : A) (l : list A) : insert_by key x l ≡ₚ x :: l.
Proof.
  induction l as [|y l IH]; cbn; [done|].
  destruct (key x <=? key y); [done|].
  rewrite IH. apply Permutation_swap.
Qed.

Lemma sort_by_perm (l : list A) : sort_by key l ≡ₚ l.
Proof.
  induction l as [|x l IH]; cbn; [done|].
  fold (sort_by key l). by rewrite insert_by_perm, IH.
Qed.

Lemma insert_by_sorted (x : A) (l : list A) :
  StronglySorted (λ a b, key a ≤ key b) l →
  StronglySorted (λ a b, key a ≤ key b) (insert_by key x l).
Proof.
  induction 1 as [|y l Hs IH Hall]; cbn.
  - repeat constructor.
  - destruct (key x <=? key y) eqn:E.
    + constructor; [by constructor|].
      constructor; [lia|].
      eapply Forall_impl; [exact Hall|]. cbn. intros. lia.
    + constructor; [done|].
      rewrite insert_by_perm. constructor; [lia|done].
Qed.

Lemma sort_by_sorted (l : list A) :
  StronglySorted (λ a b, key a ≤ key b) (sort_by key l).
Proof.
  induction l as [|x l IH]; cbn; [constructor|].
  by apply insert_by_sorted.
Qed.

Lemma sort_by_length (l : list A) : length (sort_by key l) = length l.
Proof. by rewrite sort_by_perm. Qed.
End SortBy.

(** Sorting the decorated list is decorating the sorted list. *)
Lemma sort_by_decorated {A} (k : A → Z) (l : list A) :
  sort_by fst ((λ x, (k x, x)) <$> l) = (λ x, (k x, x)) <$> sort_by k l.
Proof.
  induction l as [|x l IH]; cbn; [done|].
  fold (sort_by k l). fold (sort_by fst ((λ x, (k x, x)) <$> l)). rewrite IH.
  generalize (sort_by k l). intros m.
  induction m as [|y m IHm]; cbn; [done|].
  destruct (k x <=? k y); cbn; [done|]. by rewrite IHm.
Qed.

Lemma sorted_by_key_total {A} (key : A → result Z) (k : A → Z) (l : list A) :
  Forall (λ x, key x = Ret (k x)) l →
  sorted_by_key key l = Ret (sort_by k l).
Proof.
  intros Hall. unfold sorted_by_key.
  assert (E : map_result (λ x, kx ← key x; Ret (kx, x)) l
              = Ret ((λ x, (k x, x)) <$> l)).
  { induction Hall as [|x l Hx _ IH]; cbn; [done|].
    rewrite Hx. cbn. rewrite IH. done. }
  rewrite E. cbn. rewrite sort_by_decorated.
  rewrite <- list_fmap_compose. f_equal.
  induction (sort_by k l) as [|? ? IH]; cbn; [done|]. by f_equal.
Qed.

(** ** Slices, ranges and groups *)

Lemma py_slice_prefix {A} (l : list A) (n : Z) :
  0 ≤ n → py_slice l 0 n = take (Z.to_nat n) l.
Proof.
  intros Hn. unfold py_slice, py_norm_index.
  set (len := Z.of_nat (length l)).
  change (0 <? 0) with false. cbv iota.
  assert ((n <? 0) = false) as -> by lia.
  replace (Z.max 0 (Z.min len 0)) with 0 by lia.
  change (Z.to_nat 0) with 0%nat. rewrite drop_0, Z.sub_0_r.
  destruct (Z.le_gt_cases n len).
  - do 2 f_equal. lia.
  - rewrite !take_ge by lia. done.
Qed.

Lemma py_slice_window {A} (l : list A) (i n : Z) :
  0 ≤ i → 0 ≤ n → py_slice l i (i + n) = take (Z.to_nat n) (drop (Z.to_nat i) l).
Proof.
  intros Hi Hn. unfold py_slice, py_norm_index.
  assert ((i <? 0) = false) as -> by lia.
  assert ((i + n <? 0) = false) as -> by lia.
  set (len := Z.of_nat (length l)).
  destruct (Z.le_gt_cases i len) as [Hle|Hgt].
  - rewrite (Z.max_r 0 (Z.min len i)) by lia. rewrite (Z.min_r len i) by lia.
    destruct (Z.le_gt_cases (i + n) len).
    + do 2 f_equal. lia.
    + rewrite !take_ge; [done| |]; rewrite length_drop; lia.
  - rewrite !drop_ge by lia. by rewrite !take_nil.
Qed.

(** The groups of [rows] elements, one after the other, make up the
    prefix that they cover. *)
Lemma groups_concat {A} (l : list A) (rows n start : nat) :
  concat ((λ k, take rows (drop (k * rows) l)) <$> seq start n)
  = take (n * rows) (drop (start * rows) l).
Proof.
  revert start. induction n as [|n IH]; intros start; cbn [seq fmap list_fmap concat].
  - by rewrite take_0.
  - rewrite IH. cbn [Nat.mul].
    replace (rows + start * rows)%nat with (start * rows + rows)%nat by lia.
    rewrite <- drop_drop. apply take_take_drop.
Qed.

Lemma group_posters_run (l : list string) (rows : Z) :
  0 < rows →
  group_posters l rows
  = Ret ((λ k, take (Z.to_nat rows) (drop (k * Z.to_nat rows) l))
           <$> seq 0 (Z.to_nat ((Z.of_nat (length l) + rows - 1) / rows))).
Proof.
  intros Hr. unfold group_posters, py_range.
  assert ((rows =? 0) = false) as -> by lia.
  assert ((0 <? rows) = true) as -> by lia.
  cbn [mbind result_bind]. f_equal.
  rewrite Z.sub_0_r. unfold seqZ.
  rewrite <- !list_fmap_compose. apply list_fmap_ext.
  intros _ k _. cbn.
  rewrite py_slice_window by lia. do 2 f_equal. lia.
Qed.

(** The shape of the groups: they partition the list in order, each has
    between 1 and [rows] elements, and each but the last has [rows]. *)
Lemma group_posters_shape (l : list string) (rows : Z) :
  0 < rows →
  ∃ groups,
    group_posters l rows = Ret groups
    ∧ concat groups = l
    ∧ Forall (λ g, 0 < Z.of_nat (length g) ≤ rows) groups
    ∧ (∀ i g, groups !! i = Some g → (S i < length groups)%nat →
              Z.of_nat (length g) = rows)
    ∧ Z.of_nat (length groups) = (Z.of_nat (length l) + rows - 1) / rows.
Proof.
  intros Hr. rewrite group_posters_run by done.
  set (r := Z.to_nat rows). set (len := Z.of_nat (length l)).
  set (c := Z.to_nat ((len + rows - 1) / rows)).
  assert (Hc0 : 0 ≤ (len + rows - 1) / rows) by (apply Z.div_pos; lia).
  assert (Hc1 : len ≤ rows * ((len + rows - 1) / rows)).
  { pose proof (Z.mul_succ_div_gt (len + rows - 1) rows). lia. }
  assert (Hc2 : rows * ((len + rows - 1) / rows) < len + rows).
  { pose proof (Z.mul_div_le (len + rows - 1) rows). lia. }
  eexists. split; [reflexivity|]. split_and!.
  - rewrite groups_concat. cbn. rewrite drop_0. apply take_ge. subst c r len. nia.
  - apply Forall_fmap, Forall_forall. intros k Hk.
    apply elem_of_seq in Hk. cbn. rewrite length_take, length_drop.
    subst c r len. nia.
  - intros i g Hg Hlast. rewrite length_fmap, length_seq in Hlast.
    rewrite list_lookup_fmap in Hg.
    destruct (seq 0 c !! i) as [k|] eqn:Hk; [|done]. cbn in Hg.
    apply lookup_seq in Hk as [-> _]. injection Hg as <-.
    rewrite length_take, length_drop. subst c r len. nia.
  - rewrite length_fmap, length_seq. subst c. lia.
Qed.

(** ** File names *)


Lemma order_map_unfold :
  order_map = <["7" := 8]> (<["8" := 7]> (<["9" := 6]> (<["6" := 5]> (<["2" := 4]>
              (<["4" := 3]> (<["5" := 2]> (<["1" := 1]> (<["3" := 0]> ∅)))))))).
Proof. reflexivity. Qed.

Lemma order_map_lookup (k : string) (i : Z) :
  order_map !! k = Some i →
  ∃ c, k = String c EmptyString
       ∧ list_ascii_of_string custom_order !! Z.to_nat i = Some c
       ∧ 0 ≤ i < 9.
Proof.
  rewrite order_map_unfold. rewrite !lookup_insert_Some, lookup_empty.
  intros H.
  repeat (destruct H as [[<- <-]|[_ H]]; [eexists; split; [reflexivity|]; split; [reflexivity|lia]|]).
  done.
Qed.

Lemma order_map_digit (c : ascii) :
  c ∈ list_ascii_of_string custom_order → is_Some (order_map !! String c EmptyString).
Proof.
  intros H. cbn in H. rewrite !elem_of_cons in H. rewrite order_map_unfold.
  repeat (destruct H as [->|H]; [by eexists|]).
  by apply elem_of_nil in H.
Qed.

Lemma append_nil_l (s : string) : EmptyString +:+ s = s.
Proof. reflexivity. Qed.

Lemma append_cons (a : ascii) (s t : string) : String a s +:+ t = String a (s +:+ t).
Proof. reflexivity. Qed.

Lemma append_assoc (a b c : string) : (a +:+ b) +:+ c = a +:+ (b +:+ c).
Proof. induction a as [|x a IH]; [done|]. by rewrite !append_cons, IH. Qed.

Lemma rpartition_single (c a : ascii) :
  rpartition c (String a EmptyString)
  = if Ascii.eqb a c then Some (EmptyString, EmptyString) else None.
Proof. reflexivity. Qed.

(** A name whose stem is one character other than the separator has no
    separator at all. *)
Lemma splitext_stem_no_sep (f : string) (c : ascii) :
  (path.splitext f).1 = String c EmptyString → c ≠ "/"%char →
  rpartition "/" f = None.
Proof.
  intros Hstem Hc. unfold path.splitext in Hstem.
  destruct (rpartition "/" f) as [[pre post]|] eqn:E; [exfalso|done].
  assert (Hf : f ≠ String c EmptyString).
  { intros ->. rewrite rpartition_single in E.
    destruct (Ascii.eqb_spec c "/"); [done|discriminate]. }
  destruct (rpartition "." post) as [[pre' post']|].
  - destruct (all_chars (Ascii.eqb ".") pre'); cbn in Hstem; [done|].
    destruct pre as [|a pre].
    + rewrite !append_nil_l, append_cons in Hstem. injection Hstem as <- _. done.
    + rewrite !append_cons in Hstem. injection Hstem as _ H.
      destruct pre; [|done]. rewrite append_nil_l, append_cons in H. done.
  - done.
Qed.

Lemma rpartition_app_sep (c : ascii) (a f : string) :
  rpartition c f = None → rpartition c (a +:+ String c f) = Some (a, f).
Proof.
  intros Hf. induction a as [|x a IH].
  - rewrite append_nil_l. cbn. rewrite Hf. by rewrite Ascii.eqb_refl.
  - rewrite append_cons. cbn. by rewrite IH.
Qed.

Lemma str_endswith_sep (a : string) (c : ascii) :
  str_endswith a (String c EmptyString) = true →
  ∃ pre, a = pre +:+ String c EmptyString.
Proof.
  induction a as [|x a IH]; cbn; [done|].
  intros H. apply orb_true_iff in H as [H|H].
  - apply andb_true_iff in H as [H1 H2].
    apply String.eqb_eq in H2 as ->. apply Ascii.eqb_eq in H1 as ->.
    by exists EmptyString.
  - destruct (IH H) as [pre ->]. by exists (String x pre).
Qed.

Lemma basename_join (folder f : string) :
  rpartition "/" f = None → path.basename (path.join folder f) = f.
Proof.
  intros Hf. unfold path.join, path.basename.
  assert (Hjoin : (if (String.eqb folder "" || str_endswith folder "/")%bool
                   then folder +:+ f else folder +:+ "/" +:+ f)
                  = f ∨ ∃ pre, (if (String.eqb folder "" || str_endswith folder "/")%bool
                                then folder +:+ f else folder +:+ "/" +:+ f)
                               = pre +:+ String "/" f).
  { destruct (String.eqb_spec folder "") as [->|_]; cbn [orb]; [by left|].
    destruct (str_endswith folder "/") eqn:E; right.
    - apply str_endswith_sep in E as [pre ->]. exists pre.
      by rewrite append_assoc, append_cons, append_nil_l.
    - exists folder. by rewrite append_cons, append_nil_l. }
  assert (Hhead : match f with
                  | String "/" _ => f
                  | _ => if (String.eqb folder "" || str_endswith folder "/")%bool
                         then folder +:+ f else folder +:+ "/" +:+ f
                  end
                  = if (String.eqb folder "" || str_endswith folder "/")%bool
                    then folder +:+ f else folder +:+ "/" +:+ f).
  { destruct f as [|a f']; [done|].
    destruct (Ascii.eqb_spec a "/") as [->|Hne].
    - cbn in Hf. by destruct (rpartition "/" f') as [[??]|].
    - destruct a as [[] [] [] [] [] [] [] []]; try done. }
  rewrite Hhead.
  destruct Hjoin as [->|[pre ->]].
  - by rewrite Hf.
  - by rewrite rpartition_app_sep.
Qed.

(** The sort key of a selected file exists: it is the position of the
    digit that is the stem of the name. *)
Lemma poster_key_join (folder f : string) (i : Z) :
  order_map !! (path.splitext f).1 = Some i →
  poster_key (path.join folder f) = Ret i ∧ priority (path.join folder f) = i.
Proof.
  intros Hi.
  destruct (order_map_lookup _ _ Hi) as (c & Hstem & Hc & Hrange).
  assert (Hsep : c ≠ "/"%char).
  { intros ->. rewrite Hstem in Hi. by vm_compute in Hi. }
  pose proof (splitext_stem_no_sep f c Hstem Hsep) as Hf.
  unfold poster_key, priority, dict_get. rewrite basename_join by done.
  by rewrite Hi.
Qed.

(** ** The selection of the covers *)

Section Listing.
Context {K : Imaging} {World : Type} {os : OS World}.

(** The comprehension keeps, in order, entries that pass the name test
    (those that [isfile] accepts among them), and logs nothing. *)
Lemma filter_poster_names (poster_folder : string) (entries : list string) :
  ∀ s : State World,
  ∃ names s',
    filter_M (λ f,
        is_file ← ask (os_path_isfile (path.join poster_folder f));
        mret (is_file && is_poster_name f)) entries s
    = (Ret names, s')
    ∧ sublist names entries
    ∧ Forall (λ f, is_poster_name f = true) names
    ∧ log s' = log s.
Proof.
  induction entries as [|f entries IH]; intros s.
  - exists [], s. cbn. split_and!; done.
  - cbn [filter_M]. rewrite run_bind, run_bind. unfold ask at 1.
    destruct (os_path_isfile (path.join poster_folder f) (world s)) as [b w] eqn:Hb.
    cbn [mret M_ret]. rewrite run_bind.
    destruct (IH (mkState w (log s))) as (names & s' & Hrun & Hsub & Hall & Hlog).
    rewrite Hrun. cbn [mret M_ret].
    destruct (b && is_poster_name f) eqn:Hkeep.
    + exists (f :: names), s'. split_and!; try done.
      * by apply sublist_skip.
      * constructor; [|done]. by apply andb_true_iff in Hkeep as [_ ?].
    + exists names, s'. split_and!; try done. by apply sublist_cons.
Qed.
End Listing.

Section Selection.
Context {K : Imaging} {World : Type} {os : OS World}.

(** What [list_poster_files] returns when the directory can be listed:
    the sorted paths of entries that pass the name test. *)
Lemma list_poster_files_run (poster_folder : string) (s : State World)
    (entries : list string) (w : World) :
  os_listdir poster_folder (world s) = (Ret entries, w) →
  ∃ names s',
    list_poster_files poster_folder s
    = (Ret (sort_by priority (path.join poster_folder <$> names)), s')
    ∧ sublist names entries
    ∧ Forall (λ f, is_poster_name f = true) names
    ∧ log s' = log s.
Proof.
  intros Hls. unfold list_poster_files.
  rewrite run_bind. unfold call at 1. rewrite Hls.
  destruct (filter_poster_names poster_folder entries (mkState w (log s)))
    as (names & s' & Hrun & Hsub & Hall & Hlog).
  rewrite run_bind, Hrun. exists names, s'.
  split_and!; try done.
  unfold lift. f_equal. apply sorted_by_key_total.
  apply Forall_fmap. eapply Forall_impl; [exact Hall|].
  intros f Hf. cbn. unfold is_poster_name in Hf.
  apply andb_true_iff in Hf as [_ Hf]. apply bool_decide_eq_true in Hf as [i Hi].
  destruct (poster_key_join poster_folder f i Hi) as [-> ->]. done.
Qed.

(** The loop over the groups with its [break] runs the body on the
    first [cols] groups and on no other. *)
Lemma for_each_until_take {A B} (cols : Z) (body : Z → A → B → M World B)
    (xs : list A) :
  ∀ (start : Z) (acc : B) (s : State World),
  for_each_until (λ i, cols <=? i) (zip (seqZ start (Z.of_nat (length xs))) xs) acc body s
  = for_each (take (Z.to_nat (cols - start))
                (zip (seqZ start (Z.of_nat (length xs))) xs))
      acc (λ '(i, x) a, body i x a) s.
Proof.
  induction xs as [|x xs IH]; intros start acc s.
  { cbn [length]. rewrite seqZ_nil by done. cbn. by rewrite take_nil. }
  rewrite length_cons, Nat2Z.inj_succ, seqZ_cons by lia.
  rewrite Z.pred_succ. cbn [zip zip_with for_each_until].
  destruct (cols <=? start) eqn:E.
  - replace (Z.to_nat (cols - start)) with 0%nat by lia. done.
  - replace (Z.to_nat (cols - start)) with (S (Z.to_nat (cols - Z.succ start))) by lia.
    cbn [take for_each]. rewrite !run_bind.
    destruct (body start x acc s) as [[acc'|e] s']; [|done].
    apply IH.
Qed.
End Selection.

Lemma is_poster_name_digit (f : string) :
  is_poster_name f = true → priority_digit f.
Proof.
  intros Hf. apply andb_true_iff in Hf as [_ Hf].
  apply bool_decide_eq_true in Hf as [i Hi].
  destruct (order_map_lookup _ _ Hi) as (c & Hstem & Hc & _).
  exists c. split; [|done]. by eapply list_elem_of_lookup_2.
Qed.

(** A filter that keeps nothing. *)
Lemma filter_nil_Forall {A} (P : A → Prop) `{∀ x, Decision (P x)} (l : list A) :
  filter P l = [] ↔ Forall (λ x, ¬ P x) l.
Proof.
  induction l as [|x l IH]; [by split; [constructor|]|].
  rewrite filter_cons, Forall_cons. destruct (decide (P x)); [|tauto].
  split; [done|]. tauto.
Qed.

(** ** The parts of the workflow *)

Section WorkflowParts.
Context {K : Imaging} {World : Type} {os : OS World} {config : Config}.

(** The comprehension of lines 680-687 asks [isfile] of every entry, in
    the order of the listing, and keeps the entries that are files and
    pass the name test: no more, no fewer.  It logs nothing. *)
Lemma filter_poster_names_exact (poster_folder : string) (entries : list string) :
  ∀ s : State World,
  ∃ files s',
    filter_M (λ f, ask (os_path_isfile (path.join poster_folder f))) entries s
    = (Ret files, s')
    ∧ filter_M (λ f,
          is_file ← ask (os_path_isfile (path.join poster_folder f));
          mret (is_file && is_poster_name f)) entries s
      = (Ret (filter (λ f, is_poster_name f = true) files), s')
    ∧ sublist files entries
    ∧ log s' = log s.
Proof.
  induction entries as [|f entries IH]; intros s.
  - exists [], s. by split_and!.
  - cbn [filter_M]. rewrite run_ask, run_bind_assoc, run_ask, run_ret.
    set (b := (os_path_isfile (path.join poster_folder f) (world s)).1).
    set (s1 := mkState _ (log s)).
    destruct (IH s1) as (files & s' & Hfiles & Hnames & Hsub & Hlog).
    rewrite !run_bind, Hfiles, Hnames. cbn [mret M_ret].
    destruct b; cbn [andb].
    + exists (f :: files), s'. split; [done|]. split.
      * rewrite filter_cons. by destruct (is_poster_name f); [rewrite decide_True|rewrite decide_False].
      * split; [by apply sublist_skip|done].
    + exists files, s'. split; [done|]. split; [done|].
      split; [by apply sublist_cons|done].
Qed.

(** Lines 679-689 when the directory can be listed: the sorted paths of
    the regular files of the listing that pass the name test. *)
Lemma list_poster_files_exact (poster_folder : string) (s : State World)
    (entries : list string) (w : World) :
  os_listdir poster_folder (world s) = (Ret entries, w) →
  ∃ files s',
    filter_M (λ f, ask (os_path_isfile (path.join poster_folder f))) entries
      (mkState w (log s)) = (Ret files, s')
    ∧ list_poster_files poster_folder s
      = (Ret (sort_by priority
                (path.join poster_folder <$> filter (λ f, is_poster_name f = true) files)),
         s')
    ∧ sublist files entries
    ∧ log s' = log s.
Proof.
  intros Hls. unfold list_poster_files. rewrite (run_call_ret _ _ _ _ _ Hls).
  destruct (filter_poster_names_exact poster_folder entries (mkState w (log s)))
    as (files & s' & Hfiles & Hnames & Hsub & Hlog).
  exists files, s'. split; [done|]. split; [|done].
  rewrite run_bind, Hnames. unfold lift. f_equal. apply sorted_by_key_total.
  apply Forall_fmap, Forall_forall. intros f Hf. cbn.
  apply list_elem_of_filter in Hf as [Hf _]. unfold is_poster_name in Hf.
  apply andb_true_iff in Hf as [_ Hf]. apply bool_decide_eq_true in Hf as [i Hi].
  destruct (poster_key_join poster_folder f i Hi) as [-> ->]. done.
Qed.

Lemma bind_ext {A B} (m : M World A) (f g : A → M World B) (s : State World) :
  (∀ a s1, f a s1 = g a s1) → (m ≫= f) s = (m ≫= g) s.
Proof. intros H. rewrite !run_bind. by destruct (m s) as [[a|e] s1]. Qed.

(** The body is [workflow_prepare], the selection and the columns, and
    [workflow_finish]. *)
Lemma workflow_body_parts (name : string) (s : State World) :
  workflow_body name s
  = (gradient_bg ← workflow_prepare name;
     poster_files ← list_poster_files (path.join POSTER_FOLDER name);
     match poster_files with
     | [] =>
         logger ERROR (MsgNoImages SERVER_NAME name (path.join POSTER_FOLDER name));;
         mret false
     | _ =>
         let poster_files := py_slice poster_files 0 (ROWS * COLS) in
         grouped_posters ← lift (group_posters poster_files ROWS);
         result ← for_each_until (λ col_index, COLS <=? col_index)
                    (enumerate grouped_posters) gradient_bg
                    (place_column name (columns_dir_of name));
         workflow_finish name poster_files result
     end) s.
Proof.
  unfold workflow_body, workflow_prepare. cbv zeta.
  rewrite run_bind_assoc. apply bind_ext. intros _ s1.
  rewrite run_bind_assoc. apply bind_ext. intros _ s2.
  rewrite run_bind_assoc. apply bind_ext. intros sampled s3.
  rewrite run_bind_assoc. apply bind_ext. intros [c1 c2] s4.
  rewrite run_bind_assoc. apply bind_ext. intros color1 s5.
  rewrite run_bind_assoc. apply bind_ext. intros color2 s6.
  rewrite run_bind_assoc. apply bind_ext. intros gradient_bg s7.
  rewrite run_bind_assoc. apply bind_ext. intros there s8.
  rewrite run_bind_assoc. apply bind_ext. intros _ s9.
  rewrite run_bind_assoc. apply bind_ext. intros _ s10.
  rewrite run_ret. reflexivity.
Qed.

(** [workflow_finish] answers [True] when it returns. *)
Lemma workflow_finish_true (name : string) (poster_files : list string)
    (result : Image) :
  yields (workflow_finish name poster_files result) (λ b, b = true).
Proof.
  unfold workflow_finish. cbv zeta.
  eapply yields_bind; [apply yields_any|]. intros random_color _.
  destruct (library_titles name) as [library_ch_name library_eng_name].
  eapply yields_bind; [apply yields_any|]. intros result0 _.
  eapply yields_bind; [apply yields_any|]. intros result1 _.
  eapply yields_bind; [apply yields_any|]. intros _ _.
  eapply yields_bind; [apply yields_any|]. intros _ _.
  by apply yields_ret.
Qed.

(** What the body has done when it returns: an answer [False] comes
    from line 696, after the listing gave no cover and the error of
    line 693 was logged; an answer [True] comes after a listing that
    gave a cover. *)
Lemma workflow_body_returns (name : string) (s : State World) (b : bool)
    (s' : State World) :
  workflow_body name s = (Ret b, s') →
  ∃ gradient_bg s1 poster_files s2,
    workflow_prepare name s = (Ret gradient_bg, s1)
    ∧ list_poster_files (path.join POSTER_FOLDER name) s1 = (Ret poster_files, s2)
    ∧ if b then poster_files ≠ []
      else poster_files = []
           ∧ s' = mkState (world s2)
                    (log s2 ++ [(ERROR, MsgNoImages SERVER_NAME name
                                          (path.join POSTER_FOLDER name))]).
Proof.
  intros Hrun. rewrite workflow_body_parts, run_bind in Hrun.
  destruct (workflow_prepare name s) as [[gradient_bg|e] s1]; [|done].
  rewrite run_bind in Hrun.
  destruct (list_poster_files _ s1) as [[poster_files|e] s2] eqn:Hlist; [|done].
  exists gradient_bg, s1, poster_files, s2. split; [done|]. split; [done|].
  destruct poster_files as [|f0 poster_files].
  - cbn in Hrun. injection Hrun as <- <-. done.
  - cbv zeta in Hrun. rewrite run_bind in Hrun.
    destruct (lift _ s2) as [[grouped_posters|e] s3]; [|done].
    rewrite run_bind in Hrun.
    destruct (for_each_until _ _ _ _ s3) as [[result|e] s4]; [|done].
    apply workflow_finish_true in Hrun as ->. done.
Qed.

End WorkflowParts.

(** C9.  When the workflow has come to the listing of the directory of
    the library and the directory can be listed, with a grid of
    [ROWS > 0] rows and [COLS >= 0] columns: of the listed entries it
    keeps the regular files whose name has a supported extension and, as
    its stem, a digit of the priority string "315426987" (all of them
    and no other), sorts their paths by the position of that digit in
    the string, cuts the sorted list to its first [ROWS * COLS] paths and
    cuts these into consecutive groups of [ROWS], the last one possibly
    shorter: at most [COLS] groups.  With no path it logs the error of
    line 693 and answers [False]; otherwise it places every group, in
    order, as one column, and goes on to the titles. *)
Theorem poster_selection {K : Imaging} {World : Type} {os : OS World}
    {config : Config} (name : string) (s : State World) (gradient_bg : Image)
    (s1 : State World) (entries : list string) (w : World) :
  let poster_folder := path.join POSTER_FOLDER name in
  0 < ROWS → 0 ≤ COLS →
  workflow_prepare name s = (Ret gradient_bg, s1) →
  os_listdir poster_folder (world s1) = (Ret entries, w) →
  ∃ files s2,
    filter_M (λ f, ask (os_path_isfile (path.join poster_folder f))) entries
      (mkState w (log s1)) = (Ret files, s2)
    ∧ sublist files entries
    ∧ let names := filter (λ f, is_poster_name f = true) files in
      let poster_files := sort_by priority (path.join poster_folder <$> names) in
      let selected := take (Z.to_nat (ROWS * COLS)) poster_files in
      Forall priority_digit names
      ∧ list_poster_files poster_folder s1 = (Ret poster_files, s2)
      ∧ poster_files ≡ₚ path.join poster_folder <$> names
      ∧ StronglySorted (λ x y, priority x ≤ priority y) poster_files
      ∧ Forall (λ x, ∃ c,
                  list_ascii_of_string custom_order !! Z.to_nat (priority x) = Some c
                  ∧ (path.splitext (path.basename x)).1 = String c EmptyString)
               poster_files
      ∧ py_slice poster_files 0 (ROWS * COLS) = selected
      ∧ ∃ grouped_posters,
          group_posters selected ROWS = Ret grouped_posters
          ∧ concat grouped_posters = selected
          ∧ Forall (λ g, 0 < Z.of_nat (length g) ≤ ROWS) grouped_posters
          ∧ (∀ i g, grouped_posters !! i = Some g →
                    (S i < length grouped_posters)%nat → Z.of_nat (length g) = ROWS)
          ∧ Z.of_nat (length grouped_posters) ≤ COLS
          ∧ workflow_body name s
            = match poster_files with
              | [] =>
                  (Ret false,
                   mkState (world s2)
                     (log s2 ++ [(ERROR, MsgNoImages SERVER_NAME name poster_folder)]))
              | _ =>
                  (result ← for_each (enumerate grouped_posters) gradient_bg
                              (λ '(col_index, column_posters) result,
                                 place_column name (columns_dir_of name) col_index
                                   column_posters result);
                   workflow_finish name selected result) s2
              end.
Proof.
  intros poster_folder Hrows Hcols Hprep Hls. subst poster_folder.
  set (poster_folder := path.join POSTER_FOLDER name) in *.
  destruct (list_poster_files_exact poster_folder s1 entries w Hls)
    as (files & s2 & Hfiles & Hrun & Hsub & _).
  exists files, s2. split; [done|]. split; [done|]. cbv zeta.
  set (names := filter (λ f, is_poster_name f = true) files) in *.
  set (poster_files := sort_by priority (path.join poster_folder <$> names)) in *.
  assert (Hall : Forall (λ f, is_poster_name f = true) names).
  { apply Forall_forall. intros f Hf. by apply list_elem_of_filter in Hf as [Hf _]. }
  split.
  { eapply Forall_impl; [exact Hall|]. intros f Hf. by apply is_poster_name_digit. }
  split; [done|]. split; [apply sort_by_perm|]. split; [apply sort_by_sorted|]. split.
  { subst poster_files. rewrite sort_by_perm. apply Forall_fmap.
    eapply Forall_impl; [exact Hall|].
    intros f Hf. cbn. apply andb_true_iff in Hf as [_ Hf].
    apply bool_decide_eq_true in Hf as [i Hi].
    destruct (order_map_lookup _ _ Hi) as (c & Hstem & Hc & _).
    destruct (poster_key_join poster_folder f i Hi) as [_ Hp].
    assert (Hsep : c ≠ "/"%char).
    { intros ->. rewrite Hstem in Hi. by vm_compute in Hi. }
    exists c. rewrite Hp. split; [done|].
    by rewrite basename_join by by eapply splitext_stem_no_sep. }
  assert (Hmax : 0 ≤ ROWS * COLS) by nia.
  assert (Hcut : py_slice poster_files 0 (ROWS * COLS)
                 = take (Z.to_nat (ROWS * COLS)) poster_files)
    by by apply py_slice_prefix.
  split; [done|].
  set (selected := take (Z.to_nat (ROWS * COLS)) poster_files) in *.
  assert (Hlen : Z.of_nat (length selected) ≤ ROWS * COLS).
  { subst selected. rewrite length_take.
    etrans; [apply Nat2Z.inj_le, Nat.le_min_l|]. by rewrite Z2Nat.id. }
  destruct (group_posters_shape selected ROWS Hrows)
    as (groups & Hg & Hconcat & Hshape & Hfull & Hcount).
  assert (Hfew : Z.of_nat (length groups) ≤ COLS).
  { rewrite Hcount. apply Z.lt_succ_r, Z.div_lt_upper_bound; [lia|]. nia. }
  exists groups. split_and!; try done.
  rewrite workflow_body_parts, run_bind, Hprep, run_bind.
  fold poster_folder. rewrite Hrun. clearbody selected poster_files.
  destruct poster_files as [|f0 rest]; [reflexivity|].
  cbv zeta. rewrite Hcut, Hg, run_lift_ret.
  rewrite run_bind. unfold enumerate at 1. rewrite for_each_until_take.
  rewrite Z.sub_0_r, take_ge; [reflexivity|].
  rewrite length_zip, length_seqZ. lia.
Qed.

Lemma poster_selection_witness :
  ∃ gradient_bg s1 s2 grouped_posters,
    workflow_prepare (K := reference.kernel) (os := reference.system)
      (config := reference.settings) "Shows" (reference.start reference.disk)
    = (Ret gradient_bg, s1)
    ∧ list_poster_files (K := reference.kernel) (os := reference.system)
        "/app/poster/Shows" s1
      = (Ret (sort_by priority
                (path.join "/app/poster/Shows"
                   <$> ["2.jpg"; "9.jpg"; "1.JPG"; "3.jpeg"; "7.webp"])), s2)
    ∧ group_posters
        (take 9 (sort_by priority
                   (path.join "/app/poster/Shows"
                      <$> ["2.jpg"; "9.jpg"; "1.JPG"; "3.jpeg"; "7.webp"]))) 3
      = Ret grouped_posters
    ∧ Z.of_nat (length grouped_posters) ≤ 3
    ∧ workflow_body (K := reference.kernel) (os := reference.system)
        (config := reference.settings) "Shows" (reference.start reference.disk)
      = (result ← for_each (enumerate grouped_posters) gradient_bg
                    (λ '(col_index, column_posters) result,
                       place_column (K := reference.kernel) (os := reference.system)
                         (config := reference.settings) "Shows"
                         "/app/output/columns" col_index column_posters result);
         workflow_finish (K := reference.kernel) (os := reference.system)
           (config := reference.settings) "Shows"
           (take 9 (sort_by priority
                      (path.join "/app/poster/Shows"
                         <$> ["2.jpg"; "9.jpg"; "1.JPG"; "3.jpeg"; "7.webp"])))
           result) s2.
Proof.
  assert (Hworld : match workflow_prepare (K := reference.kernel)
                           (os := reference.system) (config := reference.settings)
                           "Shows" (reference.start reference.disk) with
                   | (Ret _, s1) => world s1 = reference.disk
                   | _ => False
                   end) by (vm_compute; reflexivity).
  destruct (workflow_prepare _ _) as [[gradient_bg|e] s1] eqn:Hprep;
    [|exfalso; exact Hworld].
  assert (Hls : os_listdir (OS := reference.system) "/app/poster/Shows" (world s1)
                = (Ret ["2.jpg"; "9.jpg"; "1.JPG"; "3.jpeg"; "7.webp"; "0.jpg"],
                   reference.disk))
    by (rewrite Hworld; reflexivity).
  destruct (poster_selection (K := reference.kernel) (os := reference.system)
              (config := reference.settings) "Shows" (reference.start reference.disk)
              gradient_bg s1 _ _ ltac:(reflexivity) ltac:(discriminate) Hprep Hls)
    as (files & s2 & Hfiles & _ & _ & Hrun & _ & _ & _ & _ & groups & Hg & _ & _ & _
        & Hcols & Hbody).
  assert (files = ["2.jpg"; "9.jpg"; "1.JPG"; "3.jpeg"; "7.webp"]) as ->.
  { change (filter_M _ _ _) with
      (filter_M (World := reference.World)
         (λ f, ask (os_path_isfile (OS := reference.system)
                      (path.join "/app/poster/Shows" f)))
         ["2.jpg"; "9.jpg"; "1.JPG"; "3.jpeg"; "7.webp"; "0.jpg"]
         (mkState reference.disk (log s1))) in Hfiles.
    cbv in Hfiles. by injection Hfiles as <- _. }
  exists gradient_bg, s1, s2, groups. split; [done|]. split; [exact Hrun|].
  split; [exact Hg|]. split; [exact Hcols|]. exact Hbody.
Defined.

(** On the reference disk: the five covers of "Shows" come out in the
    order of the priority string, and a two by two grid takes the first
    four of them in two columns. *)
Example poster_selection_example :
  (list_poster_files (K := reference.kernel) (os := reference.system)
     "/app/poster/Shows" (reference.start reference.disk)).1
  = Ret ["/app/poster/Shows/3.jpeg"; "/app/poster/Shows/1.JPG";
         "/app/poster/Shows/2.jpg"; "/app/poster/Shows/9.jpg";
         "/app/poster/Shows/7.webp"]
  ∧ group_posters (py_slice ["/app/poster/Shows/3.jpeg"; "/app/poster/Shows/1.JPG";
                             "/app/poster/Shows/2.jpg"; "/app/poster/Shows/9.jpg";
                             "/app/poster/Shows/7.webp"] 0 (2 * 2)) 2
    = Ret [["/app/poster/Shows/3.jpeg"; "/app/poster/Shows/1.JPG"];
           ["/app/poster/Shows/2.jpg"; "/app/poster/Shows/9.jpg"]].
Proof. split; reflexivity. Qed.

(** ** The colour sampler *)

Lemma held_counter_add (c d : rgba) (cnt : list (rgba * Z)) :
  held d (counter_add c cnt) = held d cnt + (if decide (c = d) then 1 else 0).
Proof.
  induction cnt as [|[c' n] cnt IH]; cbn [counter_add held fst snd].
  - destruct (decide (c = d)); lia.
  - destruct (decide (c' = c)) as [->|Hne]; cbn [held fst snd].
    + destruct (decide (c = d)); lia.
    + rewrite IH. destruct (decide (c' = d)), (decide (c = d)); lia.
Qed.

Lemma counter_add_keys (c : rgba) (cnt : list (rgba * Z)) :
  NoDup cnt.*1 → Forall (λ e, 0 < e.2) cnt →
  NoDup (counter_add c cnt).*1 ∧ Forall (λ e, 0 < e.2) (counter_add c cnt)
  ∧ ∀ d, d ∈ (counter_add c cnt).*1 ↔ d = c ∨ d ∈ cnt.*1.
Proof.
  induction cnt as [|[c' n] cnt IH]; cbn; intros Hnd Hpos.
  - split_and!.
    + apply NoDup_singleton.
    + by repeat constructor.
    + intros d. rewrite list_elem_of_singleton, elem_of_nil. tauto.
  - apply NoDup_cons in Hnd as [Hnotin Hnd]. apply Forall_cons in Hpos as [Hn Hpos].
    destruct (decide (c' = c)) as [->|Hne]; cbn.
    + split_and!.
      * by apply NoDup_cons.
      * constructor; [cbn in *; lia|done].
      * intros d. rewrite elem_of_cons. tauto.
    + destruct (IH Hnd Hpos) as (Hnd' & Hpos' & Hkeys). split_and!.
      * apply NoDup_cons. split; [|done]. rewrite Hkeys. intros [?|?]; congruence.
      * by constructor.
      * intros d. rewrite !elem_of_cons, Hkeys. tauto.
Qed.

(** [Counter]: one entry per colour that occurs, holding how often. *)
Lemma Counter_spec (l : list rgba) :
  NoDup (Counter l).*1 ∧ Forall (λ e, 0 < e.2) (Counter l)
  ∧ (∀ d, held d (Counter l) = occurrences d l)
  ∧ (∀ d, d ∈ (Counter l).*1 ↔ d ∈ l).
Proof.
  unfold Counter. induction l as [|c l IH] using rev_ind.
  - cbn. split_and!; [constructor|constructor|done|done].
  - rewrite foldl_app. cbn [foldl].
    destruct IH as (Hnd & Hpos & Hheld & Hkeys).
    destruct (counter_add_keys c _ Hnd Hpos) as (Hnd' & Hpos' & Hkeys').
    split_and!; try done.
    + intros d. rewrite held_counter_add, Hheld. unfold occurrences.
      rewrite filter_app, length_app, filter_cons, filter_nil.
      destruct (decide (c = d)); cbn [length]; lia.
    + intros d. rewrite Hkeys', Hkeys, elem_of_app, list_elem_of_singleton. tauto.
Qed.

Lemma held_entry (d : rgba) (n : Z) (cnt : list (rgba * Z)) :
  NoDup cnt.*1 → (d, n) ∈ cnt → held d cnt = n.
Proof.
  induction cnt as [|[c m] cnt IH]; cbn [held fst snd fmap list_fmap];
    intros Hnd Hin; [by apply elem_of_nil in Hin|].
  apply NoDup_cons in Hnd as [Hnotin Hnd].
  assert (Hz : ∀ k, k ∉ cnt.*1 → held k cnt = 0).
  { clear. intros k. induction cnt as [|[c m] cnt IH]; cbn [held fst snd fmap list_fmap];
      [done|].
    rewrite not_elem_of_cons. intros [Hne Hk]. rewrite decide_False by done. by apply IH. }
  apply elem_of_cons in Hin as [E|Hin].
  - injection E as <- <-. rewrite decide_True by done. rewrite Hz by done. lia.
  - rewrite decide_False.
    + by apply IH.
    + intros ->. apply Hnotin. apply list_elem_of_fmap. by exists (d, n).
Qed.

Lemma occurrences_two (c d : rgba) (l : list rgba) :
  c ≠ d → occurrences c l + occurrences d l ≤ Z.of_nat (length l).
Proof.
  intros Hne. unfold occurrences. induction l as [|p l IH]; [cbn; lia|].
  rewrite !filter_cons.
  destruct (decide (p = c)) as [E1|E1], (decide (p = d)) as [E2|E2];
    cbn [length]; try lia. congruence.
Qed.

Lemma occurrences_pos (c : rgba) (l : list rgba) : c ∈ l ↔ 0 < occurrences c l.
Proof.
  unfold occurrences. split.
  - intros Hin. assert (c ∈ filter (λ p, p = c) l) by by apply list_elem_of_filter.
    destruct (filter _ l); [by apply elem_of_nil in H|]. cbn. lia.
  - intros Hpos. destruct (filter (λ p, p = c) l) as [|p m] eqn:E; [cbn in Hpos; lia|].
    assert (Hp : p ∈ filter (λ p, p = c) l) by (rewrite E; left).
    apply list_elem_of_filter in Hp as [-> ?]. done.
Qed.

(** The first entry of a sorted list has the least key. *)
Lemma sort_by_head_least {A} (key : A → Z) (l : list A) (x y : A) (rest : list A) :
  sort_by key l = x :: rest → y ∈ l → key x ≤ key y.
Proof.
  intros Hs Hy. pose proof (sort_by_sorted key l) as Hsorted.
  rewrite <- (sort_by_perm key l), Hs in Hy. rewrite Hs in Hsorted.
  apply StronglySorted_inv in Hsorted as [_ Hall].
  apply elem_of_cons in Hy as [->|Hy]; [lia|].
  rewrite Forall_forall in Hall. by apply Hall.
Qed.

(** When one colour fills more than half of a population in which some
    other colour occurs, it is the first of the two colours returned. *)
Lemma dominant_colors_majority (pop : list rgba) (c c' : rgba) :
  Z.of_nat (length pop) < 2 * occurrences c pop →
  c' ∈ pop → c' ≠ c →
  ∃ second,
    dominant_colors pop
    = Ret (PyTuple [py_tuple_of_color (tuple4 c); py_tuple_of_color (tuple4 second)]).
Proof.
  intros Hmaj Hc' Hne.
  destruct (Counter_spec pop) as (Hnd & Hpos & Hheld & Hkeys).
  assert (Hc : c ∈ pop).
  { apply occurrences_pos. pose proof (Nat2Z.is_nonneg (length pop)). lia. }
  unfold dominant_colors. destruct pop as [|p0 pop0] eqn:Epop; [by apply elem_of_nil in Hc|].
  rewrite <- Epop in *. clear Epop p0 pop0.
  unfold most_common. set (cnt := Counter pop) in *.
  set (sorted := sort_by (λ e, - e.2) cnt).
  assert (Hperm : sorted ≡ₚ cnt) by apply sort_by_perm.
  (* two keys, so two entries *)
  assert (Hentry : ∀ d, d ∈ pop → (d, occurrences d pop) ∈ cnt).
  { intros d Hd. apply Hkeys in Hd. apply list_elem_of_fmap in Hd as ([d' n] & -> & Hin).
    cbn. rewrite <- Hheld. by rewrite (held_entry d' n cnt Hnd Hin). }
  destruct sorted as [|e1 [|e2 rest]] eqn:Es.
  - apply Permutation_nil_l in Hperm. pose proof (Hentry c Hc) as H.
    rewrite <- Hperm in H. by apply elem_of_nil in H.
  - exfalso. pose proof (Hentry c Hc) as H1. pose proof (Hentry c' Hc') as H2.
    rewrite <- Hperm in H1, H2. apply list_elem_of_singleton in H1, H2. congruence.
  - cbn. exists e2.1. do 4 f_equal.
    destruct e1 as [d n]. cbn.
    assert (Hd : (d, n) ∈ cnt) by (rewrite <- Hperm; left).
    assert (Hn : n = occurrences d pop).
    { rewrite <- Hheld. symmetry. by apply held_entry. }
    pose proof (sort_by_head_least (λ e, - e.2) cnt (d, n) (c, occurrences c pop)
                  (e2 :: rest) Es (Hentry c Hc)) as Hle.
    cbn in Hle. destruct (decide (d = c)) as [->|Hdc]; [done|].
    pose proof (occurrences_two c d pop (not_eq_sym Hdc)). lia.
Qed.

(** A population of one colour: the second index fails. *)
Lemma dominant_colors_uniform (c : rgba) (n : nat) :
  dominant_colors (replicate (S n) c) = Raise IndexError.
Proof.
  unfold dominant_colors. cbn [replicate].
  assert (E : Counter (c :: replicate n c) = [(c, Z.of_nat (S n))]).
  { unfold Counter. cbn [foldl counter_add].
    assert (G : ∀ m k, 0 < k →
              foldl (λ cnt c0, counter_add c0 cnt) [(c, k)] (replicate m c)
              = [(c, k + Z.of_nat m)]).
    { induction m as [|m IH]; intros k Hk; cbn [replicate foldl counter_add].
      - by rewrite Z.add_0_r.
      - rewrite decide_True by done. rewrite IH by lia. do 2 f_equal. lia. }
    rewrite G by lia. do 2 f_equal. lia. }
  rewrite E. reflexivity.
Qed.

(** The brightness test on integers: between 30 and 220 says that the
    sum of the channels is between 90 and 660. *)
Lemma brightness_dark (r g b : Z) :
  Qle_bool 30 (brightness r g b) = (90 <=? r + g + b).
Proof.
  apply eq_true_iff_eq. rewrite Qle_bool_iff, Z.leb_le.
  unfold brightness, Qle, Qdiv, Qmult, Qinv, inject_Z. cbn. lia.
Qed.

Lemma brightness_bright (r g b : Z) :
  Qle_bool (brightness r g b) 220 = (r + g + b <=? 660).
Proof.
  apply eq_true_iff_eq. rewrite Qle_bool_iff, Z.leb_le.
  unfold brightness, Qle, Qdiv, Qmult, Qinv, inject_Z. cbn. lia.
Qed.

(** A colour that the filter of lines 585-593 keeps. *)
Lemma filter_pixels_uniform (c : rgba) (n : nat) :
  200 ≤ alpha c → 90 ≤ red c + green c + blue c ≤ 660 →
  filter_pixels (replicate n c) = replicate n (Px (red c) (green c) (blue c) 255).
Proof.
  intros Ha Hb. destruct c as [r g b a]. cbn in *.
  induction n as [|n IH]; cbn [replicate filter_pixels]; [done|].
  assert ((a <? 200) = false) as -> by lia.
  rewrite brightness_dark, brightness_bright.
  assert ((90 <=? r + g + b) = true) as -> by lia.
  assert ((r + g + b <=? 660) = true) as -> by lia.
  cbn [negb orb]. by rewrite IH.
Qed.

Lemma getdata_elem (img : Image) (p : rgba) :
  p ∈ getdata img ↔
  ∃ x y, 0 ≤ x < im_width img ∧ 0 ≤ y < im_height img ∧ p = im_px img x y.
Proof.
  unfold getdata. rewrite list_elem_of_bind. split.
  - intros (y & Hp & Hy). apply list_elem_of_fmap in Hp as (x & -> & Hx).
    apply elem_of_seqZ in Hx, Hy. exists x, y. split_and!; [lia..|done].
  - intros (x & y & Hx & Hy & ->). exists y. split.
    + apply list_elem_of_fmap. exists x. split; [done|]. apply elem_of_seqZ. lia.
    + apply elem_of_seqZ. lia.
Qed.

Lemma uniform_replicate {A} (c : A) (l : list A) :
  Forall (λ p, p = c) l → l = replicate (length l) c.
Proof. induction 1 as [|p l -> _ IH]; cbn; [done|]. by f_equal. Qed.

Section SamplerFacts.
Context {K : Imaging} {World : Type} {os : OS World}.

(** [get_poster_primary_color] returns on every path and in every
    world: what the body raises, the handler turns into the default. *)
Lemma get_poster_primary_color_total (image_path : string) (s : State World) :
  ∃ v s', get_poster_primary_color image_path s = (Ret v, s').
Proof.
  unfold get_poster_primary_color.
  match goal with |- context [try_except ?m ?h] => set (body := m) end.
  unfold try_except. destruct (body s) as [[v|e] s']; [by eauto|].
  eexists _, _. reflexivity.
Qed.

(** When the image cannot be opened, the default is returned and the
    error is logged. *)
Lemma get_poster_primary_color_unreadable (image_path : string) (s : State World)
    (e : exn) (w : World) :
  Image_open image_path (world s) = (Raise e, w) →
  get_poster_primary_color image_path s
  = (Ret default_color, mkState w (log s ++ [(ERROR, MsgPrimaryColorFailed e)])).
Proof.
  intros Hopen. unfold get_poster_primary_color, try_except.
  rewrite run_bind. unfold call at 1. rewrite Hopen. reflexivity.
Qed.

(** What the sampler returns for an image that opens, in terms of the
    pixels of its resized RGBA form. *)
Lemma get_poster_primary_color_opened (image_path : string) (s : State World)
    (img : Image) (w : World) :
  Image_open image_path (world s) = (Ret img, w) →
  get_poster_primary_color image_path s
  = match dominant_colors
            (population (getdata (convert_RGBA
               {| im_mode := im_mode img; im_width := 100; im_height := 150;
                  im_px := lanczos_px img 100 150 |}))) with
    | Ret v => (Ret v, mkState w (log s))
    | Raise e =>
        (Ret default_color, mkState w (log s ++ [(ERROR, MsgPrimaryColorFailed e)]))
    end.
Proof.
  intros Hopen. unfold get_poster_primary_color, try_except.
  rewrite run_bind. unfold call at 1. rewrite Hopen.
  rewrite run_bind. unfold lift at 1, resize.
  change ((100 <? 1) || (150 <? 1)) with false. cbv iota.
  set (small := mkImage (im_mode img) 100 150 _).
  assert (E : getdata (if decide (im_mode small ≠ RGBA) then convert_RGBA small else small)
              = getdata (convert_RGBA small)).
  { destruct (decide (im_mode small ≠ RGBA)) as [|Hm]; [done|].
    apply dec_stable in Hm. unfold getdata. cbn.
    unfold view. by rewrite Hm. }
  rewrite E. unfold lift.
  destruct (dominant_colors _); reflexivity.
Qed.
End SamplerFacts.

(** C8, where the code departs from it.  An image whose resized form is
    of one colour, a colour that the filter keeps: that colour is the
    whole population, yet the sampler returns the default tuple
    [(150, 100, 50, 255)] and logs an [IndexError]; its first component
    is the integer 150, not the colour. *)
Theorem primary_color_of_uniform_image {K : Imaging} {World : Type} {os : OS World}
    (image_path : string) (s : State World) (img : Image) (w : World) (c : rgba) :
  Image_open image_path (world s) = (Ret img, w) →
  (∀ x y, 0 ≤ x < 100 → 0 ≤ y < 150 →
     view (mkImage (im_mode img) 100 150 (lanczos_px img 100 150)) x y = c) →
  alpha c = 255 → 90 ≤ red c + green c + blue c ≤ 660 →
  ∃ n,
    population (getdata (convert_RGBA
                 (mkImage (im_mode img) 100 150 (lanczos_px img 100 150))))
    = replicate (S n) c
    ∧ Z.of_nat (S n) < 2 * occurrences c (replicate (S n) c)
    ∧ get_poster_primary_color image_path s
      = (Ret (PyTuple [PyInt 150; PyInt 100; PyInt 50; PyInt 255]),
         mkState w (log s ++ [(ERROR, MsgPrimaryColorFailed IndexError)])).
Proof.
  intros Hopen Huni Ha Hb.
  set (small := mkImage (im_mode img) 100 150 (lanczos_px img 100 150)) in *.
  assert (Hall : Forall (λ p, p = c) (getdata (convert_RGBA small))).
  { apply Forall_forall. intros p Hp. apply getdata_elem in Hp as (x & y & Hx & Hy & ->).
    cbn. by apply Huni. }
  assert (Hne : c ∈ getdata (convert_RGBA small)).
  { apply getdata_elem. exists 0, 0. cbn. split_and!; [lia..|]. symmetry. apply Huni; lia. }
  apply uniform_replicate in Hall.
  destruct (length (getdata (convert_RGBA small))) as [|n] eqn:Elen.
  { rewrite Hall in Hne. by apply elem_of_nil in Hne. }
  assert (Hpop : population (getdata (convert_RGBA small)) = replicate (S n) c).
  { rewrite Hall. unfold population. rewrite filter_pixels_uniform by lia.
    destruct c as [r g b a]. cbn in Ha. subst a. done. }
  exists n. split; [done|]. split.
  - unfold occurrences.
    assert (E : filter (λ p, p = c) (replicate (S n) c) = replicate (S n) c).
    { generalize (S n). intros m. induction m as [|m IH]; [done|].
      cbn [replicate]. rewrite filter_cons, decide_True by done. by f_equal. }
    rewrite E, length_replicate. lia.
  - rewrite (get_poster_primary_color_opened image_path s img w Hopen).
    fold small. rewrite Hpop, dominant_colors_uniform. reflexivity.
Qed.

Lemma primary_color_of_uniform_image_witness :
  ∃ n,
    population (getdata (convert_RGBA
                 (mkImage RGB 100 150
                    (lanczos_px (Imaging := reference.kernel)
                       (reference.solid RGB 4 6 (Px 40 120 130 0)) 100 150))))
    = replicate (S n) (Px 40 120 130 255)
    ∧ Z.of_nat (S n) < 2 * occurrences (Px 40 120 130 255) (replicate (S n) (Px 40 120 130 255))
    ∧ get_poster_primary_color (K := reference.kernel) (os := reference.system)
        "/app/poster/Plain/2.jpg" (reference.start reference.disk)
      = (Ret (PyTuple [PyInt 150; PyInt 100; PyInt 50; PyInt 255]),
         mkState reference.disk
           (log (reference.start reference.disk)
            ++ [(ERROR, MsgPrimaryColorFailed IndexError)])).
Proof.
  apply (primary_color_of_uniform_image (K := reference.kernel) (os := reference.system)
           "/app/poster/Plain/2.jpg" (reference.start reference.disk)
           (reference.solid RGB 4 6 (Px 40 120 130 0)) reference.disk (Px 40 120 130 255));
    [reflexivity | intros; reflexivity | reflexivity | cbn; lia].
Defined.

(** The same image with a second colour in it: the claim holds. *)
Example primary_color_two_tone :
  (get_poster_primary_color (K := reference.kernel) (os := reference.system)
     "/app/poster/Shows/2.jpg" (reference.start reference.disk)).1
  = Ret (PyTuple [py_tuple_of_color [40; 120; 130; 255];
                  py_tuple_of_color [90; 60; 30; 255]]).
Proof. vm_compute. reflexivity. Qed.

(** ** Effects and invariants *)

Section Keeps.
Context {K : Imaging} {World : Type} {os : OS World}.
Variable Inv : World → Prop.

Lemma keeps_ret {A} (a : A) : keeps Inv (mret a : M World A).
Proof. by intros s. Qed.

Lemma keeps_lift {A} (r : result A) : keeps Inv (lift r : M World A).
Proof. by intros s. Qed.

Lemma keeps_raise {A} (e : exn) : keeps Inv (raise e : M World A).
Proof. by intros s. Qed.

Lemma keeps_logger (lvl : Level) (msg : LogMsg) :
  keeps Inv (logger lvl msg : M World ()).
Proof. by intros s. Qed.

Lemma keeps_call {A} (op : World → result A * World) :
  (∀ w, Inv w → Inv (op w).2) → keeps Inv (call op).
Proof.
  intros Hop s Hs. unfold call. specialize (Hop (world s) Hs).
  by destruct (op (world s)).
Qed.

Lemma keeps_ask {A} (op : World → A * World) :
  (∀ w, Inv w → Inv (op w).2) → keeps Inv (ask op).
Proof.
  intros Hop s Hs. unfold ask. specialize (Hop (world s) Hs).
  by destruct (op (world s)).
Qed.

Lemma keeps_bind {A B} (m : M World A) (f : A → M World B) :
  keeps Inv m → (∀ a, keeps Inv (f a)) → keeps Inv (m ≫= f).
Proof.
  intros Hm Hf s Hs. rewrite run_bind. specialize (Hm s Hs).
  destruct (m s) as [[a|e] s1]; [by apply Hf|done].
Qed.

Lemma keeps_try {A} (body : M World A) (handler : exn → M World A) :
  keeps Inv body → (∀ e, keeps Inv (handler e)) → keeps Inv (try_except body handler).
Proof.
  intros Hm Hh s Hs. unfold try_except. specialize (Hm s Hs).
  destruct (body s) as [[a|e] s1]; [done|by apply Hh].
Qed.

Lemma keeps_for_each {A B} (xs : list A) (body : A → B → M World B) :
  (∀ x acc, keeps Inv (body x acc)) → ∀ acc, keeps Inv (for_each xs acc body).
Proof.
  intros Hb. induction xs as [|x xs IH]; intros acc; cbn [for_each].
  - apply keeps_ret.
  - apply keeps_bind; [apply Hb|]. intros a. apply IH.
Qed.

Variable writes : string → Prop.
Hypothesis Inv_stable : stable writes Inv.

Lemma keeps_randint (a b : Z) : keeps Inv (randint a b).
Proof.
  unfold randint. destruct (b <? a); [apply keeps_raise|].
  apply keeps_bind; [|intros; apply keeps_ret].
  apply keeps_ask. apply Inv_stable.
Qed.

End Keeps.

(** A step that keeps the invariant can be passed over: the body fails
    when what follows the step fails in every state with the
    invariant. *)
Lemma ends_in_failure_bind {World A} (Inv : World → Prop)
    (m : M World A) (f : A → M World bool) (s : State World) :
  keeps Inv m → Inv (world s) →
  (∀ a s1, Inv (world s1) → ends_in_failure (f a s1)) →
  ends_in_failure ((m ≫= f) s).
Proof.
  intros Hm Hs Hf. rewrite run_bind. specialize (Hm s Hs).
  destruct (m s) as [[a|e] s1]; [by apply Hf|done].
Qed.

Section WorkflowFacts.
Context {K : Imaging} {World : Type} {os : OS World} {config : Config}.

(** What the handler at the top makes of the outcome of the body. *)
Lemma gen_poster_workflow_outcome (name : string) (s : State World) :
  gen_poster_workflow name s
  = match workflow_body name s with
    | (Ret b, s1) => (Ret b, s1)
    | (Raise e, s1) =>
        (Ret false,
         mkState (world s1) (log s1 ++ [(ERROR, MsgWorkflowFailed SERVER_NAME name e)]))
    end.
Proof.
  unfold gen_poster_workflow, try_except.
  destruct (workflow_body name s) as [[b|e] s1]; reflexivity.
Qed.

End WorkflowFacts.

(** C1.  [gen_poster_workflow] returns a boolean in every world and for
    every name; an exception that the body raises becomes the answer
    [False], after an error record; whenever the answer is [False], the
    last log record is an error.  When the workflow has come to the
    listing and no regular file of the directory of the library has a
    supported extension and a priority digit as its stem, the answer is
    [False] and the last record is the error of line 693; and the
    answer is [True] only if the workflow has listed the directory and
    found such a file in it. *)
Theorem workflow_never_raises {K : Imaging} {World : Type} {os : OS World}
    {config : Config} (name : string) (s : State World) :
  let poster_folder := path.join POSTER_FOLDER name in
  (∃ b s', gen_poster_workflow name s = (Ret b, s'))
  ∧ (∀ e s1, workflow_body name s = (Raise e, s1) →
       gen_poster_workflow name s
       = (Ret false,
          mkState (world s1)
            (log s1 ++ [(ERROR, MsgWorkflowFailed SERVER_NAME name e)])))
  ∧ (∀ s', gen_poster_workflow name s = (Ret false, s') →
       ∃ earlier msg, log s' = earlier ++ [(ERROR, msg)])
  ∧ (∀ gradient_bg s1 entries w files s2,
       workflow_prepare name s = (Ret gradient_bg, s1) →
       os_listdir poster_folder (world s1) = (Ret entries, w) →
       filter_M (λ f, ask (os_path_isfile (path.join poster_folder f))) entries
         (mkState w (log s1)) = (Ret files, s2) →
       Forall (λ f, is_poster_name f = false) files →
       gen_poster_workflow name s
       = (Ret false,
          mkState (world s2)
            (log s1 ++ [(ERROR, MsgNoImages SERVER_NAME name poster_folder)])))
  ∧ (∀ s', gen_poster_workflow name s = (Ret true, s') →
       ∃ gradient_bg s1 entries w files s2 f,
         workflow_prepare name s = (Ret gradient_bg, s1)
         ∧ os_listdir poster_folder (world s1) = (Ret entries, w)
         ∧ filter_M (λ f, ask (os_path_isfile (path.join poster_folder f))) entries
             (mkState w (log s1)) = (Ret files, s2)
         ∧ f ∈ entries ∧ f ∈ files ∧ is_poster_name f = true).
Proof.
  intros poster_folder. split_and!.
  - rewrite gen_poster_workflow_outcome.
    destruct (workflow_body name s) as [[b|e] s1]; eauto.
  - intros e s1 Hbody. by rewrite gen_poster_workflow_outcome, Hbody.
  - intros s' Hrun. rewrite gen_poster_workflow_outcome in Hrun.
    destruct (workflow_body name s) as [[b|e] s1] eqn:Hbody.
    + injection Hrun as -> ->.
      destruct (workflow_body_returns name s false s' Hbody)
        as (bg & s1 & files & s2 & _ & _ & _ & ->).
      by eexists _, _.
    + injection Hrun as <-. by eexists _, _.
  - intros gradient_bg s1 entries w files s2 Hprep Hls Hfiles Hnone.
    destruct (list_poster_files_exact poster_folder s1 entries w Hls)
      as (files' & s2' & Hfiles' & Hlist & _ & Hlog).
    rewrite Hfiles in Hfiles'. injection Hfiles' as <- <-.
    assert (Hnil : filter (λ f, is_poster_name f = true) files = []).
    { apply filter_nil_Forall. eapply Forall_impl; [exact Hnone|].
      intros f Hf. cbn. congruence. }
    rewrite Hnil in Hlist.
    rewrite gen_poster_workflow_outcome, workflow_body_parts, run_bind, Hprep, run_bind.
    fold poster_folder. rewrite Hlist. cbn [sort_by fmap list_fmap foldr].
    rewrite run_logger. cbn [mret M_ret log world]. by rewrite Hlog.
  - intros s' Hrun. rewrite gen_poster_workflow_outcome in Hrun.
    destruct (workflow_body name s) as [[b|e] s1'] eqn:Hbody; [|done].
    injection Hrun as -> ->.
    destruct (workflow_body_returns name s true s' Hbody)
      as (bg & s1 & poster_files & s2 & Hprep & Hlist & Hsome).
    fold poster_folder in Hlist.
    destruct (os_listdir poster_folder (world s1)) as [[entries|e] w] eqn:Hls.
    + destruct (list_poster_files_exact poster_folder s1 entries w Hls)
        as (files & s2' & Hfiles & Hlist' & Hsub & _).
      rewrite Hlist in Hlist'. injection Hlist' as -> <-.
      destruct (filter (λ f, is_poster_name f = true) files) as [|f names] eqn:Hnames;
        [done|].
      assert (Hf : f ∈ filter (λ f, is_poster_name f = true) files)
        by (rewrite Hnames; left).
      apply list_elem_of_filter in Hf as [Hname Hf].
      exists bg, s1, entries, w, files, s2, f. split_and!; try done.
      by eapply elem_of_sublist.
    + unfold list_poster_files in Hlist. rewrite run_bind in Hlist.
      unfold call at 1 in Hlist. by rewrite Hls in Hlist.
Qed.

Lemma workflow_never_raises_witness :
  (∃ s',
     gen_poster_workflow (K := reference.kernel) (os := reference.system)
       (config := reference.settings) "Hidden" (reference.start reference.disk)
     = (Ret false, s')
     ∧ ∃ earlier,
         log s' = earlier ++ [(ERROR, MsgNoImages "jellyfin" "Hidden" "/app/poster/Hidden")])
  ∧ (∃ gradient_bg s1 entries w f,
       workflow_prepare (K := reference.kernel) (os := reference.system)
         (config := reference.settings) "Shows" (reference.start reference.disk)
       = (Ret gradient_bg, s1)
       ∧ os_listdir (OS := reference.system) "/app/poster/Shows" (world s1)
         = (Ret entries, w)
       ∧ f ∈ entries ∧ is_poster_name f = true).
Proof.
  split.
  - assert (Hworld : match workflow_prepare (K := reference.kernel)
                             (os := reference.system) (config := reference.settings)
                             "Hidden" (reference.start reference.disk) with
                     | (Ret _, s1) => world s1 = reference.disk
                     | _ => False
                     end) by (vm_compute; reflexivity).
    destruct (workflow_prepare _ _) as [[gradient_bg|e] s1] eqn:Hprep;
      [|exfalso; exact Hworld].
    eexists. split.
    + apply (proj1 (proj2 (proj2 (proj2
               (workflow_never_raises (K := reference.kernel) (os := reference.system)
                  (config := reference.settings) "Hidden"
                  (reference.start reference.disk)))))
               gradient_bg s1 ["readme.txt"] reference.disk []
               (mkState reference.disk (log s1)) Hprep).
      * rewrite Hworld. reflexivity.
      * reflexivity.
      * constructor.
    + by eexists.
  - assert (Hanswer : (gen_poster_workflow (K := reference.kernel)
                         (os := reference.system) (config := reference.settings)
                         "Shows" (reference.start reference.disk)).1 = Ret true)
      by (vm_compute; reflexivity).
    destruct (gen_poster_workflow _ _) as [answer s'] eqn:Hrun.
    cbn [fst] in Hanswer. subst answer.
    destruct (proj2 (proj2 (proj2 (proj2
                (workflow_never_raises (K := reference.kernel) (os := reference.system)
                   (config := reference.settings) "Shows"
                   (reference.start reference.disk))))) s' Hrun)
      as (gradient_bg & s1 & entries & w & files & s2 & f & Hprep & Hls & _ & Hf & _ & Hname).
    exists gradient_bg, s1, entries, w, f.
    split; [exact Hprep|]. split; [exact Hls|]. split; [exact Hf|exact Hname].
Defined.

(** On the reference disk: the workflow of "Hidden" reaches the listing,
    finds no cover, logs the error of line 693 and answers [False]; the
    workflow of "Shows" answers [True] and writes its poster. *)
Example workflow_runs :
  (let '(r, s) := gen_poster_workflow (K := reference.kernel) (os := reference.system)
                    (config := reference.settings) "Hidden"
                    (reference.start reference.disk) in (r, log s))
  = (Ret false, [(INFO, MsgGenerating "jellyfin" "Hidden"); (INFO, MsgRule);
                 (ERROR, MsgNoImages "jellyfin" "Hidden" "/app/poster/Hidden")])
  ∧ (let '(r, s) := gen_poster_workflow (K := reference.kernel) (os := reference.system)
                      (config := reference.settings) "Shows"
                      (reference.start reference.disk) in
     (r, log s, reference.written (world s)))
    = (Ret true, [(INFO, MsgGenerating "jellyfin" "Shows"); (INFO, MsgRule);
                  (INFO, MsgSaved "jellyfin" "Shows" "/app/output/Shows.png")],
       ["/app/output/Shows.png"]).
Proof. split; vm_compute; reflexivity. Qed.

(** ** The fallback of the sampler *)

(** The fallback chain: when the brightness filter leaves nothing, the
    pixels with alpha above 100 are counted; when these are none
    either, the default is returned. *)
Lemma population_retry (pixels : list rgba) :
  filter_pixels pixels = [] →
  population pixels
  = (λ p, Px (red p) (green p) (blue p) 255) <$> filter (λ p, 100 < alpha p) pixels.
Proof. intros H. unfold population. by rewrite H. Qed.

Lemma dominant_colors_nothing : dominant_colors [] = Ret default_color.
Proof. reflexivity. Qed.

(** When one colour fills more than half of the population of the
    resized image and another colour occurs, the sampler returns a pair
    whose first component is that colour. *)
Lemma primary_color_of_majority {K : Imaging} {World : Type} {os : OS World}
    (image_path : string) (s : State World) (img : Image) (w : World) (c c' : rgba) :
  Image_open image_path (world s) = (Ret img, w) →
  let pop := population (getdata (convert_RGBA
               (mkImage (im_mode img) 100 150 (lanczos_px img 100 150)))) in
  Z.of_nat (length pop) < 2 * occurrences c pop → c' ∈ pop → c' ≠ c →
  ∃ second,
    get_poster_primary_color image_path s
    = (Ret (PyTuple [py_tuple_of_color (tuple4 c); py_tuple_of_color (tuple4 second)]),
       mkState w (log s)).
Proof.
  intros Hopen pop Hmaj Hin Hne.
  destruct (dominant_colors_majority pop c c' Hmaj Hin Hne) as [second Hd].
  exists second. rewrite (get_poster_primary_color_opened image_path s img w Hopen).
  fold pop. by rewrite Hd.
Qed.

(** C2, where the code departs from it.  [get_poster_primary_color]
    never raises, and it falls back as the claim says; but the default
    that it returns is the single tuple [(150, 100, 50, 255)], four
    integers and not two colours, and the unpacking [color1, color2 = ...]
    of line 657 raises [ValueError] on it: a library whose "2.jpg"
    cannot be opened gets no poster. *)
Theorem default_color_is_not_a_pair {K : Imaging} {World : Type} {os : OS World}
    {config : Config} (name : string) (s : State World) (e : exn) (w : World) :
  Image_open (path.join (path.join POSTER_FOLDER name) "2.jpg") (world s) = (Raise e, w) →
  (∀ image_path s0, ∃ v s', get_poster_primary_color image_path s0 = (Ret v, s'))
  ∧ get_poster_primary_color (path.join (path.join POSTER_FOLDER name) "2.jpg") s
    = (Ret default_color, mkState w (log s ++ [(ERROR, MsgPrimaryColorFailed e)]))
  ∧ default_color = PyTuple [PyInt 150; PyInt 100; PyInt 50; PyInt 255]
  ∧ unpack_pair default_color = Raise ValueError
  ∧ gen_poster_workflow name s
    = (Ret false,
       mkState w (log s ++ [(INFO, MsgGenerating SERVER_NAME name); (INFO, MsgRule);
                            (ERROR, MsgPrimaryColorFailed e);
                            (ERROR, MsgWorkflowFailed SERVER_NAME name ValueError)])).
Proof.
  intros Hopen. split_and!.
  - intros image_path s0. apply get_poster_primary_color_total.
  - by apply get_poster_primary_color_unreadable.
  - reflexivity.
  - reflexivity.
  - rewrite gen_poster_workflow_outcome. unfold workflow_body.
    rewrite run_bind. cbn [logger]. rewrite run_bind. cbn [logger].
    rewrite run_bind.
    rewrite (get_poster_primary_color_unreadable _ _ e w) by exact Hopen.
    rewrite run_bind. cbn [lift unpack_pair default_color py_tuple_of_color
                             fmap list_fmap unpack2 world log].
    rewrite <- !app_assoc. reflexivity.
Qed.

Lemma default_color_is_not_a_pair_witness :
  (∀ image_path s0, ∃ v s',
      get_poster_primary_color (K := reference.kernel) (os := reference.system)
        image_path s0 = (Ret v, s'))
  ∧ get_poster_primary_color (K := reference.kernel) (os := reference.system)
      (path.join (path.join "/app/poster" "Movies") "2.jpg")
      (reference.start reference.disk)
    = (Ret default_color,
       mkState reference.disk
         (log (reference.start reference.disk)
          ++ [(ERROR, MsgPrimaryColorFailed OSError)]))
  ∧ default_color = PyTuple [PyInt 150; PyInt 100; PyInt 50; PyInt 255]
  ∧ unpack_pair default_color = Raise ValueError
  ∧ gen_poster_workflow (K := reference.kernel) (os := reference.system)
      (config := reference.settings) "Movies" (reference.start reference.disk)
    = (Ret false,
       mkState reference.disk
         (log (reference.start reference.disk)
          ++ [(INFO, MsgGenerating "jellyfin" "Movies"); (INFO, MsgRule);
              (ERROR, MsgPrimaryColorFailed OSError);
              (ERROR, MsgWorkflowFailed "jellyfin" "Movies" ValueError)])).
Proof.
  apply (default_color_is_not_a_pair (K := reference.kernel) (os := reference.system)
           (config := reference.settings) "Movies" (reference.start reference.disk)
           OSError reference.disk).
  reflexivity.
Defined.

(** A cover that opens but is fully transparent: both filters leave
    nothing, the default is returned without a log record, and the
    workflow fails in the same way. *)
Example transparent_cover_fails :
  let ghost := reference.solid RGBA 4 6 (Px 0 0 0 0) in
  let w := reference.mkWorld [("/app/output", [])]
             [("/app/poster/Ghost/2.jpg", ghost)] 7 [] in
  get_poster_primary_color (K := reference.kernel) (os := reference.system)
    "/app/poster/Ghost/2.jpg" (reference.start w)
  = (Ret default_color, reference.start w)
  ∧ (let '(r, s) := gen_poster_workflow (K := reference.kernel) (os := reference.system)
                      (config := reference.settings) "Ghost" (reference.start w) in
     (r, log s))
    = (Ret false, [(INFO, MsgGenerating "jellyfin" "Ghost"); (INFO, MsgRule);
                   (ERROR, MsgWorkflowFailed "jellyfin" "Ghost" ValueError)]).
Proof. split; vm_compute; reflexivity. Qed.

(** ** The staging canvas of the rotation *)

Lemma sqrt_IZR_square (k : Z) : 0 ≤ k → sqrt (IZR (k * k)) = IZR k.
Proof.
  intros Hk. rewrite mult_IZR. apply sqrt_square. by apply IZR_le.
Qed.

(** The integer side is the integer part of one and a half diagonals. *)
Lemma rotation_canvas_size_bounds (w h : Z) :
  (IZR (rotation_canvas_size w h) <= rotation_diagonal_R w h
   < IZR (rotation_canvas_size w h) + 1)%R.
Proof.
  unfold rotation_canvas_size, rotation_diagonal_R.
  set (S := w ^ 2 + h ^ 2).
  assert (HS : 0 ≤ S) by (subst S; nia).
  set (r := Z.sqrt (9 * S)). set (k := r / 2).
  assert (Hr : r * r ≤ 9 * S < (r + 1) * (r + 1)).
  { pose proof (Z.sqrt_spec (9 * S)) as H. unfold Z.succ in H. apply H. lia. }
  assert (Hr0 : 0 ≤ r) by apply Z.sqrt_nonneg.
  assert (Hk : 2 * k ≤ r < 2 * k + 2).
  { subst k. pose proof (Z.mul_div_le r 2). pose proof (Z.mul_succ_div_gt r 2). lia. }
  assert (Hk0 : 0 ≤ k) by (subst k; apply Z.div_pos; lia).
  assert (H1 : (2 * k) * (2 * k) ≤ 9 * S) by nia.
  assert (H2 : 9 * S < (2 * k + 2) * (2 * k + 2)) by nia.
  apply IZR_le in H1, HS, Hk0. apply IZR_lt in H2.
  repeat (rewrite mult_IZR in H1 || rewrite plus_IZR in H1).
  repeat (rewrite mult_IZR in H2 || rewrite plus_IZR in H2).
  set (x := sqrt (IZR S)).
  assert (Hx : (0 <= x)%R) by apply sqrt_pos.
  assert (Hxx : (x * x = IZR S)%R) by (apply sqrt_sqrt; exact HS).
  rewrite <- Hxx in H1, H2. clearbody x k. clear -H1 H2 Hx Hk0.
  split; nra.
Qed.

Lemma rotation_canvas_size_exact (w h : Z) :
  rotation_canvas_size w h = R_int (rotation_diagonal_R w h).
Proof.
  pose proof (rotation_canvas_size_bounds w h) as [Hlo Hhi].
  unfold R_int. destruct (Rle_dec 0 (rotation_diagonal_R w h)) as [_|Hneg].
  - apply Int_part_spec. lra.
  - exfalso. apply Hneg. unfold rotation_diagonal_R.
    apply Rmult_le_pos; [apply sqrt_pos|lra].
Qed.

(** C6 on the reference settings (cells of 410 by 610, three rows,
    margin 22): the column canvas is 470 by 1934, the side of the
    staging canvas is 2985, less than one and a half diagonals, and the
    canvas pasted at 1287 is not centred, with 1287 pixels to its left
    and 1228 to its right. *)
Lemma staging_canvas_below_bound :
  staging_size (config := reference.settings) = 2985
  ∧ ¬ (IZR (staging_size (config := reference.settings))
       >= rotation_diagonal_R 470 1934)%R
  ∧ paste_x (config := reference.settings) = 1287
  ∧ ¬ centered 2985 1287 470.
Proof.
  split; [reflexivity|]. split; [|split; [reflexivity|unfold centered; lia]].
  change (staging_size (config := reference.settings)) with 2985.
  unfold rotation_diagonal_R. change (470 ^ 2 + 1934 ^ 2) with 3961256.
  assert (H : (1990 < sqrt 3961256)%R).
  { rewrite <- (sqrt_IZR_square 1990) by lia. apply sqrt_lt_1_alt.
    change (1990 * 1990) with 3960100. split; [|apply IZR_lt; lia].
    apply IZR_le. lia. }
  lra.
Qed.

(** C6, where the code departs from it.  In every configuration, with
    [w] by [h] the column canvas (cell width and column height plus the
    60 pixels of room for the shadows): the side of the staging canvas
    is the integer part of [1.5 * sqrt(w² + h²)], at most that value and
    within one pixel of it; and the column canvas is pasted 30 pixels
    right of and 30 pixels below the place that would centre it, since
    lines 822-823 subtract the cell width and the column height and not
    the size of the canvas.  The room on its right is 60 pixels less
    than the room on its left, up to the odd pixel, and the room below
    it 60 less than the room above: the canvas is not centred. *)
Theorem column_canvas_off_centre {config : Config} :
  let w := CELL_WIDTH + shadow_extra_width in
  let h := column_height + shadow_extra_height in
  staging_size = R_int (rotation_diagonal_R w h)
  ∧ (IZR staging_size <= 3 / 2 * sqrt (IZR (w ^ 2 + h ^ 2)) < IZR staging_size + 1)%R
  ∧ paste_x = (staging_size - w) / 2 + 30
  ∧ paste_y = (staging_size - h) / 2 + 30
  ∧ -60 ≤ (staging_size - w - paste_x) - paste_x ≤ -59
  ∧ -60 ≤ (staging_size - h - paste_y) - paste_y ≤ -59
  ∧ ¬ centered staging_size paste_x w
  ∧ ¬ centered staging_size paste_y h.
Proof.
  intros w h.
  pose proof (rotation_canvas_size_bounds w h) as Hb.
  unfold rotation_diagonal_R in Hb.
  change (rotation_canvas_size w h) with staging_size in Hb.
  assert (Hx : 2 * paste_x ≤ staging_size - CELL_WIDTH ≤ 2 * paste_x + 1).
  { unfold paste_x.
    pose proof (Z.mul_div_le (staging_size - CELL_WIDTH) 2).
    pose proof (Z.mul_succ_div_gt (staging_size - CELL_WIDTH) 2). lia. }
  assert (Hy : 2 * paste_y ≤ staging_size - column_height ≤ 2 * paste_y + 1).
  { unfold paste_y.
    pose proof (Z.mul_div_le (staging_size - column_height) 2).
    pose proof (Z.mul_succ_div_gt (staging_size - column_height) 2). lia. }
  assert (Hw : w = CELL_WIDTH + 60) by reflexivity.
  assert (Hh : h = column_height + 60) by reflexivity.
  split_and!.
  - apply rotation_canvas_size_exact.
  - lra.
  - lra.
  - unfold paste_x. rewrite Hw.
    replace (staging_size - CELL_WIDTH) with (staging_size - (CELL_WIDTH + 60) + 30 * 2)
      by lia.
    by rewrite Z.div_add.
  - unfold paste_y. rewrite Hh.
    replace (staging_size - column_height)
      with (staging_size - (column_height + 60) + 30 * 2) by lia.
    by rewrite Z.div_add.
  - lia.
  - lia.
  - lia.
  - lia.
  - unfold centered. lia.
  - unfold centered. lia.
Qed.

(** ** The font size *)

Lemma pow_strict (x y : R) (n : nat) : (0 <= x < y)%R → (x ^ S n < y ^ S n)%R.
Proof.
  intros [Hx Hxy]. induction n as [|n IH].
  - simpl. lra.
  - change (x * x ^ S n < y * y ^ S n)%R.
    apply Rmult_le_0_lt_compat; [done| |done|done].
    apply pow_le. done.
Qed.

Lemma pow5_le_iff (x y : R) : (0 <= x)%R → (0 <= y)%R → (x <= y ↔ x ^ 5 <= y ^ 5)%R.
Proof.
  intros Hx Hy. split.
  - intros Hxy. by apply pow_incr.
  - intros Hp. destruct (Rle_lt_dec x y) as [|Hlt]; [done|].
    pose proof (pow_strict y x 4 (conj Hy Hlt)). lra.
Qed.

(** The fifth power of the shrunk size is rational. *)
Lemma shrunk_power (m : Z) :
  0 < m →
  ((50 * Rpower (10 / IZR m) (8 / 10)) ^ 5 = 50 ^ 5 * (10 / IZR m) ^ 4)%R.
Proof.
  intros Hm. assert (Hm' : (0 < IZR m)%R) by by apply IZR_lt.
  assert (Ha : (0 < 10 / IZR m)%R) by (apply Rdiv_lt_0_compat; lra).
  rewrite Rpow_mult_distr. f_equal.
  rewrite <- (Rpower_pow 5) by (unfold Rpower; apply exp_pos).
  rewrite Rpower_mult.
  replace (8 / 10 * INR 5)%R with (INR 4) by (simpl; lra).
  by apply Rpower_pow.
Qed.

(** Comparing an integer with the shrunk size is a comparison of
    integers. *)
Lemma le_shrunk_iff (k m : Z) :
  0 < k → 0 < m →
  (IZR k <= 50 * Rpower (10 / IZR m) (8 / 10))%R ↔ k ^ 5 * m ^ 4 ≤ 50 ^ 5 * 10 ^ 4.
Proof.
  intros Hk Hm.
  assert (Hk' : (0 < IZR k)%R) by by apply IZR_lt.
  assert (Hm' : (0 < IZR m)%R) by by apply IZR_lt.
  assert (Hv : (0 < 50 * Rpower (10 / IZR m) (8 / 10))%R).
  { apply Rmult_lt_0_compat; [lra|]. unfold Rpower. apply exp_pos. }
  rewrite pow5_le_iff by lra. rewrite shrunk_power by done.
  assert (HM : (0 < IZR m ^ 4)%R) by by apply pow_lt.
  assert (E : ((10 / IZR m) ^ 4 * IZR m ^ 4 = 10 ^ 4)%R).
  { rewrite <- Rpow_mult_distr. f_equal. field. lra. }
  assert (Z1 : IZR (k ^ 5 * m ^ 4) = (IZR k ^ 5 * IZR m ^ 4)%R).
  { rewrite mult_IZR. change 5 with (Z.of_nat 5). change 4 with (Z.of_nat 4).
    by rewrite <- !pow_IZR. }
  assert (Z2 : IZR (50 ^ 5 * 10 ^ 4) = (50 ^ 5 * 10 ^ 4)%R).
  { rewrite mult_IZR. change 5 with (Z.of_nat 5). change 4 with (Z.of_nat 4).
    by rewrite <- !pow_IZR. }
  split.
  - intros H. apply le_IZR. rewrite Z1, Z2.
    apply (Rmult_le_compat_r (IZR m ^ 4)) in H; [|lra].
    rewrite Rmult_assoc, E in H. exact H.
  - intros H. apply IZR_le in H. rewrite Z1, Z2 in H.
    apply (Rmult_le_reg_r (IZR m ^ 4)); [done|].
    by rewrite Rmult_assoc, E.
Qed.

(** [largest_with] finds the last member of the range that satisfies
    the test. *)
Lemma largest_with_spec (P : Z → bool) (lo : Z) (n : nat) :
  lo ≤ largest_with P lo (lo + Z.of_nat n) ≤ lo + Z.of_nat n
  ∧ (lo < largest_with P lo (lo + Z.of_nat n) →
     P (largest_with P lo (lo + Z.of_nat n)) = true)
  ∧ (∀ k, largest_with P lo (lo + Z.of_nat n) < k ≤ lo + Z.of_nat n → P k = false).
Proof.
  unfold largest_with. replace (lo + Z.of_nat n - lo) with (Z.of_nat n) by lia.
  induction n as [|n IH].
  - change (Z.of_nat 0) with 0. rewrite seqZ_nil by done. cbn [foldl].
    split; [lia|]. split; intros; lia.
  - rewrite seqZ_S, foldl_app. cbn [foldl].
    destruct IH as (Hr & Htrue & Hfalse).
    set (r := foldl _ lo (seqZ (lo + 1) (Z.of_nat n))) in *.
    rewrite Nat2Z.inj_succ.
    replace (lo + 1 + Z.of_nat n) with (lo + Z.succ (Z.of_nat n)) by lia.
    destruct (P (lo + Z.succ (Z.of_nat n))) eqn:E.
    + split; [lia|]. split; [done|]. intros; lia.
    + split; [lia|]. split; [done|].
      intros k Hk. destruct (decide (k = lo + Z.succ (Z.of_nat n))) as [->|]; [done|].
      apply Hfalse. lia.
Qed.

(** The integer size is the integer part of the real one. *)
Lemma int_font_size_exact (f : font_size_value) :
  match f with BaseSize => True | Shrunk m => 1 ≤ m end →
  int_font_size f = R_int (font_size_R f)
  ∧ (IZR (int_font_size f) <= font_size_R f < IZR (int_font_size f) + 1)%R.
Proof.
  destruct f as [|m]; intros Hm.
  - cbn [int_font_size font_size_R]. unfold R_int.
    destruct (Rle_dec 0 50) as [_|H]; [|lra].
    split; [|lra]. apply Int_part_spec. lra.
  - cbn [int_font_size font_size_R].
    set (P := λ k, k ^ 5 * m ^ 4 <=? 50 ^ 5 * 10 ^ 4).
    set (v := (50 * Rpower (10 / IZR m) (8 / 10))%R).
    pose proof (largest_with_spec P 30 286) as Hspec.
    change (30 + Z.of_nat 286) with 316 in Hspec.
    set (r := largest_with P 30 316) in *.
    destruct Hspec as (Hr & Htrue & Hfalse).
    assert (Hle : ∀ k, 0 < k → P k = true ↔ (IZR k <= v)%R).
    { intros k Hk. unfold P. rewrite Z.leb_le. symmetry. apply le_shrunk_iff; lia. }
    assert (Hup : (v < IZR r + 1)%R).
    { rewrite <- plus_IZR. apply Rnot_le_lt. rewrite <- Hle by lia.
      destruct (decide (r = 316)) as [E|Hne].
      - rewrite E. unfold P. apply not_true_iff_false, Z.leb_gt.
        assert (1 ≤ m ^ 4) by (apply (Z.pow_le_mono_l 1 m 4); lia). lia.
      - apply not_true_iff_false, Hfalse. lia. }
    assert (Hbounds : (IZR r <= Rmax v 30 < IZR r + 1)%R).
    { destruct (decide (r = 30)) as [E|Hne].
      - rewrite E in *. unfold Rmax. destruct (Rle_dec v 30); lra.
      - assert (Hlo : (IZR r <= v)%R) by (apply Hle; [lia|apply Htrue; lia]).
        assert (30 < IZR r)%R by (apply IZR_lt; lia).
        rewrite Rmax_left by lra. lra. }
    split; [|done].
    unfold R_int. destruct (Rle_dec 0 (Rmax v 30)) as [_|Hneg].
    + apply Int_part_spec. lra.
    + exfalso. apply Hneg. pose proof (Rmax_r v 30). lra.
Qed.

(** A size that was shrunk is below the base size. *)
Lemma int_font_size_shrunk (m : Z) : 11 ≤ m → 30 ≤ int_font_size (Shrunk m) ≤ 49.
Proof.
  intros Hm. cbn [int_font_size].
  set (P := λ k, k ^ 5 * m ^ 4 <=? 50 ^ 5 * 10 ^ 4).
  pose proof (largest_with_spec P 30 286) as Hspec.
  change (30 + Z.of_nat 286) with 316 in Hspec.
  set (r := largest_with P 30 316) in *.
  destruct Hspec as (Hr & Htrue & _). split; [lia|].
  destruct (Z.le_gt_cases r 49) as [|Hbig]; [done|]. exfalso.
  assert (Hp : P r = true) by (apply Htrue; lia).
  unfold P in Hp. apply Z.leb_le in Hp.
  assert (50 ^ 5 ≤ r ^ 5) by (apply Z.pow_le_mono_l; lia).
  assert (11 ^ 4 ≤ m ^ 4) by (apply Z.pow_le_mono_l; lia).
  nia.
Qed.

(** ** Titles *)

Lemma split_on_token (sep : ascii → bool) (t : string) :
  all_chars (λ c, negb (sep c)) t = true → split_on sep t = [t].
Proof.
  induction t as [|a t IH]; cbn; [done|].
  intros H. apply andb_true_iff in H as [Ha Ht].
  apply negb_true_iff in Ha. rewrite Ha, IH by done. done.
Qed.

Lemma split_on_app (sep : ascii → bool) (t : string) (c : ascii) (rest : string) :
  all_chars (λ c, negb (sep c)) t = true → sep c = true →
  split_on sep (t +:+ String c rest) = t :: split_on sep rest.
Proof.
  intros Ht Hc. induction t as [|a t IH].
  - rewrite append_nil_l. cbn. by rewrite Hc.
  - rewrite append_cons. cbn [split_on]. cbn in Ht.
    apply andb_true_iff in Ht as [Ha Ht]. apply negb_true_iff in Ha.
    rewrite Ha, IH by done. done.
Qed.

Lemma split_on_length (sep : ascii → bool) (s : string) :
  (1 ≤ length (split_on sep s))%nat.
Proof.
  induction s as [|a s IH]; cbn; [lia|].
  destruct (sep a); cbn; [lia|].
  destruct (split_on sep s); cbn in *; lia.
Qed.

Lemma all_chars_impl (p q : ascii → bool) (t : string) :
  (∀ c, p c = true → q c = true) → all_chars p t = true → all_chars q t = true.
Proof.
  intros Hpq. induction t as [|a t IH]; cbn; [done|].
  intros H. apply andb_true_iff in H as [Ha Ht].
  by rewrite (Hpq a Ha), IH.
Qed.

Lemma word_no_space (t : string) :
  is_word t → all_chars (λ c, negb (Ascii.eqb " " c)) t = true.
Proof.
  intros [_ Ht]. eapply all_chars_impl; [|exact Ht].
  intros c Hc. apply negb_true_iff. apply negb_true_iff in Hc.
  destruct (Ascii.eqb_spec " " c) as [<-|]; [|done]. by vm_compute in Hc.
Qed.

Lemma str_split_word (t : string) : is_word t → str_split t = [t].
Proof.
  intros [Hne Ht]. unfold str_split. rewrite split_on_token by done.
  rewrite filter_cons, decide_True by done. done.
Qed.

Lemma str_split_space_word (t : string) : is_word t → str_split_space t = [t].
Proof. intros Ht. unfold str_split_space. by apply split_on_token, word_no_space. Qed.

Lemma str_split_four (t1 t2 t3 t4 : string) :
  is_word t1 → is_word t2 → is_word t3 → is_word t4 →
  str_split (t1 +:+ " " +:+ t2 +:+ " " +:+ t3 +:+ " " +:+ t4) = [t1; t2; t3; t4]
  ∧ str_split_space (t1 +:+ " " +:+ t2 +:+ " " +:+ t3 +:+ " " +:+ t4) = [t1; t2; t3; t4].
Proof.
  intros H1 H2 H3 H4. split.
  - unfold str_split.
    rewrite !append_cons, !append_nil_l.
    rewrite !split_on_app by (done || apply H1 || apply H2 || apply H3).
    rewrite split_on_token by apply H4.
    rewrite !filter_cons, filter_nil.
    rewrite !decide_True by (apply H1 || apply H2 || apply H3 || apply H4). done.
  - unfold str_split_space.
    rewrite !append_cons, !append_nil_l.
    rewrite !split_on_app by (done || by apply word_no_space).
    by rewrite split_on_token by by apply word_no_space.
Qed.

Lemma foldl_max_ge (x : Z) (xs : list Z) :
  x ≤ foldl Z.max x xs ∧ Forall (λ y, y ≤ foldl Z.max x xs) xs.
Proof.
  revert x. induction xs as [|y xs IH]; intros x; cbn; [split; [lia|constructor]|].
  destruct (IH (Z.max x y)) as [H1 H2]. split; [lia|].
  constructor; [lia|done].
Qed.

Section LineCount.
Context {K : Imaging} {World : Type} {os : OS World} {config : Config}.

Lemma draw_lines_run (font : Font) (fill_color : color) (ink : rgba) (x y : Q)
    (font_size line_spacing : Z) (lines : list (Z * string)) :
  ∀ (img : Image) (s : State World),
  ink_of (im_mode img) fill_color = Ret ink →
  ∃ img',
    for_each lines img (λ '(i, line) img_copy,
      ink ← lift (ink_of (im_mode img_copy) fill_color);
      mret (with_pixels img_copy
              (text_px img_copy
                 (x, (y + inject_Z (i * (font_size + line_spacing)))%Q)
                 line font ink))) s
    = (Ret img', s)
    ∧ im_mode img' = im_mode img.
Proof.
  induction lines as [|[i line] lines IH]; intros img s Hink; cbn [for_each].
  - by exists img.
  - rewrite run_bind, run_bind. unfold lift at 1. rewrite Hink.
    cbn [mret M_ret].
    set (img1 := with_pixels img _).
    destruct (IH img1 s) as (img' & Hrun & Hmode); [done|].
    exists img'. split; [done|]. by rewrite Hmode.
Qed.

(** The number of lines that [draw_multiline_text_on_image] reports is
    the number of pieces between single spaces. *)
Lemma draw_multiline_line_count (image : Image) (text : string) (position : Q * Q)
    (font_path : string) (font_size line_spacing : Z) (fill_color : color)
    (s : State World) (font : Font) (w : World) (ink : rgba) :
  ImageFont_truetype (path.join CURRENT_DIR font_path) font_size (world s)
    = (Ret font, w) →
  ink_of (im_mode image) fill_color = Ret ink →
  ∃ img',
    draw_multiline_text_on_image image text position font_path font_size
      line_spacing fill_color s
    = (Ret (img', Z.of_nat (length (str_split_space text))), mkState w (log s)).
Proof.
  intros Hfont Hink. unfold draw_multiline_text_on_image.
  rewrite run_bind. unfold call at 1. rewrite Hfont.
  pose proof (split_on_length (Ascii.eqb " ") text) as Hlen.
  fold (str_split_space text) in Hlen.
  destruct (Z.of_nat (length (str_split_space text)) <=? 1) eqn:E.
  - rewrite run_bind. unfold lift at 1. rewrite Hink. cbn [mret M_ret].
    apply Z.leb_le in E.
    replace (Z.of_nat (length (str_split_space text))) with 1 by lia.
    by eexists.
  - destruct position as [x y]. rewrite run_bind.
    destruct (draw_lines_run font fill_color ink x y font_size line_spacing
                (enumerate (str_split_space text)) image (mkState w (log s)) Hink)
      as (img' & Hrun & _).
    rewrite Hrun. by eexists.
Qed.
End LineCount.


Lemma is_word_intro (t : string) :
  bool_decide (t ≠ EmptyString) && all_chars (λ c, negb (is_space c)) t = true →
  is_word t.
Proof.
  intros H. apply andb_true_iff in H as [H1 H2].
  split; [by apply bool_decide_eq_true in H1|done].
Qed.



(** * Further properties *)

(** ** Rules for computations *)

Section Rules.
Context {K : Imaging} {World : Type} {os : OS World}.

Lemma succeeds_ret {A} (Inv : World → Prop) (a : A) (Q : A → State World → Prop) :
  (∀ s, Q a s) → succeeds Inv (mret a : M World A) Q.
Proof. intros Ha s Hs. by exists a, s. Qed.

Lemma succeeds_logger (Inv : World → Prop) (lvl : Level) (msg : LogMsg) :
  succeeds Inv (logger lvl msg : M World ()) (λ _ _, True).
Proof. intros s Hs. by eexists _, _. Qed.

Lemma succeeds_bind {A B} (Inv : World → Prop) (m : M World A) (f : A → M World B)
    (P : A → Prop) (Q : B → State World → Prop) :
  succeeds Inv m (λ a _, P a) → (∀ a, P a → succeeds Inv (f a) Q) →
  succeeds Inv (m ≫= f) Q.
Proof.
  intros Hm Hf s Hs. destruct (Hm s Hs) as (a & s1 & E & H1 & Pa).
  rewrite run_bind, E. by apply Hf.
Qed.

Lemma succeeds_try {A} (Inv : World → Prop) (body : M World A)
    (handler : exn → M World A) (Q : A → Prop) :
  keeps Inv body → yields body Q →
  (∀ e, succeeds Inv (handler e) (λ a _, Q a)) →
  succeeds Inv (try_except body handler) (λ a _, Q a).
Proof.
  intros Hk Hy Hh s Hs. unfold try_except. specialize (Hk s Hs).
  destruct (body s) as [[a|e] s1] eqn:E.
  - exists a, s1. split_and!; try done. by eapply Hy.
  - by apply Hh.
Qed.

Lemma succeeds_randint (writes : string → Prop) (Inv : World → Prop) (a b : Z) :
  stable writes Inv → a ≤ b → succeeds Inv (randint a b) (λ n _, a ≤ n ≤ b).
Proof.
  intros Hst Hab s Hs. pose proof (keeps_randint Inv writes Hst a b s Hs) as Hk.
  destruct (randint_run a b s Hab) as (n & s' & E & Hn & _).
  rewrite E in Hk. by exists n, s'.
Qed.

End Rules.

(** ** The accent colour: the fallback *)

Section RandomColorFacts.
Context {K : Imaging} {World : Type} {os : OS World}.

(** The steps of lines 149-158, after the point is drawn. *)
Lemma sample_pixel_shape (img : Image) (x y : Z) :
  yields (World := World)
    (if decide (im_mode img = RGBA) then
       t ← lift (getpixel img x y);
       '(r, g, b, a) ← lift (unpack4 t);
       mret [r; g; b; a]
     else if decide (im_mode img = RGB) then
       t ← lift (getpixel img x y);
       '(r, g, b) ← lift (unpack3 t);
       mret [r + 100; g + 50; b; 255]
     else
       let img := convert_RGBA img in
       t ← lift (getpixel img x y);
       '(r, g, b, a) ← lift (unpack4 t);
       mret [r; g; b; a])
    (λ c, length c = 4%nat).
Proof.
  destruct (decide (im_mode img = RGBA)); [|destruct (decide (im_mode img = RGB))];
    cbv zeta;
    (eapply yields_bind; [apply yields_any|]; intros t _;
     eapply yields_bind; [apply yields_any|]).
  - intros [[[r g] b] a] _. by apply yields_ret.
  - intros [[r g] b] _. by apply yields_ret.
  - intros [[[r g] b] a] _. by apply yields_ret.
Qed.

Lemma sample_pixel_quiet (img : Image) (x y : Z) :
  quiet (World := World)
    (if decide (im_mode img = RGBA) then
       t ← lift (getpixel img x y);
       '(r, g, b, a) ← lift (unpack4 t);
       mret [r; g; b; a]
     else if decide (im_mode img = RGB) then
       t ← lift (getpixel img x y);
       '(r, g, b) ← lift (unpack3 t);
       mret [r + 100; g + 50; b; 255]
     else
       let img := convert_RGBA img in
       t ← lift (getpixel img x y);
       '(r, g, b, a) ← lift (unpack4 t);
       mret [r; g; b; a]).
Proof.
  destruct (decide (im_mode img = RGBA)); [|destruct (decide (im_mode img = RGB))];
    cbv zeta;
    (apply quiet_bind; [apply quiet_lift|]; intros t;
     apply quiet_bind; [apply quiet_lift|]).
  - intros [[[r g] b] a]. apply quiet_ret.
  - intros [[r g] b]. apply quiet_ret.
  - intros [[[r g] b] a]. apply quiet_ret.
Qed.

(** X1.  [get_random_color] returns a colour of four components for
    every path and in every world, and it never raises.  Either it
    logged nothing, or something failed on the way (the image did not
    open, the point was outside it): then it logged that one error and
    returned a colour [(r, g, b, 255)] with three fresh draws from
    50 to 200. *)
Theorem random_color_never_raises (image_path : string) (s : State World) :
  ∃ c s',
    get_random_color image_path s = (Ret c, s')
    ∧ length c = 4%nat
    ∧ (log s' = log s
       ∨ ∃ e r g b,
           log s' = log s ++ [(ERROR, MsgRandomColorFailed e)]
           ∧ c = [r; g; b; 255]
           ∧ 50 ≤ r ≤ 200 ∧ 50 ≤ g ≤ 200 ∧ 50 ≤ b ≤ 200).
Proof.
  unfold get_random_color.
  match goal with |- context [try_except ?m ?h] => set (body := m) end.
  assert (Hq : quiet body).
  { apply quiet_bind; [apply quiet_call|]. intros img.
    apply quiet_bind; [apply quiet_randint|]. intros x.
    apply quiet_bind; [apply quiet_randint|]. intros y.
    apply sample_pixel_quiet. }
  assert (Hy : yields body (λ c, length c = 4%nat)).
  { eapply yields_bind; [apply yields_any|]. intros img _.
    eapply yields_bind; [apply yields_any|]. intros x _.
    eapply yields_bind; [apply yields_any|]. intros y _.
    apply sample_pixel_shape. }
  unfold try_except. specialize (Hq s).
  destruct (body s) as [[c|e] s1] eqn:E; cbn in Hq.
  - exists c, s1. split; [done|]. split; [by eapply Hy|]. by left.
  - rewrite run_bind. cbn [logger].
    set (s2 := mkState (world s1) (log s1 ++ [(ERROR, MsgRandomColorFailed e)])).
    destruct (randint_run 50 200 s2) as (r & s3 & Er & Hr & L3); [lia|].
    destruct (randint_run 50 200 s3) as (g & s4 & Eg & Hg & L4); [lia|].
    destruct (randint_run 50 200 s4) as (b & s5 & Eb & Hb & L5); [lia|].
    rewrite run_bind, Er, run_bind, Eg, run_bind, Eb.
    exists [r; g; b; 255], s5. split; [done|]. split; [done|]. right.
    exists e, r, g, b. split_and!; try lia; try done.
    rewrite L5, L4, L3. cbn. by rewrite Hq.
Qed.

End RandomColorFacts.

(** ** The gradient: colour tuples of any length, random colours *)

Section GradientFacts.
Context {K : Imaging} {World : Type} {os : OS World}.

(** Lines 529-541 for two colours of at least three components, the
    first of three or four (what [Image.new] accepts). *)
Lemma gradient_tail_run (width height r1 g1 b1 r2 g2 b2 : Z) (t1 t2 : list Z)
    (s : State World) :
  0 ≤ width → 0 ≤ height → (length t1 ≤ 1)%nat →
  ∃ img,
    (gradient ← lift (Image_new RGBA width height (r1 :: g1 :: b1 :: t1));
     for_each (seqZ 0 width) gradient
       (gradient_step width height (r1 :: g1 :: b1 :: t1) (r2 :: g2 :: b2 :: t2))) s
    = (Ret img, s)
    ∧ im_mode img = RGBA ∧ im_width img = width ∧ im_height img = height
    ∧ ∀ x y, 0 ≤ x < width → 0 ≤ y < height →
        im_px img x y = column_ink width (r1, g1, b1) (r2, g2, b2) x.
Proof.
  intros Hw Hh Ht. rewrite run_bind. unfold lift at 1, Image_new.
  assert ((width <? 0) || (height <? 0) = false) as -> by lia.
  assert (∃ ink, ink_of RGBA (r1 :: g1 :: b1 :: t1) = Ret ink) as [ink ->].
  { destruct t1 as [|a [|??]]; cbn in Ht; [by eexists..|lia]. }
  cbn [mbind result_bind].
  set (g0 := mkImage RGBA width height _).
  destruct (gradient_loop width height r1 g1 b1 r2 g2 b2 t1 t2 (seqZ 0 width) g0 s)
    as (img & Hrun & Hmode & Hwd & Hht & Hpx); [done|].
  exists img. split; [exact Hrun|]. split_and!; try done.
  intros x y Hx Hy. rewrite Hpx.
  rewrite bool_decide_eq_true_2 by (apply elem_of_seqZ; lia).
  assert ((0 <=? y) = true) as -> by lia.
  assert ((y <=? height) = true) as -> by lia. done.
Qed.

Lemma draw_bucket_run (lo hi : Z) (bk : bucket) (s : State World) :
  bucket_within lo hi bk →
  ∃ r g b s',
    draw_bucket bk s = (Ret [r; g; b], s')
    ∧ (lo ≤ r ≤ hi ∧ lo ≤ g ≤ hi ∧ lo ≤ b ≤ hi) ∧ log s' = log s.
Proof.
  destruct bk as [r g b|v|v|v]; cbn [bucket_within draw_bucket].
  - intros (Hr & Hg & Hb).
    destruct (randint_run r.1 r.2 s) as (x & s1 & E1 & B1 & L1); [lia|].
    destruct (randint_run g.1 g.2 s1) as (y & s2 & E2 & B2 & L2); [lia|].
    destruct (randint_run b.1 b.2 s2) as (z & s3 & E3 & B3 & L3); [lia|].
    rewrite run_bind, E1, run_bind, E2, run_bind, E3.
    exists x, y, z, s3. split; [done|]. split; [lia|congruence].
  - intros Hv.
    destruct (randint_run v.1 v.2 s) as (x & s1 & E1 & B1 & L1); [lia|].
    rewrite run_bind, E1. exists x, x, x, s1. split; [done|]. split; [lia|done].
  - intros Hv.
    destruct (randint_run v.1 v.2 s) as (x & s1 & E1 & B1 & L1); [lia|].
    destruct (randint_run 10 30 s1) as (y & s2 & E2 & B2 & L2); [lia|].
    destruct (randint_run 5 15 s2) as (z & s3 & E3 & B3 & L3); [lia|].
    rewrite run_bind, E1, run_bind, E2, run_bind, E3.
    exists (x + y), x, (x - z), s3. split; [done|]. split; [lia|congruence].
  - intros Hv.
    destruct (randint_run v.1 v.2 s) as (x & s1 & E1 & B1 & L1); [lia|].
    destruct (randint_run 5 15 s1) as (z & s2 & E2 & B2 & L2); [lia|].
    destruct (randint_run 10 30 s2) as (y & s3 & E3 & B3 & L3); [lia|].
    rewrite run_bind, E1, run_bind, E2, run_bind, E3.
    exists (x - z), x, (x + y), s3. split; [done|]. split; [lia|congruence].
Qed.

Lemma bucket_of_elem (buckets : list bucket) (color_type : Z) :
  buckets ≠ [] → bucket_of buckets color_type ∈ buckets.
Proof.
  intros Hne. unfold bucket_of.
  destruct ((0 <=? color_type) && (color_type <? 25)); cbn [default].
  - destruct (buckets !! Z.to_nat color_type) as [bk|] eqn:E; cbn.
    + by eapply list_elem_of_lookup_2.
    + destruct (last buckets) as [bk|] eqn:El; cbn.
      * rewrite last_lookup in El. by eapply list_elem_of_lookup_2.
      * by apply last_None in El.
  - destruct (last buckets) as [bk|] eqn:El; cbn.
    + rewrite last_lookup in El. by eapply list_elem_of_lookup_2.
    + by apply last_None in El.
Qed.

Lemma random_color_of_run (lo hi : Z) (buckets : list bucket) (s : State World) :
  buckets ≠ [] → Forall (bucket_within lo hi) buckets →
  ∃ r g b s',
    random_color_of buckets s = (Ret [r; g; b], s')
    ∧ (lo ≤ r ≤ hi ∧ lo ≤ g ≤ hi ∧ lo ≤ b ≤ hi) ∧ log s' = log s.
Proof.
  intros Hne Hall. unfold random_color_of.
  destruct (randint_run 0 25 s) as (ct & s1 & E1 & _ & L1); [lia|].
  rewrite run_bind, E1.
  rewrite Forall_forall in Hall.
  destruct (draw_bucket_run lo hi (bucket_of buckets ct) s1)
    as (r & g & b & s2 & E2 & B & L2); [by apply Hall, bucket_of_elem|].
  exists r, g, b, s2. split; [done|]. split; [done|congruence].
Qed.

End GradientFacts.

Lemma dark_buckets_within : Forall (bucket_within 0 150) dark_buckets.
Proof. repeat constructor; cbn; lia. Qed.

Lemma light_buckets_within : Forall (bucket_within 30 255) light_buckets.
Proof. repeat constructor; cbn; lia. Qed.

(** The interpolated channel between two 8-bit values. *)
Lemma gradient_channel_ramps (c1 c2 x x' width : Z) :
  0 < width → 0 ≤ x → x ≤ x' → x' < width → 0 ≤ c1 ≤ 255 → 0 ≤ c2 ≤ 255 →
  ramps c1 c2 (clip8 (gradient_channel c1 c2 x width))
              (clip8 (gradient_channel c1 c2 x' width)).
Proof.
  intros Hw Hx Hxx Hx' H1 H2.
  pose proof (gradient_channel_range c1 c2 x width Hw ltac:(lia) H1 H2) as B.
  pose proof (gradient_channel_range c1 c2 x' width Hw ltac:(lia) H1 H2) as B'.
  rewrite (gradient_channel_floor c1 c2 x width Hw (proj1 B)).
  rewrite (gradient_channel_floor c1 c2 x' width Hw (proj1 B')).
  rewrite !clip8_id by done.
  split; intros Hc.
  - assert (0 ≤ (c2 - c1) * x / width) by (apply Z.div_pos; nia).
    assert ((c2 - c1) * x / width ≤ (c2 - c1) * x' / width)
      by (apply Z.div_le_mono; nia).
    assert ((c2 - c1) * x' / width ≤ c2 - c1) by (apply Z.div_le_upper_bound; nia).
    split_and!; try lia.
    intros Hlt.
    assert ((c2 - c1) * x' / width < c2 - c1) by (apply Z.div_lt_upper_bound; nia).
    lia.
  - assert ((c2 - c1) * x / width ≤ 0) by (apply Z.div_le_upper_bound; nia).
    assert ((c2 - c1) * x' / width ≤ (c2 - c1) * x / width)
      by (apply Z.div_le_mono; nia).
    assert (c2 - c1 ≤ (c2 - c1) * x' / width) by (apply Z.div_le_lower_bound; nia).
    lia.
Qed.

(** X2.  With no colour given, [create_gradient_background] draws the
    left colour from the dark table and the right one from the light
    table: every channel of the left colour lies in 0..150 and every
    channel of the right one in 30..255, whatever the generator yields;
    the function returns an RGBA image of the requested size whose
    column [x] holds the interpolation of the two, fully opaque, and it
    logs nothing. *)
Theorem random_gradient_colors {K : Imaging} {World : Type} {os : OS World}
    (width height : Z) (s : State World) :
  0 < width → 0 < height →
  ∃ r1 g1 b1 r2 g2 b2 img s',
    create_gradient_background width height None None s = (Ret img, s')
    ∧ log s' = log s
    ∧ (0 ≤ r1 ≤ 150 ∧ 0 ≤ g1 ≤ 150 ∧ 0 ≤ b1 ≤ 150)
    ∧ (30 ≤ r2 ≤ 255 ∧ 30 ≤ g2 ≤ 255 ∧ 30 ≤ b2 ≤ 255)
    ∧ im_mode img = RGBA ∧ im_width img = width ∧ im_height img = height
    ∧ ∀ x y, 0 ≤ x < width → 0 ≤ y < height →
        im_px img x y = Px (r1 + (r2 - r1) * x / width) (g1 + (g2 - g1) * x / width)
                           (b1 + (b2 - b1) * x / width) 255.
Proof.
  intros Hw Hh. unfold create_gradient_background.
  destruct (random_color_of_run 0 150 dark_buckets s)
    as (r1 & g1 & b1 & s1 & E1 & B1 & L1); [done|apply dark_buckets_within|].
  destruct (random_color_of_run 30 255 light_buckets s1)
    as (r2 & g2 & b2 & s2 & E2 & B2 & L2); [done|apply light_buckets_within|].
  rewrite run_bind, E1, run_bind, E2.
  destruct (gradient_tail_run width height r1 g1 b1 r2 g2 b2 [] [] s2)
    as (img & Hrun & Hmode & Hwd & Hht & Hpx); [lia|lia|cbn; lia|].
  exists r1, g1, b1, r2, g2, b2, img, s2.
  split; [exact Hrun|]. split; [congruence|]. split; [done|]. split; [done|].
  split_and!; try done.
  intros x y Hx Hy. rewrite Hpx by done. unfold column_ink.
  assert (G : ∀ c1 c2, 0 ≤ c1 ≤ 255 → 0 ≤ c2 ≤ 255 →
            clip8 (gradient_channel c1 c2 x width) = c1 + (c2 - c1) * x / width).
  { intros c1 c2 H1 H2.
    pose proof (gradient_channel_range c1 c2 x width Hw Hx H1 H2) as B.
    rewrite (gradient_channel_floor c1 c2 x width Hw (proj1 B)).
    by apply clip8_id. }
  rewrite !G by lia. done.
Qed.

Lemma random_gradient_colors_witness :
  ∃ r1 g1 b1 r2 g2 b2 img s',
    create_gradient_background (K := reference.kernel) (os := reference.system)
      4 2 None None (reference.start reference.disk) = (Ret img, s')
    ∧ log s' = log (reference.start reference.disk)
    ∧ (0 ≤ r1 ≤ 150 ∧ 0 ≤ g1 ≤ 150 ∧ 0 ≤ b1 ≤ 150)
    ∧ (30 ≤ r2 ≤ 255 ∧ 30 ≤ g2 ≤ 255 ∧ 30 ≤ b2 ≤ 255)
    ∧ im_mode img = RGBA ∧ im_width img = 4 ∧ im_height img = 2
    ∧ ∀ x y, 0 ≤ x < 4 → 0 ≤ y < 2 →
        im_px img x y = Px (r1 + (r2 - r1) * x / 4) (g1 + (g2 - g1) * x / 4)
                           (b1 + (b2 - b1) * x / 4) 255.
Proof.
  apply (random_gradient_colors (K := reference.kernel) (os := reference.system)
           4 2 (reference.start reference.disk)); lia.
Defined.

(** X3.  Between two 8-bit colours of three or four components (the
    workflow passes four), each channel of the gradient runs one way:
    from column to column it never turns back, it stays between the two
    given values, and a rising channel stays below the value of the
    right colour in every column, the last one included.  The alpha of
    every pixel is 255, whatever alpha the colours carry. *)
Theorem gradient_runs_one_way {K : Imaging} {World : Type} {os : OS World}
    (width height r1 g1 b1 r2 g2 b2 : Z) (t1 t2 : list Z) (s : State World) :
  0 < width → 0 < height → (length t1 ≤ 1)%nat →
  0 ≤ r1 ≤ 255 → 0 ≤ g1 ≤ 255 → 0 ≤ b1 ≤ 255 →
  0 ≤ r2 ≤ 255 → 0 ≤ g2 ≤ 255 → 0 ≤ b2 ≤ 255 →
  ∃ img,
    create_gradient_background width height
      (Some (r1 :: g1 :: b1 :: t1)) (Some (r2 :: g2 :: b2 :: t2)) s = (Ret img, s)
    ∧ ∀ x x' y y', 0 ≤ x → x ≤ x' → x' < width → 0 ≤ y < height → 0 ≤ y' < height →
        alpha (im_px img x y) = 255
        ∧ ramps r1 r2 (red (im_px img x y)) (red (im_px img x' y'))
        ∧ ramps g1 g2 (green (im_px img x y)) (green (im_px img x' y'))
        ∧ ramps b1 b2 (blue (im_px img x y)) (blue (im_px img x' y')).
Proof.
  intros Hw Hh Ht Hr1 Hg1 Hb1 Hr2 Hg2 Hb2.
  destruct (gradient_tail_run width height r1 g1 b1 r2 g2 b2 t1 t2 s)
    as (img & Hrun & _ & _ & _ & Hpx); [lia|lia|done|].
  exists img. split; [exact Hrun|].
  intros x x' y y' Hx Hxx Hx' Hy Hy'.
  rewrite (Hpx x y), (Hpx x' y') by lia. unfold column_ink. cbn [red green blue alpha].
  split; [done|]. split_and!; by apply gradient_channel_ramps.
Qed.

Lemma gradient_runs_one_way_witness :
  ∃ img,
    create_gradient_background (K := reference.kernel) (os := reference.system) 4 2
      (Some [10; 120; 30; 255]) (Some [200; 100; 30; 255])
      (reference.start reference.disk)
    = (Ret img, reference.start reference.disk)
    ∧ ∀ x x' y y', 0 ≤ x → x ≤ x' → x' < 4 → 0 ≤ y < 2 → 0 ≤ y' < 2 →
        alpha (im_px img x y) = 255
        ∧ ramps 10 200 (red (im_px img x y)) (red (im_px img x' y'))
        ∧ ramps 120 100 (green (im_px img x y)) (green (im_px img x' y'))
        ∧ ramps 30 30 (blue (im_px img x y)) (blue (im_px img x' y')).
Proof.
  apply (gradient_runs_one_way (K := reference.kernel) (os := reference.system)
           4 2 10 120 30 200 100 30 [255] [255] (reference.start reference.disk));
    cbn; lia.
Defined.

(** ** The shadow: what shows around the image *)

(** X4.  Where [add_shadow] has not pasted the image, outside the box
    of the image at [(blur_radius, blur_radius)] or under a pixel of an
    RGBA image whose alpha is 0, the output is the blurred shadow
    canvas, pixel for pixel. *)
Theorem add_shadow_shows_shadow {K : Imaging} (laws : ImagingLaws K)
    (img : Image) (ox oy blur_radius : Z) (shadow_color : rgba) :
  0 ≤ im_width img → 0 ≤ im_height img →
  0 ≤ im_width img + ox + blur_radius * 2 →
  0 ≤ im_height img + oy + blur_radius * 2 →
  ∃ canvas out,
    shadow_canvas img (ox, oy) (tuple4 shadow_color) blur_radius = Ret canvas
    ∧ add_shadow img (ox, oy) (tuple4 shadow_color) blur_radius = Ret out
    ∧ ∀ x y,
        inside img (x - blur_radius) (y - blur_radius) = false
        ∨ (im_mode img = RGBA
           ∧ alpha (im_px img (x - blur_radius) (y - blur_radius)) = 0) →
        im_px out x y = im_px (gaussian_blur blur_radius canvas) x y.
Proof.
  intros Hw Hh Hsw Hsh.
  destruct (add_shadow_run img ox oy blur_radius shadow_color Hw Hh Hsw Hsh)
    as (out & Hrun & _ & _ & _ & Hpx).
  eexists _, out. split; [by apply shadow_canvas_run|]. split; [done|].
  intros x y Hxy. rewrite Hpx. cbn [gaussian_blur im_px].
  apply composite_px_clear.
  destruct (inside img (x - blur_radius) (y - blur_radius)) eqn:Hin; [|done].
  destruct Hxy as [?|[Hm Ha]]; [done|].
  rewrite decide_True by done. rewrite Ha. unfold blend_px. cbn [alpha].
  by rewrite blend8_clear.
Qed.

Lemma add_shadow_shows_shadow_witness :
  ∃ canvas out,
    shadow_canvas (K := reference.kernel) reference.quad (5, 5) (tuple4 (Px 0 0 0 100)) 3
      = Ret canvas
    ∧ add_shadow (K := reference.kernel) reference.quad (5, 5) (tuple4 (Px 0 0 0 100)) 3
      = Ret out
    ∧ ∀ x y,
        inside reference.quad (x - 3) (y - 3) = false
        ∨ (im_mode reference.quad = RGBA
           ∧ alpha (im_px reference.quad (x - 3) (y - 3)) = 0) →
        im_px out x y = im_px (gaussian_blur (K := reference.kernel) 3 canvas) x y.
Proof.
  apply (add_shadow_shows_shadow reference_laws reference.quad 5 5 3 (Px 0 0 0 100));
    cbn; lia.
Defined.

(** ** The sampler: which pixels are counted, and what can come out *)

(** The loop of lines 580-596 keeps, in order, the pixels with an alpha
    of at least 200 whose channels sum to between 90 and 660. *)
Lemma filter_pixels_spec (pixels : list rgba) :
  filter_pixels pixels
  = opaque <$> filter (λ p, 200 ≤ alpha p ∧ 90 ≤ red p + green p + blue p ≤ 660) pixels.
Proof.
  induction pixels as [|[r g b a] pixels IH]; [done|].
  cbn [filter_pixels]. rewrite filter_cons. cbn [red green blue alpha].
  rewrite brightness_dark, brightness_bright.
  destruct (decide (200 ≤ a ∧ 90 ≤ r + g + b ≤ 660)) as [Hk|Hk].
  - assert ((a <? 200) = false) as -> by lia.
    assert ((90 <=? r + g + b) = true) as -> by lia.
    assert ((r + g + b <=? 660) = true) as -> by lia.
    cbn. by rewrite IH.
  - destruct (a <? 200) eqn:Ea; [done|].
    destruct (90 <=? r + g + b) eqn:E1; cbn [negb orb]; [|done].
    destruct (r + g + b <=? 660) eqn:E2; cbn [negb]; [|done]. lia.
Qed.

Lemma population_opaque (pixels : list rgba) :
  Forall (λ c, alpha c = 255) (population pixels).
Proof.
  unfold population. rewrite filter_pixels_spec.
  destruct (opaque <$> filter _ pixels) eqn:E.
  - by apply Forall_fmap, Forall_true.
  - rewrite <- E. by apply Forall_fmap, Forall_true.
Qed.

(** X5.  The pixels whose colours [get_poster_primary_color] counts: as
    soon as one pixel has an alpha of at least 200 and a brightness from
    30 to 220 (channels summing to 90..660), exactly the pixels of that
    kind, in order; otherwise every pixel with an alpha above 100,
    however dark or bright.  Each is counted with alpha 255, and
    nothing is counted exactly when every pixel has an alpha of at most
    100. *)
Theorem population_counts (pixels : list rgba) :
  let mid := λ p, 200 ≤ alpha p ∧ 90 ≤ red p + green p + blue p ≤ 660 in
  population pixels
  = (if decide (Exists mid pixels) then opaque <$> filter mid pixels
     else opaque <$> filter (λ p, 100 < alpha p) pixels)
  ∧ (population pixels = [] ↔ Forall (λ p, alpha p ≤ 100) pixels)
  ∧ Forall (λ c, alpha c = 255) (population pixels).
Proof.
  intros mid.
  assert (Hpop : population pixels
    = (if decide (Exists mid pixels) then opaque <$> filter mid pixels
       else opaque <$> filter (λ p, 100 < alpha p) pixels)).
  { unfold population. rewrite filter_pixels_spec. fold mid.
    destruct (decide (Exists mid pixels)) as [Hex|Hno].
    - destruct (filter mid pixels) as [|p l] eqn:E; [|done].
      apply filter_nil_Forall in E. apply Exists_exists in Hex as (p & Hp & Hm).
      rewrite Forall_forall in E. by destruct (E p Hp).
    - destruct (filter mid pixels) as [|p l] eqn:E; [done|].
      destruct Hno. apply Exists_exists. exists p.
      assert (Hp : p ∈ filter mid pixels) by (rewrite E; left).
      by apply list_elem_of_filter in Hp as [? ?]. }
  split; [exact Hpop|]. split; [|apply population_opaque].
  rewrite Hpop. destruct (decide (Exists mid pixels)) as [Hex|Hno].
  - split.
    + intros E. apply fmap_nil_inv in E. apply filter_nil_Forall in E.
      apply Exists_exists in Hex as (p & Hp & Hm).
      rewrite Forall_forall in E. by destruct (E p Hp).
    + intros Hall. apply Exists_exists in Hex as (p & Hp & Hm & _).
      rewrite Forall_forall in Hall. specialize (Hall p Hp). lia.
  - split.
    + intros E. apply fmap_nil_inv in E. apply filter_nil_Forall in E.
      eapply Forall_impl; [exact E|]. cbn. intros. lia.
    + intros Hall.
      assert (filter (λ p, 100 < alpha p) pixels = []) as ->; [|done].
      apply filter_nil_Forall.
      eapply Forall_impl; [exact Hall|]. cbn. intros. lia.
Qed.

(** With two colours in the population, the sampler's pair: the most
    frequent colour and the most frequent of the others. *)
Lemma dominant_colors_pair (pop : list rgba) (c c' : rgba) :
  c ∈ pop → c' ∈ pop → c ≠ c' →
  ∃ c1 c2,
    dominant_colors pop
    = Ret (PyTuple [py_tuple_of_color (tuple4 c1); py_tuple_of_color (tuple4 c2)])
    ∧ c1 ≠ c2 ∧ c1 ∈ pop ∧ c2 ∈ pop
    ∧ (∀ d, occurrences d pop ≤ occurrences c1 pop)
    ∧ (∀ d, d ≠ c1 → occurrences d pop ≤ occurrences c2 pop).
Proof.
  intros Hc Hc' Hne.
  destruct (Counter_spec pop) as (Hnd & Hpos & Hheld & Hkeys).
  unfold dominant_colors. destruct pop as [|p0 pop0] eqn:Epop; [by apply elem_of_nil in Hc|].
  rewrite <- Epop in *. clear Epop p0 pop0.
  unfold most_common. set (cnt := Counter pop) in *.
  pose proof (sort_by_sorted (λ e : rgba * Z, - e.2) cnt) as Hsorted.
  pose proof (sort_by_perm (λ e : rgba * Z, - e.2) cnt) as Hperm.
  set (sorted := sort_by (λ e, - e.2) cnt) in *.
  assert (Hentry : ∀ d, d ∈ pop → (d, occurrences d pop) ∈ sorted).
  { intros d Hd. rewrite Hperm. apply Hkeys in Hd.
    apply list_elem_of_fmap in Hd as ([d' n] & -> & Hin).
    cbn. rewrite <- Hheld. by rewrite (held_entry d' n cnt Hnd Hin). }
  assert (Hocc : ∀ d n, (d, n) ∈ sorted → d ∈ pop ∧ n = occurrences d pop).
  { intros d n Hin. rewrite Hperm in Hin. split.
    - apply Hkeys. apply list_elem_of_fmap. by exists (d, n).
    - rewrite <- Hheld. symmetry. by apply held_entry. }
  assert (Hout : ∀ d, d ∉ pop → occurrences d pop = 0).
  { intros d Hd. rewrite occurrences_pos in Hd. unfold occurrences in *. lia. }
  assert (Hnd' : NoDup sorted.*1) by by rewrite Hperm.
  destruct sorted as [|[c1 n1] [|[c2 n2] rest]] eqn:Es.
  - pose proof (Hentry c Hc) as H. by apply elem_of_nil in H.
  - exfalso. pose proof (Hentry c Hc) as H1. pose proof (Hentry c' Hc') as H2.
    apply list_elem_of_singleton in H1, H2. congruence.
  - cbn [take py_index mbind result_bind]. exists c1, c2.
    destruct (Hocc c1 n1) as [Hin1 ->]; [left|].
    destruct (Hocc c2 n2) as [Hin2 ->]; [right; left|].
    apply StronglySorted_inv in Hsorted as [Htail Hall1].
    apply StronglySorted_inv in Htail as [_ Hall2].
    rewrite Forall_forall in Hall1. rewrite Forall_forall in Hall2.
    split; [reflexivity|]. split_and!; try done.
    + cbn in Hnd'. apply NoDup_cons in Hnd' as [Hnotin _].
      intros ->. apply Hnotin. left.
    + intros d. destruct (decide (d ∈ pop)) as [Hd|Hd].
      * pose proof (Hentry d Hd) as Hin. apply elem_of_cons in Hin as [E|Hin].
        -- injection E as -> _. lia.
        -- specialize (Hall1 _ Hin). cbn in Hall1. lia.
      * rewrite (Hout d Hd). apply occurrences_pos in Hin1. lia.
    + intros d Hd1. destruct (decide (d ∈ pop)) as [Hd|Hd].
      * pose proof (Hentry d Hd) as Hin. apply elem_of_cons in Hin as [E|Hin].
        -- by injection E as -> _.
        -- apply elem_of_cons in Hin as [E|Hin].
           ++ injection E as -> _. lia.
           ++ specialize (Hall2 _ Hin). cbn in Hall2. lia.
      * rewrite (Hout d Hd). apply occurrences_pos in Hin2. lia.
Qed.

(** A population of one colour, however long. *)
Lemma dominant_colors_single (pop : list rgba) (c : rgba) :
  pop ≠ [] → Forall (λ p, p = c) pop → dominant_colors pop = Raise IndexError.
Proof.
  intros Hne Hall. apply uniform_replicate in Hall. rewrite Hall.
  destruct (length pop) as [|n] eqn:E; [|apply dominant_colors_uniform].
  by destruct pop.
Qed.

(** A list is empty, or of one value, or holds two different values. *)
Lemma list_variety {A} `{EqDecision A} (l : list A) :
  l = [] ∨ (∃ c, l ≠ [] ∧ Forall (λ p, p = c) l) ∨ (∃ c c', c ∈ l ∧ c' ∈ l ∧ c ≠ c').
Proof.
  destruct l as [|c l]; [by left|]. right.
  destruct (decide (Forall (λ p, p = c) l)) as [Hall|Hno].
  - left. exists c. split; [done|]. by constructor.
  - right. apply not_Forall_Exists in Hno; [|solve_decision].
    apply Exists_exists in Hno as (c' & Hin & Hne).
    exists c, c'. split_and!; [left|by right|congruence].
Qed.

(** X6.  For an image that opens, [get_poster_primary_color] has three
    outcomes and no other.  With nothing to count it returns the default
    tuple and logs nothing; with pixels of one single colour it returns
    the default tuple and logs an [IndexError]; otherwise it returns two
    different colours of the counted pixels, both with alpha 255: the
    most frequent one, and the most frequent of the rest.  The averaged
    colour of lines 617-622 is never returned. *)
Theorem sampler_outcomes {K : Imaging} {World : Type} {os : OS World}
    (image_path : string) (s : State World) (img : Image) (w : World) :
  Image_open image_path (world s) = (Ret img, w) →
  let pop := population (getdata (convert_RGBA
               (mkImage (im_mode img) 100 150 (lanczos_px img 100 150)))) in
  (pop = []
   ∧ get_poster_primary_color image_path s = (Ret default_color, mkState w (log s)))
  ∨ (∃ c, pop ≠ [] ∧ Forall (λ p, p = c) pop
          ∧ get_poster_primary_color image_path s
            = (Ret default_color,
               mkState w (log s ++ [(ERROR, MsgPrimaryColorFailed IndexError)])))
  ∨ (∃ c1 c2,
       get_poster_primary_color image_path s
       = (Ret (PyTuple [py_tuple_of_color (tuple4 c1); py_tuple_of_color (tuple4 c2)]),
          mkState w (log s))
       ∧ c1 ≠ c2 ∧ c1 ∈ pop ∧ c2 ∈ pop ∧ alpha c1 = 255 ∧ alpha c2 = 255
       ∧ (∀ d, occurrences d pop ≤ occurrences c1 pop)
       ∧ (∀ d, d ≠ c1 → occurrences d pop ≤ occurrences c2 pop)).
Proof.
  intros Hopen pop.
  rewrite (get_poster_primary_color_opened image_path s img w Hopen). fold pop.
  destruct (list_variety pop) as [E|[(c & Hne & Hall)|(c & c' & Hc & Hc' & Hne)]].
  - left. split; [done|]. rewrite E. reflexivity.
  - right. left. exists c. split; [done|]. split; [done|].
    by rewrite (dominant_colors_single pop c).
  - right. right.
    destruct (dominant_colors_pair pop c c' Hc Hc' Hne)
      as (c1 & c2 & Hd & H12 & H1 & H2 & Hmax & Hsnd).
    exists c1, c2. rewrite Hd. split; [done|].
    pose proof (population_opaque (getdata (convert_RGBA
                  (mkImage (im_mode img) 100 150 (lanczos_px img 100 150))))) as Hop.
    fold pop in Hop. rewrite Forall_forall in Hop.
    split_and!; try done; by apply Hop.
Qed.

Lemma sampler_outcomes_witness :
  let pop := population (getdata (convert_RGBA
               (mkImage (im_mode reference.two_tone) 100 150
                  (lanczos_px (Imaging := reference.kernel) reference.two_tone 100 150)))) in
  (pop = []
   ∧ get_poster_primary_color (K := reference.kernel) (os := reference.system)
       "/app/poster/Shows/2.jpg" (reference.start reference.disk)
     = (Ret default_color, mkState reference.disk (log (reference.start reference.disk))))
  ∨ (∃ c, pop ≠ [] ∧ Forall (λ p, p = c) pop
          ∧ get_poster_primary_color (K := reference.kernel) (os := reference.system)
              "/app/poster/Shows/2.jpg" (reference.start reference.disk)
            = (Ret default_color,
               mkState reference.disk
                 (log (reference.start reference.disk)
                  ++ [(ERROR, MsgPrimaryColorFailed IndexError)])))
  ∨ (∃ c1 c2,
       get_poster_primary_color (K := reference.kernel) (os := reference.system)
         "/app/poster/Shows/2.jpg" (reference.start reference.disk)
       = (Ret (PyTuple [py_tuple_of_color (tuple4 c1); py_tuple_of_color (tuple4 c2)]),
          mkState reference.disk (log (reference.start reference.disk)))
       ∧ c1 ≠ c2 ∧ c1 ∈ pop ∧ c2 ∈ pop ∧ alpha c1 = 255 ∧ alpha c2 = 255
       ∧ (∀ d, occurrences d pop ≤ occurrences c1 pop)
       ∧ (∀ d, d ≠ c1 → occurrences d pop ≤ occurrences c2 pop)).
Proof.
  apply (sampler_outcomes (K := reference.kernel) (os := reference.system)
           "/app/poster/Shows/2.jpg" (reference.start reference.disk)
           reference.two_tone reference.disk).
  reflexivity.
Defined.

(** ** File names: which names are covers *)

Lemma ascii_lower_dot (x : ascii) : ascii_lower x = "."%char → x = "."%char.
Proof.
  destruct x as [[] [] [] [] [] [] [] []]; vm_compute; intros H;
    (reflexivity || discriminate H).
Qed.

Lemma ascii_lower_slash (x : ascii) : ascii_lower x = "/"%char → x = "/"%char.
Proof.
  destruct x as [[] [] [] [] [] [] [] []]; vm_compute; intros H;
    (reflexivity || discriminate H).
Qed.

(** A character that [lower] neither makes nor removes occurs in a
    string exactly when it occurs in the lowered string. *)
Lemma rpartition_lower (c : ascii) (s : string) :
  ascii_lower c = c → (∀ x, ascii_lower x = c → x = c) →
  rpartition c (str_lower s) = None ↔ rpartition c s = None.
Proof.
  intros Hc Hx. induction s as [|a s IH]; [done|].
  cbn [str_lower rpartition].
  destruct (rpartition c (str_lower s)) as [[??]|],
           (rpartition c s) as [[??]|]; try (by destruct IH as [I1 I2]; (discriminate I1 || discriminate I2 || done)).
  - split; discriminate.
  - destruct (Ascii.eqb_spec (ascii_lower a) c) as [E|E],
             (Ascii.eqb_spec a c) as [F|F]; try done.
    + by apply Hx in E.
    + subst a. by rewrite Hc in E.
Qed.

Lemma rpartition_sound (c : ascii) (s pre post : string) :
  rpartition c s = Some (pre, post) →
  s = pre +:+ String c post ∧ rpartition c post = None.
Proof.
  revert pre post. induction s as [|a s IH]; intros pre post; cbn; [done|].
  destruct (rpartition c s) as [[pre' post']|] eqn:E.
  - intros [= <- <-]. destruct (IH pre' post' eq_refl) as [-> Hn].
    by rewrite append_cons.
  - destruct (Ascii.eqb_spec a c) as [->|]; [|done].
    intros [= <- <-]. by rewrite append_nil_l.
Qed.

Lemma str_endswith_occurs (s t : string) (a : ascii) :
  str_endswith s (String a t) = true → rpartition a s ≠ None.
Proof.
  induction s as [|x s IH]; cbn; [done|].
  intros H. apply orb_true_iff in H as [H|H].
  - apply andb_true_iff in H as [H _]. apply Ascii.eqb_eq in H as ->.
    destruct (rpartition a s) as [[??]|]; [done|]. by rewrite Ascii.eqb_refl.
  - specialize (IH H). by destruct (rpartition a s) as [[??]|].
Qed.

Lemma str_endswith_refl (s : string) : str_endswith s s = true.
Proof. destruct s; cbn; [done|]. by rewrite Ascii.eqb_refl, String.eqb_refl. Qed.

Lemma str_endswith_cons (a : ascii) (s t : string) :
  str_endswith s t = true → str_endswith (String a s) t = true.
Proof. intros H. cbn [str_endswith]. rewrite H. apply orb_true_r. Qed.

Lemma digit_plain (d : ascii) :
  d ∈ list_ascii_of_string custom_order →
  d ≠ "."%char ∧ d ≠ "/"%char ∧ ascii_lower d = d.
Proof.
  intros H. cbn in H. rewrite !elem_of_cons in H.
  repeat (destruct H as [->|H]; [by split_and!|]). by apply elem_of_nil in H.
Qed.

Lemma format_shape (fmt : string) :
  fmt ∈ supported_formats →
  ∃ rest, fmt = String "." rest ∧ rpartition "." rest = None
          ∧ rpartition "/" fmt = None.
Proof.
  intros H. unfold supported_formats in H. rewrite !elem_of_cons in H.
  repeat (destruct H as [->|H]; [by eexists|]). by apply elem_of_nil in H.
Qed.

(** The stem and the extension of a name that starts with a priority
    digit and goes on with a dot and no further dot or slash. *)
Lemma splitext_digit_name (d : ascii) (post : string) :
  d ∈ list_ascii_of_string custom_order →
  rpartition "." post = None → rpartition "/" post = None →
  path.splitext (String d (String "." post)) = (String d EmptyString, String "." post).
Proof.
  intros Hd Hdot Hsep. destruct (digit_plain d Hd) as (Hd1 & Hd2 & _).
  unfold path.splitext. cbn [rpartition]. rewrite Hsep.
  change (Ascii.eqb "." "/") with false. cbv iota.
  destruct (Ascii.eqb_spec d "/") as [|_]; [done|].
  cbn [rpartition]. rewrite Hdot.
  change (Ascii.eqb "." ".") with true. cbv iota.
  cbn [all_chars]. destruct (Ascii.eqb_spec "." d) as [|_]; [done|].
  reflexivity.
Qed.

(** X7.  The names that the workflow takes for covers are exactly: one
    priority digit (1 to 9), followed by one of the six extensions in
    any mix of upper and lower case.  So "1.JPG" is a cover, and
    "01.jpg", "1.jpg.bak", "a.png" and "1" are not. *)
Theorem poster_name_shape (f : string) :
  is_poster_name f = true ↔
  ∃ d ext, f = String d ext
           ∧ d ∈ list_ascii_of_string custom_order
           ∧ str_lower ext ∈ supported_formats.
Proof.
  split.
  - intros Hf. apply andb_true_iff in Hf as [Hext Hstem].
    apply bool_decide_eq_true in Hstem as [i Hi].
    destruct (order_map_lookup _ _ Hi) as (d & Hstem & Hd & _).
    apply list_elem_of_lookup_2 in Hd.
    destruct (digit_plain d Hd) as (Hd1 & Hd2 & Hd3).
    pose proof (splitext_stem_no_sep f d Hstem Hd2) as Hsep.
    apply existsb_exists in Hext as (fmt & Hfmt & Hends).
    apply list_elem_of_In in Hfmt.
    destruct (format_shape fmt Hfmt) as (rest & -> & Hrest & _).
    unfold path.splitext in Hstem. rewrite Hsep in Hstem.
    assert (Hbare : f = String d EmptyString →
                    str_endswith (str_lower f) (String "." rest) = true → False).
    { intros -> H. cbn in H. rewrite Hd3 in H.
      destruct (Ascii.eqb_spec d ".") as [|_]; [done|].
      cbn in H. by destruct rest. }
    destruct (rpartition "." f) as [[pre post]|] eqn:E; cbn in Hstem.
    + destruct (all_chars (Ascii.eqb ".") pre); cbn in Hstem;
        [by destruct (Hbare Hstem Hends)|].
      rewrite append_nil_l in Hstem. subst pre.
      apply rpartition_sound in E as [-> Hpost].
      exists d, (String "." post). split; [done|]. split; [done|].
      rewrite append_cons, append_nil_l in Hends.
      cbn [str_lower str_endswith] in Hends. rewrite Hd3 in Hends.
      change (ascii_lower ".") with "."%char in Hends.
      assert (Hlow : rpartition "." (str_lower post) = None)
        by by apply rpartition_lower; [|apply ascii_lower_dot|].
      cbn [String.eqb] in Hends.
      destruct (Ascii.eqb_spec d ".") as [|_]; [done|]. cbn [andb orb] in Hends.
      apply orb_true_iff in Hends as [Hends|Hends].
      * change (Ascii.eqb "." ".") with true in Hends. cbn [andb] in Hends.
        apply String.eqb_eq in Hends. cbn [str_lower].
        change (ascii_lower ".") with "."%char. by rewrite Hends.
      * by apply str_endswith_occurs in Hends.
    + by destruct (Hbare Hstem Hends).
  - intros (d & ext & -> & Hd & Hext).
    destruct (digit_plain d Hd) as (Hd1 & Hd2 & Hd3).
    destruct (format_shape _ Hext) as (rest & Hlow & Hrest & Hsep).
    destruct ext as [|c0 post]; [done|]. cbn [str_lower] in Hlow.
    injection Hlow as Hc0 Hpost. apply ascii_lower_dot in Hc0 as ->.
    assert (Hdot : rpartition "." post = None).
    { apply (rpartition_lower "." post); [done|apply ascii_lower_dot|]. by rewrite Hpost. }
    assert (Hslash : rpartition "/" post = None).
    { apply (rpartition_lower "/" post); [done|apply ascii_lower_slash|].
      cbn [str_lower rpartition] in Hsep.
      by destruct (rpartition "/" (str_lower post)) as [[??]|]. }
    unfold is_poster_name. rewrite splitext_digit_name by done. cbn [fst].
    apply andb_true_iff. split.
    + apply existsb_exists. exists (str_lower (String "." post)).
      split; [by apply list_elem_of_In|].
      change (str_lower (String d (String "." post)))
        with (String (ascii_lower d) (str_lower (String "." post))).
      apply str_endswith_cons, str_endswith_refl.
    + apply bool_decide_eq_true. by apply order_map_digit.
Qed.

(** ** Covers of one digit *)

(** The sort is stable: elements of one key keep their order. *)
Lemma insert_by_filter {A} (key : A → Z) (k : Z) (x : A) (l : list A) :
  filter (λ y, key y = k) (insert_by key x l) = filter (λ y, key y = k) (x :: l).
Proof.
  induction l as [|y l IH]; [done|]. cbn [insert_by].
  destruct (key x <=? key y) eqn:E; [done|].
  rewrite filter_cons, IH, !filter_cons.
  destruct (decide (key y = k)), (decide (key x = k)); try done. lia.
Qed.

Lemma sort_by_stable {A} (key : A → Z) (k : Z) (l : list A) :
  filter (λ y, key y = k) (sort_by key l) = filter (λ y, key y = k) l.
Proof.
  induction l as [|x l IH]; [done|]. cbn [sort_by foldr].
  fold (sort_by key l). rewrite insert_by_filter, !filter_cons, IH. done.
Qed.

(** X8.  Among the selected covers, those whose names carry the same
    digit ("1.jpg" and "1.png") keep the order in which the directory
    lists them: the sort by priority is stable. *)
Theorem covers_of_one_digit_keep_order {K : Imaging} {World : Type} {os : OS World}
    (poster_folder : string) (s : State World) (entries : list string) (w : World) :
  os_listdir poster_folder (world s) = (Ret entries, w) →
  ∃ names poster_files s',
    list_poster_files poster_folder s = (Ret poster_files, s')
    ∧ sublist names entries
    ∧ ∀ i, filter (λ x, priority x = i) poster_files
           = filter (λ x, priority x = i) (path.join poster_folder <$> names).
Proof.
  intros Hls.
  destruct (list_poster_files_run poster_folder s entries w Hls)
    as (names & s' & Hrun & Hsub & _ & _).
  exists names, (sort_by priority (path.join poster_folder <$> names)), s'.
  split; [done|]. split; [done|]. intros i. apply sort_by_stable.
Qed.

Lemma covers_of_one_digit_keep_order_witness :
  ∃ names poster_files s',
    list_poster_files (K := reference.kernel) (os := reference.system)
      "/app/poster/Shows" (reference.start reference.disk) = (Ret poster_files, s')
    ∧ sublist names ["2.jpg"; "9.jpg"; "1.JPG"; "3.jpeg"; "7.webp"; "0.jpg"]
    ∧ ∀ i, filter (λ x, priority x = i) poster_files
           = filter (λ x, priority x = i) (path.join "/app/poster/Shows" <$> names).
Proof.
  apply (covers_of_one_digit_keep_order (K := reference.kernel) (os := reference.system)
           "/app/poster/Shows" (reference.start reference.disk)
           ["2.jpg"; "9.jpg"; "1.JPG"; "3.jpeg"; "7.webp"; "0.jpg"] reference.disk).
  reflexivity.
Defined.

(** ** Titles: blank titles, lines, templates *)

Lemma str_split_nil (s : string) : str_split s = [] ↔ all_chars is_space s = true.
Proof.
  unfold str_split. induction s as [|c s IH]; cbn [split_on all_chars].
  - rewrite filter_cons, decide_False by (intros H; by apply H). done.
  - destruct (is_space c); cbn [andb].
    + rewrite filter_cons, decide_False by (intros H; by apply H). exact IH.
    + destruct (split_on is_space s) as [|w ws];
        rewrite filter_cons, decide_True by done; done.
Qed.

(** X9.  [choose_font_size] (lines 903-916) raises [ValueError] exactly
    on a title without a token, one that consists of white space only,
    such as " ": the list of its tokens is empty and [max] has nothing
    to choose from.  For every other title it returns a size. *)
Theorem title_without_token (title : string) :
  (all_chars is_space title = true ↔ choose_font_size title = Raise ValueError)
  ∧ (all_chars is_space title = false ↔ ∃ f, choose_font_size title = Ret f).
Proof.
  unfold choose_font_size. pose proof (str_split_nil title) as Hnil.
  destruct (str_split title) as [|t ts] eqn:E.
  - assert (Hs : all_chars is_space title = true) by by apply Hnil.
    rewrite Hs. cbn. split; [done|]. split; [done|]. by intros [f Hf].
  - assert (Hs : all_chars is_space title = false).
    { destruct (all_chars is_space title); [|done].
      destruct Hnil as [_ H]. discriminate (H eq_refl). }
    rewrite Hs. cbn [fmap list_fmap py_max mbind result_bind].
    split.
    + split; [done|]. intros H. by destruct (_ || _).
    + split; [|done]. intros _. destruct (_ || _); by eexists.
Qed.

Lemma split_on_blanks (s : string) :
  Z.of_nat (length (str_split_space s)) = 1 + blanks s.
Proof.
  unfold str_split_space, blanks. induction s as [|c s IH]; [done|].
  cbn [split_on list_ascii_of_string]. rewrite filter_cons.
  destruct (Ascii.eqb_spec " " c) as [<-|Hne].
  - rewrite decide_True by done. cbn [length]. lia.
  - rewrite decide_False by congruence.
    destruct (split_on (Ascii.eqb " ") s) as [|w ws] eqn:E; cbn [length] in *; lia.
Qed.

(** X10.  The number of lines that [draw_multiline_text_on_image]
    reports is the number of blanks in the text plus one: every blank
    starts a new line, also a leading, a trailing or a doubled one, and
    a text without blanks is one line. *)
Theorem line_count_is_blanks_plus_one {K : Imaging} {World : Type} {os : OS World}
    {config : Config} (image : Image) (text : string) (position : Q * Q)
    (font_path : string) (font_size line_spacing : Z) (fill_color : color)
    (s : State World) (font : Font) (w : World) (ink : rgba) :
  ImageFont_truetype (path.join CURRENT_DIR font_path) font_size (world s)
    = (Ret font, w) →
  ink_of (im_mode image) fill_color = Ret ink →
  ∃ img',
    draw_multiline_text_on_image image text position font_path font_size
      line_spacing fill_color s
    = (Ret (img', 1 + blanks text), mkState w (log s))
    ∧ im_mode img' = im_mode image
    ∧ im_width img' = im_width image ∧ im_height img' = im_height image.
Proof.
  intros Hfont Hink.
  destruct (draw_multiline_line_count image text position font_path font_size
              line_spacing fill_color s font w ink Hfont Hink) as [img' Hrun].
  exists img'. rewrite <- split_on_blanks. split; [done|].
  assert (Hy : yields (draw_multiline_text_on_image image text position font_path
                         font_size line_spacing fill_color)
                 (λ r, im_mode r.1 = im_mode image ∧ im_width r.1 = im_width image
                       ∧ im_height r.1 = im_height image)).
  { unfold draw_multiline_text_on_image.
    eapply yields_bind; [apply yields_any|]. intros f _.
    destruct (Z.of_nat (length (str_split_space text)) <=? 1).
    - eapply yields_bind; [apply yields_any|]. intros i _. by apply yields_ret.
    - destruct position as [x y].
      eapply yields_bind; [|intros a Ha; apply yields_ret; exact Ha].
      apply (yields_for_each _ _
               (λ a, im_mode a = im_mode image ∧ im_width a = im_width image
                     ∧ im_height a = im_height image)); [|done].
      intros [i line] acc Hacc.
      eapply yields_bind; [apply yields_any|]. intros k _. by apply yields_ret. }
  exact (Hy _ _ _ Hrun).
Qed.

Lemma line_count_is_blanks_plus_one_witness :
  ∃ img',
    draw_multiline_text_on_image (K := reference.kernel) (os := reference.system)
      (config := reference.settings) (reference.solid RGBA 4 6 (Px 1 2 3 255))
      " Anime  Films" (0, 0)%Q "font/en.otf" 50 5 [255; 255; 255; 255]
      (reference.start reference.disk)
    = (Ret (img', 1 + blanks " Anime  Films"),
       mkState reference.disk (log (reference.start reference.disk)))
    ∧ im_mode img' = RGBA ∧ im_width img' = 4 ∧ im_height img' = 6.
Proof.
  apply (line_count_is_blanks_plus_one (K := reference.kernel) (os := reference.system)
           (config := reference.settings) (reference.solid RGBA 4 6 (Px 1 2 3 255))
           " Anime  Films" (0, 0)%Q "font/en.otf" 50 5 [255; 255; 255; 255]
           (reference.start reference.disk) tt reference.disk (Px 255 255 255 255));
    reflexivity.
Defined.

(** X11.  The titles of a library (lines 873-888): the first template
    whose [library_name] is the name decides, later ones are not looked
    at; a key that this template lacks falls back on its own, the
    primary title to the name and the secondary title to the empty
    string; and without a matching template the titles are the name
    and the empty string. *)
Theorem first_template_decides {config : Config} (name : string) :
  (Forall (λ t : gmap string string, t !! "library_name" ≠ Some name) TEMPLATE_MAPPING →
   library_titles name = (name, EmptyString))
  ∧ (∀ before t after,
       TEMPLATE_MAPPING = before ++ t :: after →
       Forall (λ t : gmap string string, t !! "library_name" ≠ Some name) before →
       t !! "library_name" = Some name →
       library_titles name
       = (default name (t !! "library_ch_name"),
          default EmptyString (t !! "library_eng_name"))).
Proof.
  unfold library_titles. split.
  - intros Hall.
    destruct (list_find _ TEMPLATE_MAPPING) as [[i t]|] eqn:E; [|done].
    apply list_find_Some in E as (Hi & Ht & _).
    rewrite Forall_forall in Hall. destruct (Hall t); [|done].
    by eapply list_elem_of_lookup_2.
  - intros before t after -> Hbefore Ht.
    assert (E : list_find (λ template : gmap string string,
                             template !! "library_name" = Some name)
                  (before ++ t :: after) = Some (length before, t)).
    { apply list_find_Some. split_and!.
      - by rewrite lookup_app_r, Nat.sub_diag by lia.
      - done.
      - intros j y Hj Hlt. rewrite lookup_app_l in Hj by done.
        rewrite Forall_forall in Hbefore. apply Hbefore.
        by eapply list_elem_of_lookup_2. }
    rewrite E. cbn [fmap option_fmap option_map snd].
    rewrite decide_False; [done|]. intros ->. by rewrite lookup_empty in Ht.
Qed.

Lemma first_template_decides_witness :
  library_titles (config := reference.settings) "Movies" = ("Films", "MOVIE").
Proof.
  apply (proj2 (first_template_decides (config := reference.settings) "Movies")
           [] _ [] eq_refl); [constructor|reflexivity].
Defined.

(** ** The staging canvas holds the whole column *)

Lemma staging_size_nonneg {config : Config} : 0 ≤ staging_size.
Proof.
  unfold staging_size, rotation_canvas_size.
  apply Z.div_pos; [apply Z.sqrt_nonneg|lia].
Qed.

(** X12.  For cells and columns of a size that is not negative, the
    column canvas, pasted off-centre as it is, lies entirely inside the
    square staging canvas: nothing of the column or of its shadow room
    is cut off before the rotation. *)
Theorem column_canvas_fits {config : Config} :
  0 ≤ CELL_WIDTH → 0 ≤ column_height →
  0 ≤ paste_x ∧ paste_x + (CELL_WIDTH + shadow_extra_width) ≤ staging_size
  ∧ 0 ≤ paste_y ∧ paste_y + (column_height + shadow_extra_height) ≤ staging_size.
Proof.
  intros Hw Hh. unfold paste_x, paste_y, staging_size, rotation_canvas_size,
    shadow_extra_width, shadow_extra_height.
  set (cw := CELL_WIDTH) in *. set (ch := column_height) in *.
  set (S := (cw + (20 + 20 * 2)) ^ 2 + (ch + (20 + 20 * 2)) ^ 2).
  assert (Hx : 2 * cw + 240 ≤ Z.sqrt (9 * S)).
  { apply Z.sqrt_le_square; [subst S; nia|lia|]. subst S. nia. }
  assert (Hy : 2 * ch + 240 ≤ Z.sqrt (9 * S)).
  { apply Z.sqrt_le_square; [subst S; nia|lia|]. subst S. nia. }
  set (r := Z.sqrt (9 * S)) in *.
  pose proof (Z.mul_div_le r 2). pose proof (Z.mul_succ_div_gt r 2).
  set (side := r / 2) in *.
  pose proof (Z.mul_div_le (side - cw) 2). pose proof (Z.mul_succ_div_gt (side - cw) 2).
  pose proof (Z.mul_div_le (side - ch) 2). pose proof (Z.mul_succ_div_gt (side - ch) 2).
  lia.
Qed.

Lemma column_canvas_fits_witness :
  0 ≤ paste_x (config := reference.settings)
  ∧ paste_x (config := reference.settings) + (410 + shadow_extra_width)
    ≤ staging_size (config := reference.settings)
  ∧ 0 ≤ paste_y (config := reference.settings)
  ∧ paste_y (config := reference.settings)
    + (column_height (config := reference.settings) + shadow_extra_height)
    ≤ staging_size (config := reference.settings).
Proof.
  apply (column_canvas_fits (config := reference.settings)); vm_compute; discriminate.
Defined.

(** X13.  How [add_shadow] and the column canvas fit together.  A cover
    resized to the cell size and given its shadow (offset 20, radius 20)
    is [CELL_WIDTH + 60] by [CELL_HEIGHT + 60], the width of the column
    canvas; pasted at the height of its row, with a margin that is not
    negative, it ends inside the column canvas, and the cover of the
    last row ends exactly at its bottom edge. *)
Theorem shadowed_cover_fits {K : Imaging} {config : Config}
    (poster resized : Image) (row_index : Z) :
  resize poster CELL_WIDTH CELL_HEIGHT = Ret resized →
  0 ≤ MARGIN → 0 ≤ row_index → row_index < ROWS →
  ∃ out,
    add_shadow resized (20, 20) [0; 0; 0; 255] 20 = Ret out
    ∧ im_width out = CELL_WIDTH + shadow_extra_width
    ∧ im_height out = CELL_HEIGHT + shadow_extra_height
    ∧ 0 ≤ row_index * (CELL_HEIGHT + MARGIN)
    ∧ row_index * (CELL_HEIGHT + MARGIN) + im_height out
      ≤ column_height + shadow_extra_height
    ∧ (row_index = ROWS - 1 →
       row_index * (CELL_HEIGHT + MARGIN) + im_height out
       = column_height + shadow_extra_height).
Proof.
  intros Hresize Hmargin Hrow Hrows.
  unfold resize in Hresize.
  destruct ((CELL_WIDTH <? 1) || (CELL_HEIGHT <? 1)) eqn:Esize; [done|].
  injection Hresize as <-.
  set (resized := mkImage (im_mode poster) CELL_WIDTH CELL_HEIGHT _).
  destruct (add_shadow_run resized 20 20 20 (Px 0 0 0 255))
    as (out & Hrun & _ & Hw & Hh & _); [cbn; lia..|].
  exists out. split; [exact Hrun|].
  cbn [im_width im_height resized] in Hw, Hh.
  unfold column_height, shadow_extra_width, shadow_extra_height.
  split_and!; [lia|lia|nia|nia|].
  intros ->. rewrite Hh. lia.
Qed.

Lemma shadowed_cover_fits_witness :
  ∃ out,
    add_shadow (K := reference.kernel)
      (mkImage RGBA 410 610
         (lanczos_px (Imaging := reference.kernel) reference.quad 410 610))
      (20, 20) [0; 0; 0; 255] 20 = Ret out
    ∧ im_width out = 410 + shadow_extra_width
    ∧ im_height out = 610 + shadow_extra_height
    ∧ 0 ≤ 2 * (610 + 22)
    ∧ 2 * (610 + 22) + im_height out
      ≤ column_height (config := reference.settings) + shadow_extra_height
    ∧ (2 = 3 - 1 →
       2 * (610 + 22) + im_height out
       = column_height (config := reference.settings) + shadow_extra_height).
Proof.
  apply (shadowed_cover_fits (K := reference.kernel) (config := reference.settings)
           reference.quad _ 2); [reflexivity|done|done|done].
Defined.

(** ** One column: the errors of its covers stay inside *)

Lemma stable_True {K : Imaging} {World : Type} {os : OS World}
    (writes : string → Prop) :
  stable writes (λ _ : World, True).
Proof. by split. Qed.

Section ColumnFacts.
Context {K : Imaging} {World : Type} {os : OS World} {config : Config}.

Lemma paste_shape (dst src : Image) (box : Z * Z) (mask : option Image) (r : Image) :
  paste dst src box mask = Ret r → same_shape r dst.
Proof.
  unfold paste. destruct box as [x0 y0].
  destruct mask as [m|]; cbn [mbind result_bind].
  - destruct ((im_width m =? im_width src) && (im_height m =? im_height src)); [|done].
    destruct (mask_band m) as [band|e]; cbn; [|done]. by intros [= <-].
  - by intros [= <-].
Qed.

Lemma place_poster_shape (column_image : Image) (row_index : Z) (poster_path : string) :
  yields (place_poster column_image row_index poster_path)
         (λ r, same_shape r column_image).
Proof.
  unfold place_poster.
  eapply yields_bind; [apply yields_any|]. intros poster _.
  eapply yields_bind; [apply yields_any|]. intros resized _.
  eapply yields_bind; [apply yields_any|]. intros rounded _.
  eapply yields_bind; [apply yields_any|]. intros shadowed _.
  apply yields_lift. intros r. apply paste_shape.
Qed.

Lemma place_poster_quiet (column_image : Image) (row_index : Z) (poster_path : string) :
  quiet (place_poster column_image row_index poster_path).
Proof.
  unfold place_poster.
  apply quiet_bind; [apply quiet_call|]. intros poster.
  apply quiet_bind; [apply quiet_lift|]. intros resized.
  apply quiet_bind.
  { destruct (0 <? CORNER_RADIUS); [|apply quiet_ret].
    apply quiet_bind; [apply quiet_lift|]. intros mask.
    apply quiet_bind; [apply quiet_lift|]. intros ink.
    apply quiet_bind; [apply quiet_lift|]. intros pwc. apply quiet_lift. }
  intros rounded.
  apply quiet_bind; [apply quiet_lift|]. intros shadowed. apply quiet_lift.
Qed.

Lemma place_poster_keeps (writes : string → Prop) (Inv : World → Prop)
    (column_image : Image) (row_index : Z) (poster_path : string) :
  stable writes Inv → keeps Inv (place_poster column_image row_index poster_path).
Proof.
  intros Hst. unfold place_poster.
  apply keeps_bind; [apply keeps_call; apply Hst|]. intros poster.
  apply keeps_bind; [apply keeps_lift|]. intros resized.
  apply keeps_bind.
  { destruct (0 <? CORNER_RADIUS); [|apply keeps_ret].
    apply keeps_bind; [apply keeps_lift|]. intros mask.
    apply keeps_bind; [apply keeps_lift|]. intros ink.
    apply keeps_bind; [apply keeps_lift|]. intros pwc. apply keeps_lift. }
  intros rounded.
  apply keeps_bind; [apply keeps_lift|]. intros shadowed. apply keeps_lift.
Qed.

(** The loop of lines 736-796: it returns whatever the covers are; a
    cover that fails leaves one error record and the canvas as it
    was. *)
Lemma column_loop_run (writes : string → Prop) (Inv : World → Prop)
    (name : string) :
  stable writes Inv →
  ∀ (posters : list (Z * string)) (img : Image) (s : State World),
  Inv (world s) →
  ∃ img' s' errs,
    for_each posters img
      (λ '(row_index, poster_path) column_image,
         try_except (place_poster column_image row_index poster_path)
           (λ e,
            logger ERROR (MsgImageFailed SERVER_NAME name
                            (path.basename poster_path) e);;
            mret column_image)) s
    = (Ret img', s')
    ∧ same_shape img' img
    ∧ log s' = log s ++ errs
    ∧ Forall (cover_error SERVER_NAME name) errs
    ∧ (length errs ≤ length posters)%nat
    ∧ Inv (world s').
Proof.
  intros Hst. induction posters as [|[i p] posters IH]; intros img s Hs.
  - exists img, s, []. cbn. rewrite app_nil_r. by split_and!.
  - cbn [for_each]. rewrite run_bind. unfold try_except at 1.
    pose proof (place_poster_quiet img i p s) as Hq.
    pose proof (place_poster_keeps writes Inv img i p Hst s Hs) as Hk.
    pose proof (place_poster_shape img i p s) as Hy.
    destruct (place_poster img i p s) as [[img1|e] s1]; cbn in Hq, Hk.
    + destruct (IH img1 s1 Hk) as (img' & s' & errs & Hrun & Hsh & Hlog & Herr & Hlen & Hinv).
      exists img', s', errs. split; [done|].
      destruct (Hy img1 s1 eq_refl) as (M1 & W1 & H1). destruct Hsh as (M2 & W2 & H2).
      split_and!; try done; try congruence.
      * unfold same_shape. split_and!; congruence.
      * cbn. lia.
    + rewrite run_bind. cbn [logger mret M_ret].
      set (s2 := mkState (world s1) _).
      destruct (IH img s2 Hk) as (img' & s' & errs & Hrun & Hsh & Hlog & Herr & Hlen & Hinv).
      exists img', s', ((ERROR, MsgImageFailed SERVER_NAME name (path.basename p) e) :: errs).
      split; [done|]. split; [done|]. split_and!; try done.
      * rewrite Hlog. subst s2. cbn [log]. rewrite Hq. by rewrite <- app_assoc.
      * constructor; [by eexists _, _|done].
      * cbn. lia.
Qed.

(** An RGBA image pasted under its own alpha. *)
Lemma paste_self_mask (dst src : Image) (box : Z * Z) :
  im_mode src = RGBA →
  ∃ r, paste dst src box (Some src) = Ret r ∧ same_shape r dst.
Proof.
  intros Hm. unfold paste, mask_band. destruct box as [x0 y0].
  rewrite !Z.eqb_refl, Hm. cbn [andb fmap result_fmap mbind result_bind].
  by eexists.
Qed.

Lemma rotate_mode (img : Image) (angle : Q) : im_mode (rotate img angle) = im_mode img.
Proof. unfold rotate. by destruct (rotate_bicubic angle img) as [[w h] p]. Qed.

(** Lines 718-857 for one column. *)
Lemma place_column_run (writes : string → Prop) (Inv : World → Prop)
    (name columns_dir : string) (col_index : Z) (column_posters : list string)
    (result : Image) (s : State World) :
  stable writes Inv →
  (SAVE_COLUMNS = true →
   writes (path.join columns_dir
             (name +:+ "_column_" +:+ pretty (col_index + 1) +:+ "_original.png"))
   ∧ writes (path.join columns_dir
               ("column_" +:+ pretty (col_index + 1) +:+ "_rotated.png"))) →
  (SAVE_COLUMNS = true →
   ∀ img p w, writes p → Inv w → ∃ w', Image_save img p w = (Ret (), w')) →
  -60 ≤ CELL_WIDTH → -60 ≤ column_height →
  Inv (world s) →
  ∃ img' s' recs,
    place_column name columns_dir col_index column_posters result s = (Ret img', s')
    ∧ same_shape img' result
    ∧ log s' = log s ++ recs
    ∧ Forall (λ r, (SAVE_COLUMNS = true ∧ r.1 = DEBUG)
                   ∨ cover_error SERVER_NAME name r) recs
    ∧ (SAVE_COLUMNS = false → (length recs ≤ length column_posters)%nat)
    ∧ Inv (world s').
Proof.
  intros Hst Hpaths Hsave Hcw Hch Hs. unfold place_column.
  rewrite (Image_new_clear (CELL_WIDTH + shadow_extra_width)
             (column_height + shadow_extra_height)), run_lift_ret
    by (unfold shadow_extra_width, shadow_extra_height; lia).
  set (canvas := mkImage RGBA _ _ _).
  destruct (column_loop_run writes Inv name Hst (enumerate column_posters) canvas s Hs)
    as (col & s1 & errs & Hloop & (Hm & _ & _) & Hlog1 & Herrs & Hlen & H1).
  rewrite run_bind, Hloop. cbn [im_mode canvas] in Hm.
  assert (Hlen' : (length errs ≤ length column_posters)%nat).
  { unfold enumerate in Hlen. rewrite length_zip, length_seqZ in Hlen. lia. }
  pose proof staging_size_nonneg as Hside.
  set (rc := mkImage RGBA staging_size staging_size (λ _ _, Px 0 0 0 0)).
  destruct (paste_self_mask rc col (paste_x, paste_y) Hm) as (rc' & Hp1 & (Hrm & _ & _)).
  set (rotated := rotate rc' ROTATION_ANGLE).
  assert (Hrot : im_mode rotated = RGBA) by (subst rotated; by rewrite rotate_mode).
  assert (Herrs' : Forall (λ r, (SAVE_COLUMNS = true ∧ r.1 = DEBUG)
                                ∨ cover_error SERVER_NAME name r) errs).
  { eapply Forall_impl; [exact Herrs|]. intros r Hr. by right. }
  destruct (if col_index =? 1 then _ else _) as [fx fy].
  destruct (paste_self_mask result rotated
              (fx - im_width rotated / 2 + CELL_WIDTH / 2,
               fy - im_height rotated / 2) Hrot) as (img' & Hp2 & Hsh).
  destruct SAVE_COLUMNS eqn:Esave; cbv iota.
  - set (p1 := path.join columns_dir
                  (name +:+ "_column_" +:+ pretty (col_index + 1) +:+ "_original.png")).
    set (p2 := path.join columns_dir
                  ("column_" +:+ pretty (col_index + 1) +:+ "_rotated.png")).
    destruct (Hpaths eq_refl) as [Hp1w Hp2w]. fold p1 in Hp1w. fold p2 in Hp2w.
    destruct (Hsave eq_refl col p1 (world s1) Hp1w H1) as [w2 Hsv1].
    assert (H2 : Inv w2).
    { pose proof (stable_save writes Inv Hst col p1 (world s1) Hp1w H1) as H.
      by rewrite Hsv1 in H. }
    destruct (Hsave eq_refl rotated p2 w2 Hp2w H2) as [w3 Hsv2].
    assert (H3 : Inv w3).
    { pose proof (stable_save writes Inv Hst rotated p2 w2 Hp2w H2) as H.
      by rewrite Hsv2 in H. }
    eexists img', _, _. split.
    { rewrite run_bind_assoc, (run_call_ret _ _ _ _ _ Hsv1), run_logger.
      rewrite (Image_new_clear staging_size staging_size), run_lift_ret by done. fold rc.
      rewrite Hp1, run_lift_ret. fold rotated.
      rewrite run_bind_assoc, (run_call_at _ _ _ _ _ w3 Hsv2), run_logger.
      cbv zeta. unfold lift. rewrite Hp2. reflexivity. }
    split; [done|]. cbn [log]. rewrite Hlog1, <- !app_assoc. split; [reflexivity|].
    split; [|done].
    apply Forall_app. split; [done|]. repeat constructor; left; done.
  - exists img', s1, errs. split.
    { rewrite run_ret.
      rewrite (Image_new_clear staging_size staging_size), run_lift_ret by done. fold rc.
      rewrite Hp1, run_lift_ret. fold rotated. rewrite run_ret.
      cbv zeta. unfold lift. by rewrite Hp2. }
    by split_and!.
Qed.

End ColumnFacts.

(** X14.  Without the saving of columns, one column is always placed:
    [place_column] returns, for every list of covers and in every
    world, an image of the mode and size of the one it was given.
    Whatever goes wrong with a cover (it does not open, it cannot be
    resized) is logged as an error about that cover, at most one record
    per cover, and nothing else is logged. *)
Theorem cover_errors_stay_in_column {K : Imaging} {World : Type} {os : OS World}
    {config : Config} (name columns_dir : string) (col_index : Z)
    (column_posters : list string) (result : Image) (s : State World) :
  SAVE_COLUMNS = false → -60 ≤ CELL_WIDTH → -60 ≤ column_height →
  ∃ img' s' errs,
    place_column name columns_dir col_index column_posters result s = (Ret img', s')
    ∧ same_shape img' result
    ∧ log s' = log s ++ errs
    ∧ Forall (cover_error SERVER_NAME name) errs
    ∧ (length errs ≤ length column_posters)%nat.
Proof.
  intros Hsave Hcw Hch.
  destruct (place_column_run (λ _, True) (λ _, True) name columns_dir col_index
              column_posters result s (stable_True _))
    as (img' & s' & recs & Hrun & Hsh & Hlog & Hrecs & Hlen & _);
    [by rewrite Hsave|by rewrite Hsave|done|done|done|].
  exists img', s', recs. split; [done|]. split; [done|]. split; [done|]. split.
  - eapply Forall_impl; [exact Hrecs|]. intros r [[E _]|Hr]; [congruence|done].
  - by apply Hlen.
Qed.

Lemma cover_errors_stay_in_column_witness :
  ∃ img' s' errs,
    place_column (K := reference.kernel) (os := reference.system)
      (config := reference.settings) "Shows" "/app/output/columns" 0
      ["/app/poster/Shows/3.jpeg"; "/app/poster/Shows/lost.jpg"]
      (reference.solid RGBA 8 8 (Px 1 2 3 255)) (reference.start reference.disk)
    = (Ret img', s')
    ∧ same_shape img' (reference.solid RGBA 8 8 (Px 1 2 3 255))
    ∧ log s' = log (reference.start reference.disk) ++ errs
    ∧ Forall (cover_error "jellyfin" "Shows") errs
    ∧ (length errs ≤ 2)%nat.
Proof.
  apply (cover_errors_stay_in_column (K := reference.kernel) (os := reference.system)
           (config := reference.settings) "Shows" "/app/output/columns" 0
           ["/app/poster/Shows/3.jpeg"; "/app/poster/Shows/lost.jpg"]
           (reference.solid RGBA 8 8 (Px 1 2 3 255)) (reference.start reference.disk));
    [reflexivity | vm_compute; discriminate | vm_compute; discriminate].
Defined.

(** ** The workflow: a grid without rows *)

Lemma keeps_True {World A : Type} (m : M World A) : keeps (λ _, True) m.
Proof. by intros s _. Qed.

Lemma group_posters_zero (l : list string) : group_posters l 0 = Raise ValueError.
Proof. reflexivity. Qed.

(** X15.  With [ROWS = 0] in the configuration the workflow fails for
    every library and in every world: it answers [False], and the last
    log record is an error.  (Where covers are found, line 708 asks for
    [range(0, n, 0)].) *)
Theorem zero_rows_always_fail {K : Imaging} {World : Type} {os : OS World}
    {config : Config} (name : string) (s : State World) :
  ROWS = 0 →
  ∃ s' earlier msg,
    gen_poster_workflow name s = (Ret false, s')
    ∧ log s' = earlier ++ [(ERROR, msg)].
Proof.
  intros Hrows.
  assert (Hfail : ends_in_failure (workflow_body name s)).
  { unfold workflow_body. set (Inv := λ _ : World, True).
    apply (ends_in_failure_bind Inv); [apply keeps_True|done|]. intros _ s1 _.
    apply (ends_in_failure_bind Inv); [apply keeps_True|done|]. intros _ s2 _.
    apply (ends_in_failure_bind Inv); [apply keeps_True|done|]. intros sampled s3 _.
    apply (ends_in_failure_bind Inv); [apply keeps_True|done|]. intros [c1 c2] s4 _.
    apply (ends_in_failure_bind Inv); [apply keeps_True|done|]. intros color1 s5 _.
    apply (ends_in_failure_bind Inv); [apply keeps_True|done|]. intros color2 s6 _.
    apply (ends_in_failure_bind Inv); [apply keeps_True|done|]. intros bg s7 _.
    apply (ends_in_failure_bind Inv); [apply keeps_True|done|]. intros there s8 _.
    apply (ends_in_failure_bind Inv); [apply keeps_True|done|]. intros _ s9 _.
    apply (ends_in_failure_bind Inv); [apply keeps_True|done|]. intros _ s10 _.
    apply (ends_in_failure_bind Inv); [apply keeps_True|done|].
    intros [|f files] s11 _.
    - cbn. split; [done|]. eauto.
    - cbv zeta. rewrite Hrows, group_posters_zero. done. }
  rewrite gen_poster_workflow_outcome. unfold ends_in_failure in Hfail.
  destruct (workflow_body name s) as [[b|e] s1]; cbn in Hfail.
  - destruct Hfail as (-> & earlier & msg & Hlog). eauto.
  - eexists _, _, _. split; reflexivity.
Qed.

Lemma zero_rows_always_fail_witness :
  ∃ s' earlier msg,
    gen_poster_workflow (K := reference.kernel) (os := reference.system)
      (config := settings_without_rows) "Shows" (reference.start reference.disk)
    = (Ret false, s')
    ∧ log s' = earlier ++ [(ERROR, msg)].
Proof.
  apply (zero_rows_always_fail (K := reference.kernel) (os := reference.system)
           (config := settings_without_rows) "Shows" (reference.start reference.disk)).
  reflexivity.
Defined.

(** ** The workflow: a font that does not load *)

(** X16.  Unlike the failure of a cover, the failure of the font of the
    primary title is not contained: when "font/ch.ttf" under
    [CURRENT_DIR] cannot be loaded at size 163, the workflow answers
    [False] for every library, with an error as its last log record,
    whatever covers were found and placed before. *)
Theorem missing_font_fails {K : Imaging} {World : Type} {os : OS World}
    {config : Config} (name : string) (s : State World) :
  (∀ w, ∃ e w',
     ImageFont_truetype (path.join CURRENT_DIR (path.join "font" "ch.ttf")) 163 w
     = (Raise e, w')) →
  ∃ s' earlier msg,
    gen_poster_workflow name s = (Ret false, s')
    ∧ log s' = earlier ++ [(ERROR, msg)].
Proof.
  intros Hfont.
  assert (Hfail : ends_in_failure (workflow_body name s)).
  { unfold workflow_body. set (Inv := λ _ : World, True).
    apply (ends_in_failure_bind Inv); [apply keeps_True|done|]. intros _ s1 _.
    apply (ends_in_failure_bind Inv); [apply keeps_True|done|]. intros _ s2 _.
    apply (ends_in_failure_bind Inv); [apply keeps_True|done|]. intros sampled s3 _.
    apply (ends_in_failure_bind Inv); [apply keeps_True|done|]. intros [c1 c2] s4 _.
    apply (ends_in_failure_bind Inv); [apply keeps_True|done|]. intros color1 s5 _.
    apply (ends_in_failure_bind Inv); [apply keeps_True|done|]. intros color2 s6 _.
    apply (ends_in_failure_bind Inv); [apply keeps_True|done|]. intros bg s7 _.
    apply (ends_in_failure_bind Inv); [apply keeps_True|done|]. intros there s8 _.
    apply (ends_in_failure_bind Inv); [apply keeps_True|done|]. intros _ s9 _.
    apply (ends_in_failure_bind Inv); [apply keeps_True|done|]. intros _ s10 _.
    apply (ends_in_failure_bind Inv); [apply keeps_True|done|].
    intros [|f files] s11 _.
    - cbn. split; [done|]. eauto.
    - cbv zeta.
      apply (ends_in_failure_bind Inv); [apply keeps_True|done|]. intros groups s12 _.
      apply (ends_in_failure_bind Inv); [apply keeps_True|done|]. intros result s13 _.
      apply (ends_in_failure_bind Inv); [apply keeps_True|done|]. intros accent s14 _.
      destruct (library_titles name) as [library_ch_name library_eng_name].
      rewrite run_bind. unfold draw_text_on_image. rewrite run_bind. unfold call at 1.
      destruct (Hfont (world s14)) as (e & w' & ->). done. }
  rewrite gen_poster_workflow_outcome. unfold ends_in_failure in Hfail.
  destruct (workflow_body name s) as [[b|e] s1]; cbn in Hfail.
  - destruct Hfail as (-> & earlier & msg & Hlog). eauto.
  - eexists _, _, _. split; reflexivity.
Qed.

Lemma missing_font_fails_witness :
  ∃ s' earlier msg,
    gen_poster_workflow (K := reference.kernel) (os := fontless)
      (config := reference.settings) "Shows" (reference.start reference.disk)
    = (Ret false, s')
    ∧ log s' = earlier ++ [(ERROR, msg)].
Proof.
  apply (missing_font_fails (K := reference.kernel) (os := fontless)
           (config := reference.settings) "Shows" (reference.start reference.disk)).
  intros w. by exists OSError, w.
Defined.

(** ** The workflow: when a poster is made *)

Lemma as_color_tuple (c : color) : as_color (py_tuple_of_color c) = Ret c.
Proof.
  unfold as_color, py_tuple_of_color. induction c as [|x c IH]; [done|].
  cbn [fmap list_fmap map_result mbind result_bind] in *. by rewrite IH.
Qed.

Lemma group_posters_returns (l : list string) (rows : Z) :
  rows ≠ 0 → ∃ groups, group_posters l rows = Ret groups.
Proof.
  intros Hr. unfold group_posters, py_range.
  assert ((rows =? 0) = false) as -> by lia.
  destruct (0 <? rows); by eexists.
Qed.

Lemma succeeds_assoc {K : Imaging} {World : Type} {os : OS World} {A B C}
    (Inv : World → Prop) (m : M World A) (f : A → M World B) (g : B → M World C)
    (P : B → Prop) (Q : C → State World → Prop) :
  succeeds Inv (m ≫= f) (λ b _, P b) → (∀ b, P b → succeeds Inv (g b) Q) →
  succeeds Inv (m ≫= (λ a, f a ≫= g)) Q.
Proof.
  intros Hm Hg s Hs. rewrite <- run_bind_assoc.
  by apply (succeeds_bind Inv (m ≫= f) g P Q).
Qed.

Lemma succeeds_lift_eq {K : Imaging} {World : Type} {os : OS World} {A}
    (Inv : World → Prop) (r : result A) (a : A) :
  r = Ret a → succeeds Inv (lift r : M World A) (λ b _, b = a).
Proof. intros -> s Hs. by exists a, s. Qed.

Lemma choose_font_size_returns (title : string) :
  all_chars is_space title = false →
  ∃ f longest, choose_font_size title = Ret f
               ∧ py_max (str_len <$> str_split title) = Ret longest.
Proof.
  intros Hs. unfold choose_font_size.
  destruct (str_split title) as [|t ts] eqn:E.
  - apply str_split_nil in E. congruence.
  - cbn [fmap list_fmap py_max mbind result_bind]. destruct (_ || _); by eexists _, _.
Qed.

(** The applied size is never under the floor. *)
Lemma int_font_size_least (f : font_size_value) : 30 ≤ int_font_size f.
Proof.
  destruct f as [|m]; cbn [int_font_size]; [done|].
  pose proof (largest_with_spec (λ k, k ^ 5 * m ^ 4 <=? 50 ^ 5 * 10 ^ 4) 30 286)
    as [H _].
  change (30 + Z.of_nat 286) with 316 in H. lia.
Qed.

(** A block whose size is not negative is drawn. *)
Lemma draw_color_block_returns {K : Imaging} (image : Image) (position size : Q * Q)
    (c : color) :
  im_mode image = RGBA → length c = 4%nat → (0 <= size.1)%Q → (0 <= size.2)%Q →
  ∃ img, draw_color_block image position size c = Ret img ∧ im_mode img = RGBA.
Proof.
  intros Hm Hc Hw Hh. unfold draw_color_block. rewrite Hm.
  destruct c as [|r [|g [|b [|a [|??]]]]]; try done.
  cbn [ink_of mbind result_bind fst snd].
  assert (Hgrow : ∀ x d : Q, (0 <= d)%Q → Qle_bool x (x + d) = true).
  { intros x d Hd. apply Qle_bool_iff.
    rewrite <- (Qplus_0_r x) at 1. by apply Qplus_le_r. }
  rewrite !Hgrow by done. cbn [andb].
  by eexists.
Qed.

Section Success.
Context {K : Imaging} {World : Type} {os : OS World} {config : Config}.
Variables (Inv : World → Prop) (name : string).
Hypothesis Inv_stable : stable (workflow_writes name) Inv.

(** [if not os.path.exists(p): os.makedirs(p)] *)
Lemma ensure_dir_succeeds (p : string) :
  workflow_writes name p →
  (∀ w, Inv w → (os_path_exists p w).1 = false →
        ∃ w', os_makedirs p (os_path_exists p w).2 = (Ret (), w')) →
  succeeds Inv
    (there ← ask (os_path_exists p);
     if negb there then call (os_makedirs p) else mret ())
    (λ _ _, True).
Proof.
  intros Hp Hmk s Hs. rewrite run_ask.
  pose proof (stable_exists _ Inv Inv_stable p (world s) Hs) as H1.
  specialize (Hmk (world s) Hs).
  destruct (os_path_exists p (world s)) as [there w1]. cbn [fst snd] in *.
  destruct there; cbn [negb].
  - by eexists _, _.
  - destruct (Hmk eq_refl) as [w2 Hw2].
    pose proof (stable_makedirs _ Inv Inv_stable p w1 Hp H1) as H2. rewrite Hw2 in H2.
    unfold call. cbn [world]. rewrite Hw2. by eexists _, _.
Qed.

Lemma sampler_succeeds (image_path : string) :
  (∀ w, Inv w →
     ∃ img w', Image_open image_path w = (Ret img, w')
       ∧ ∃ c c', c ≠ c'
           ∧ c ∈ population (getdata (convert_RGBA
                   (mkImage (im_mode img) 100 150 (lanczos_px img 100 150))))
           ∧ c' ∈ population (getdata (convert_RGBA
                   (mkImage (im_mode img) 100 150 (lanczos_px img 100 150))))) →
  succeeds Inv (get_poster_primary_color image_path)
    (λ v _, ∃ c1 c2, v = PyTuple [py_tuple_of_color (tuple4 c1);
                                  py_tuple_of_color (tuple4 c2)]).
Proof.
  intros Hopen s Hs.
  destruct (Hopen (world s) Hs) as (img & w' & Ho & c & c' & Hne & Hc & Hc').
  pose proof (stable_open _ Inv Inv_stable image_path (world s) Hs) as H1.
  rewrite Ho in H1.
  rewrite (get_poster_primary_color_opened image_path s img w' Ho).
  destruct (dominant_colors_pair _ c c' Hc Hc' Hne) as (c1 & c2 & Hd & _).
  rewrite Hd. eexists _, _. split; [reflexivity|]. split; [done|]. by exists c1, c2.
Qed.

Lemma gradient_succeeds (width height : Z) (c1 c2 : rgba) :
  0 ≤ width → 0 ≤ height →
  succeeds Inv (create_gradient_background width height
                  (Some (tuple4 c1)) (Some (tuple4 c2)))
    (λ img _, im_mode img = RGBA).
Proof.
  intros Hw Hh s Hs.
  destruct (gradient_tail_run width height (red c1) (green c1) (blue c1)
              (red c2) (green c2) (blue c2) [alpha c1] [alpha c2] s)
    as (img & Hrun & Hm & _); [done|done|cbn; lia|].
  exists img, s. split; [exact Hrun|]. done.
Qed.

(** The comprehension of lines 680-687 under an invariant: an entry
    that passes the name test and is a file whenever the invariant
    holds is among the names kept. *)
Lemma filter_poster_names_found (poster_folder : string) (entries : list string) :
  ∀ s : State World, Inv (world s) →
  ∃ names s',
    filter_M (λ f,
        is_file ← ask (os_path_isfile (path.join poster_folder f));
        mret (is_file && is_poster_name f)) entries s
    = (Ret names, s')
    ∧ Forall (λ f, is_poster_name f = true) names
    ∧ Inv (world s')
    ∧ ∀ f, f ∈ entries → is_poster_name f = true →
           (∀ w, Inv w → (os_path_isfile (path.join poster_folder f) w).1 = true) →
           f ∈ names.
Proof.
  induction entries as [|f entries IH]; intros s Hs.
  - exists [], s. cbn. split_and!; try done.
  - cbn [filter_M]. rewrite run_bind_assoc, run_ask, run_ret.
    pose proof (stable_isfile _ Inv Inv_stable (path.join poster_folder f) (world s) Hs)
      as H1.
    set (b := (os_path_isfile (path.join poster_folder f) (world s)).1).
    set (s1 := mkState _ (log s)).
    destruct (IH s1 H1) as (names & s' & Hrun & Hall & Hinv & Hfound).
    rewrite run_bind, Hrun. cbn [mret M_ret].
    destruct (b && is_poster_name f) eqn:Hkeep.
    + exists (f :: names), s'. split_and!; try done.
      * constructor; [|done]. by apply andb_true_iff in Hkeep as [_ ?].
      * intros g Hg Hname Hfile. apply elem_of_cons in Hg as [->|Hg]; [left|right].
        by apply Hfound.
    + exists names, s'. split_and!; try done.
      intros g Hg Hname Hfile. apply elem_of_cons in Hg as [->|Hg]; [|by apply Hfound].
      exfalso. subst b. rewrite (Hfile (world s) Hs), Hname in Hkeep. done.
Qed.

Lemma list_poster_files_succeeds (poster_folder : string) :
  (∀ w, Inv w →
     ∃ entries w' f,
       os_listdir poster_folder w = (Ret entries, w')
       ∧ f ∈ entries ∧ is_poster_name f = true
       ∧ ∀ w2, Inv w2 → (os_path_isfile (path.join poster_folder f) w2).1 = true) →
  succeeds Inv (list_poster_files poster_folder) (λ files _, files ≠ []).
Proof.
  intros Hls s Hs.
  destruct (Hls (world s) Hs) as (entries & w' & f & Hl & Hf & Hname & Hfile).
  pose proof (stable_listdir _ Inv Inv_stable poster_folder (world s) Hs) as H1.
  rewrite Hl in H1. unfold list_poster_files.
  rewrite (run_call_ret _ _ _ _ _ Hl).
  destruct (filter_poster_names_found poster_folder entries (mkState w' (log s)) H1)
    as (names & s' & Hrun & Hall & Hinv & Hfound).
  rewrite run_bind, Hrun.
  assert (Hsort : sorted_by_key poster_key (path.join poster_folder <$> names)
                  = Ret (sort_by priority (path.join poster_folder <$> names))).
  { apply sorted_by_key_total.
    apply Forall_fmap. eapply Forall_impl; [exact Hall|].
    intros g Hg. cbn. unfold is_poster_name in Hg.
    apply andb_true_iff in Hg as [_ Hg]. apply bool_decide_eq_true in Hg as [i Hi].
    destruct (poster_key_join poster_folder g i Hi) as [-> ->]. done. }
  unfold lift. rewrite Hsort. eexists _, s'. split; [reflexivity|]. split; [done|].
  intros E. apply (f_equal length) in E.
  rewrite sort_by_length, length_fmap in E.
  specialize (Hfound f Hf Hname Hfile). destruct names; [by apply elem_of_nil in Hfound|done].
Qed.

Hypothesis save_ok :
  ∀ img p w, workflow_writes name p → Inv w → ∃ w', Image_save img p w = (Ret (), w').
Hypothesis font_ok :
  ∀ p n w,
    p = path.join CURRENT_DIR (path.join "font" "ch.ttf")
    ∨ p = path.join CURRENT_DIR (path.join "font" "en.otf") →
    Inv w → ∃ font w', ImageFont_truetype p n w = (Ret font, w').
Hypothesis width_ok : -60 ≤ CELL_WIDTH.
Hypothesis height_ok : -60 ≤ column_height.

Lemma columns_succeed (groups : list (Z * list string)) :
  ∀ result, im_mode result = RGBA →
  succeeds Inv
    (for_each groups result (λ '(i, x) a, place_column name (columns_dir_of name) i x a))
    (λ img _, im_mode img = RGBA).
Proof.
  induction groups as [|[i x] groups IH]; intros result Hm; cbn [for_each].
  - by apply succeeds_ret.
  - eapply succeeds_bind; [|intros a Ha; apply IH; exact Ha].
    intros s Hs.
    destruct (place_column_run (workflow_writes name) Inv name (columns_dir_of name)
                i x result s Inv_stable)
      as (img' & s' & recs & Hrun & (Hm' & _ & _) & _ & _ & _ & Hinv);
      [|intros _; apply save_ok|done|done|done|].
    { intros _. split; do 3 right; exists i; [by left|by right]. }
    exists img', s'. split; [done|]. split; [done|]. congruence.
Qed.

Lemma sample_pixel_keeps (img : Image) (x y : Z) :
  keeps Inv
    (if decide (im_mode img = RGBA) then
       t ← lift (getpixel img x y);
       '(r, g, b, a) ← lift (unpack4 t);
       mret [r; g; b; a]
     else if decide (im_mode img = RGB) then
       t ← lift (getpixel img x y);
       '(r, g, b) ← lift (unpack3 t);
       mret [r + 100; g + 50; b; 255]
     else
       let img := convert_RGBA img in
       t ← lift (getpixel img x y);
       '(r, g, b, a) ← lift (unpack4 t);
       mret [r; g; b; a]).
Proof.
  destruct (decide (im_mode img = RGBA)); [|destruct (decide (im_mode img = RGB))];
    cbv zeta;
    (apply keeps_bind; [apply keeps_lift|]; intros t;
     apply keeps_bind; [apply keeps_lift|]).
  - intros [[[r g] b] a]. apply keeps_ret.
  - intros [[r g] b]. apply keeps_ret.
  - intros [[[r g] b] a]. apply keeps_ret.
Qed.

Lemma fallback_color_succeeds :
  succeeds Inv
    (r ← randint 50 200; g ← randint 50 200; b ← randint 50 200;
     mret [r; g; b; 255])
    (λ c _, length c = 4%nat).
Proof.
  eapply succeeds_bind; [by eapply succeeds_randint|]. intros r _.
  eapply succeeds_bind; [by eapply succeeds_randint|]. intros g _.
  eapply succeeds_bind; [by eapply succeeds_randint|]. intros b _.
  by apply succeeds_ret.
Qed.

Lemma get_random_color_succeeds (image_path : string) :
  succeeds Inv (get_random_color image_path) (λ c _, length c = 4%nat).
Proof.
  unfold get_random_color. apply succeeds_try.
  - apply keeps_bind; [apply keeps_call; apply Inv_stable|]. intros img.
    apply keeps_bind; [by eapply keeps_randint|]. intros x.
    apply keeps_bind; [by eapply keeps_randint|]. intros y.
    apply sample_pixel_keeps.
  - eapply yields_bind; [apply yields_any|]. intros img _.
    eapply yields_bind; [apply yields_any|]. intros x _.
    eapply yields_bind; [apply yields_any|]. intros y _.
    apply sample_pixel_shape.
  - intros e. eapply succeeds_bind; [apply succeeds_logger|]. intros _ _.
    apply fallback_color_succeeds.
Qed.

Lemma draw_text_succeeds (image : Image) (text : string) (position : Q * Q)
    (font_path : string) (font_size : Z) (fill_color : color) :
  font_path = path.join "font" "ch.ttf" ∨ font_path = path.join "font" "en.otf" →
  im_mode image = RGBA → length fill_color = 4%nat →
  succeeds Inv (draw_text_on_image image text position font_path font_size fill_color)
    (λ img _, im_mode img = RGBA).
Proof.
  intros Hpath Hm Hfill s Hs. unfold draw_text_on_image.
  destruct (font_ok (path.join CURRENT_DIR font_path) font_size (world s))
    as (font & w' & Hfont); [destruct Hpath as [->| ->]; [by left|by right]|done|].
  pose proof (stable_truetype _ Inv Inv_stable (path.join CURRENT_DIR font_path)
                font_size (world s) Hs) as H1.
  rewrite Hfont in H1.
  rewrite (run_call_ret _ _ _ _ _ Hfont).
  destruct fill_color as [|r [|g [|b [|a [|??]]]]]; try done.
  rewrite Hm. cbn [ink_of]. rewrite run_lift_ret.
  eexists _, _. split; [reflexivity|]. done.
Qed.

Lemma draw_multiline_shape (image : Image) (text : string) (position : Q * Q)
    (font_path : string) (font_size line_spacing : Z) (fill_color : color) :
  yields (World := World)
    (draw_multiline_text_on_image image text position font_path font_size
       line_spacing fill_color)
    (λ r, same_shape r.1 image).
Proof.
  unfold draw_multiline_text_on_image.
  eapply yields_bind; [apply yields_any|]. intros f _.
  destruct (Z.of_nat (length (str_split_space text)) <=? 1).
  - eapply yields_bind; [apply yields_any|]. intros i _. by apply yields_ret.
  - destruct position as [x y].
    eapply yields_bind; [|intros a Ha; apply yields_ret; exact Ha].
    apply (yields_for_each _ _ (λ a, same_shape a image)); [|done].
    intros [i line] acc Hacc.
    eapply yields_bind; [apply yields_any|]. intros k _. by apply yields_ret.
Qed.

Lemma draw_multiline_succeeds (image : Image) (text : string) (position : Q * Q)
    (font_path : string) (font_size line_spacing : Z) (fill_color : color) :
  font_path = path.join "font" "ch.ttf" ∨ font_path = path.join "font" "en.otf" →
  im_mode image = RGBA → length fill_color = 4%nat →
  succeeds Inv
    (draw_multiline_text_on_image image text position font_path font_size
       line_spacing fill_color)
    (λ r _, im_mode r.1 = RGBA ∧ 1 ≤ r.2).
Proof.
  intros Hpath Hm Hfill s Hs.
  destruct (font_ok (path.join CURRENT_DIR font_path) font_size (world s))
    as (font & w' & Hfont); [destruct Hpath as [->| ->]; [by left|by right]|done|].
  pose proof (stable_truetype _ Inv Inv_stable (path.join CURRENT_DIR font_path)
                font_size (world s) Hs) as H1.
  rewrite Hfont in H1.
  assert (∃ ink, ink_of (im_mode image) fill_color = Ret ink) as [ink Hink].
  { rewrite Hm. destruct fill_color as [|r [|g [|b [|a [|??]]]]]; try done. by eexists. }
  destruct (draw_multiline_line_count image text position font_path font_size
              line_spacing fill_color s font w' ink Hfont Hink) as [img' Hrun].
  eexists _, _. split; [exact Hrun|]. split; [done|].
  destruct (draw_multiline_shape image text position font_path font_size
              line_spacing fill_color _ _ _ Hrun) as [Hm' _].
  cbn [fst snd] in *. split; [congruence|].
  pose proof (split_on_length (Ascii.eqb " ") text) as Hlen.
  fold (str_split_space text) in Hlen. lia.
Qed.

Lemma columns_until_succeed (groups : list (list string)) (result : Image) :
  im_mode result = RGBA →
  succeeds Inv
    (for_each_until (λ col_index, COLS <=? col_index) (enumerate groups) result
       (place_column name (columns_dir_of name)))
    (λ img _, im_mode img = RGBA).
Proof.
  intros Hm s Hs. unfold enumerate. rewrite for_each_until_take.
  by apply columns_succeed.
Qed.

End Success.


(** Looking a path up in a table that got an entry for another path. *)
Lemma lookup_path_other {A} (p q : string) (a : A) (table : list (string * A)) :
  q ≠ p →
  reference.lookup_path p ((q, a) :: table) = reference.lookup_path p table.
Proof.
  intros Hne. unfold reference.lookup_path. cbn [list_find fst].
  rewrite decide_False by done.
  by destruct (list_find _ table) as [[i [k v]]|].
Qed.

(** What the workflow of "Shows" writes lies under "/app/output". *)
Lemma shows_writes_output (p : string) :
  workflow_writes (config := reference.settings) "Shows" p →
  String.get 5 p = Some "o"%char.
Proof.
  intros [->|[->|[->|[i [->| ->]]]]]; reflexivity.
Qed.

Lemma shows_in_place_stable :
  stable (os := reference.system) (workflow_writes (config := reference.settings) "Shows")
    shows_in_place.
Proof.
  split; try done.
  - intros p w Hp [Hd Hi]. apply shows_writes_output in Hp.
    split; [|exact Hi]. cbn [os_makedirs reference.system snd reference.dirs].
    rewrite lookup_path_other; [exact Hd|]. intros ->. discriminate Hp.
  - intros img p w Hp [Hd Hi]. apply shows_writes_output in Hp.
    split; [exact Hd|]. cbn [Image_save reference.system snd reference.images].
    rewrite lookup_path_other; [exact Hi|]. intros ->. discriminate Hp.
Qed.


(** ** The font size: where the floor of 30 begins *)

(** Comparing the shrunk size with an integer from above. *)
Lemma shrunk_le_iff (k m : Z) :
  0 < k → 0 < m →
  (50 * Rpower (10 / IZR m) (8 / 10) <= IZR k)%R ↔ 50 ^ 5 * 10 ^ 4 ≤ k ^ 5 * m ^ 4.
Proof.
  intros Hk Hm.
  assert (Hk' : (0 < IZR k)%R) by by apply IZR_lt.
  assert (Hm' : (0 < IZR m)%R) by by apply IZR_lt.
  assert (Hv : (0 < 50 * Rpower (10 / IZR m) (8 / 10))%R).
  { apply Rmult_lt_0_compat; [lra|]. unfold Rpower. apply exp_pos. }
  rewrite pow5_le_iff by lra. rewrite shrunk_power by done.
  assert (HM : (0 < IZR m ^ 4)%R) by by apply pow_lt.
  assert (E : ((10 / IZR m) ^ 4 * IZR m ^ 4 = 10 ^ 4)%R).
  { rewrite <- Rpow_mult_distr. f_equal. field. lra. }
  assert (Z1 : IZR (k ^ 5 * m ^ 4) = (IZR k ^ 5 * IZR m ^ 4)%R).
  { rewrite mult_IZR. change 5 with (Z.of_nat 5). change 4 with (Z.of_nat 4).
    by rewrite <- !pow_IZR. }
  assert (Z2 : IZR (50 ^ 5 * 10 ^ 4) = (50 ^ 5 * 10 ^ 4)%R).
  { rewrite mult_IZR. change 5 with (Z.of_nat 5). change 4 with (Z.of_nat 4).
    by rewrite <- !pow_IZR. }
  split.
  - intros H. apply le_IZR. rewrite Z1, Z2.
    apply (Rmult_le_compat_r (IZR m ^ 4)) in H; [|lra].
    rewrite Rmult_assoc, E in H. exact H.
  - intros H. apply IZR_le in H. rewrite Z1, Z2 in H.
    apply (Rmult_le_reg_r (IZR m ^ 4)); [done|].
    by rewrite Rmult_assoc, E.
Qed.

(** The shrunk size falls as the divisor grows. *)
Lemma shrunk_antitone (m m' : Z) :
  1 ≤ m → m ≤ m' →
  (50 * Rpower (10 / IZR m') (8 / 10) <= 50 * Rpower (10 / IZR m) (8 / 10))%R.
Proof.
  intros Hm Hmm.
  assert (Hm1 : (1 <= IZR m)%R) by by apply IZR_le.
  assert (Hm2 : (IZR m <= IZR m')%R) by by apply IZR_le.
  apply Rmult_le_compat_l; [lra|].
  apply Rle_Rpower_l; [lra|]. split.
  - apply Rdiv_lt_0_compat; lra.
  - unfold Rdiv. apply Rmult_le_compat_l; [lra|].
    apply Rinv_le_contravar; lra.
Qed.

(** X18.  With [m = max(longest token, 3 * tokens)]: the floor of 30
    applies exactly from [m = 19] on (a token of 19 characters, or seven
    tokens), where both [font_size] and the applied size are 30; up to
    [m = 18] the formula is above the floor and the applied size is at
    least 31; and the applied size never grows when [m] grows. *)
Theorem font_size_floor :
  (∀ m, 19 ≤ m → font_size_R (Shrunk m) = 30%R ∧ int_font_size (Shrunk m) = 30)
  ∧ (∀ m, 1 ≤ m → m ≤ 18 →
       (30 < font_size_R (Shrunk m))%R ∧ 31 ≤ int_font_size (Shrunk m))
  ∧ (∀ m m', 1 ≤ m → m ≤ m' →
       int_font_size (Shrunk m') ≤ int_font_size (Shrunk m)).
Proof.
  split_and!.
  - intros m Hm.
    destruct (int_font_size_exact (Shrunk m)) as [_ Hb]; [lia|].
    assert (Hv : (50 * Rpower (10 / IZR m) (8 / 10) <= 30)%R).
    { apply (shrunk_le_iff 30 m); [lia..|].
      assert (19 ^ 4 ≤ m ^ 4) by (apply Z.pow_le_mono_l; lia). lia. }
    assert (E : font_size_R (Shrunk m) = 30%R).
    { cbn [font_size_R]. by apply Rmax_right. }
    split; [done|]. rewrite E in Hb. destruct Hb as [H1 H2].
    apply le_IZR in H1. rewrite <- plus_IZR in H2. apply lt_IZR in H2. lia.
  - intros m Hm1 Hm2.
    destruct (int_font_size_exact (Shrunk m)) as [_ Hb]; [lia|].
    assert (Hv : (31 <= 50 * Rpower (10 / IZR m) (8 / 10))%R).
    { apply (le_shrunk_iff 31 m); [lia..|].
      assert (m ^ 4 ≤ 18 ^ 4) by (apply Z.pow_le_mono_l; lia). lia. }
    assert (Hr : (31 <= font_size_R (Shrunk m))%R).
    { cbn [font_size_R]. etrans; [exact Hv|]. apply Rmax_l. }
    split; [lra|]. destruct Hb as [_ H2].
    assert (H3 : (31 < IZR (int_font_size (Shrunk m)) + 1)%R) by lra.
    rewrite <- plus_IZR in H3. apply lt_IZR in H3. lia.
  - intros m m' Hm Hmm.
    destruct (int_font_size_exact (Shrunk m)) as [_ [_ Hb]]; [lia|].
    destruct (int_font_size_exact (Shrunk m')) as [_ [Hb' _]]; [lia|].
    assert (Hle : (font_size_R (Shrunk m') <= font_size_R (Shrunk m))%R).
    { cbn [font_size_R]. apply Rle_max_compat_r. by apply shrunk_antitone. }
    assert (H3 : (IZR (int_font_size (Shrunk m')) < IZR (int_font_size (Shrunk m)) + 1)%R)
      by lra.
    rewrite <- plus_IZR in H3. apply lt_IZR in H3. lia.
Qed.

Lemma font_size_floor_witness :
  (font_size_R (Shrunk 21) = 30%R ∧ int_font_size (Shrunk 21) = 30)
  ∧ ((30 < font_size_R (Shrunk 12))%R ∧ 31 ≤ int_font_size (Shrunk 12))
  ∧ int_font_size (Shrunk 21) ≤ int_font_size (Shrunk 12).
Proof.
  destruct font_size_floor as (H1 & H2 & H3).
  split; [apply H1; lia|]. split; [apply H2; lia|]. apply H3; lia.
Defined.
